(** * DevLens proxy core: a shallow embedding of [proxy/server.ts] and
    [proxy/certificate.ts], and the properties of the design document
    checked against it.

    The development follows the two source files:
    - [Js]: the few JavaScript built-ins the proxy relies on
      ([String.prototype.split], [Array.prototype.join], [parseInt],
      template-literal printing of the request counter);
    - [Certificate]: [certificate.ts], run against a model of the file
      system and of [execSync];
    - [Proxy]: [server.ts], the [ProxyServer] class as an event-driven
      state machine: every callback the class registers is a case of
      [step], every observable call it makes (event emission, socket
      and response writes, upstream dials) is appended to a trace. *)

From Stdlib Require Import ZArith NArith Ascii String List Lia Bool.
From stdpp Require Import base option list gmap strings pretty.

Local Open Scope Z_scope.

(* ===================================================================== *)
(** ** JavaScript built-ins *)
(* ===================================================================== *)

Module Js.

(** Strings are sequences of one-byte code units: the proxy only ever
    splits, joins and parses text it received from the HTTP parser. *)

Fixpoint starts_with (p s : string) : bool :=
  match p, s with
  | EmptyString, _ => true
  | String a p', String b s' => if decide (a = b) then starts_with p' s' else false
  | String _ _, EmptyString => false
  end.

Definition cons_head (c : ascii) (l : list string) : list string :=
  match l with
  | h :: t => String c h :: t
  | [] => [String c EmptyString]
  end.

(** [s.split(sep)] for a non-empty separator: [skip] counts the code
    units of a separator occurrence that are still to be dropped. *)
Fixpoint split_go (sep : string) (skip : nat) (s : string) : list string :=
  match s with
  | EmptyString => [EmptyString]
  | String c s' =>
      match skip with
      | S k => split_go sep k s'
      | O =>
          if starts_with sep s
          then EmptyString :: split_go sep (String.length sep - 1) s'
          else cons_head c (split_go sep 0 s')
      end
  end.

Definition split (sep s : string) : list string := split_go sep 0 s.

(** [parts.join(sep)] *)
Fixpoint join (sep : string) (parts : list string) : string :=
  match parts with
  | [] => ""
  | [p] => p
  | p :: rest => p +:+ sep +:+ join sep rest
  end.

(** The two code units of ['\r\n']. *)
Definition CRLF : string := String "013" (String "010" EmptyString).

(** *** [parseInt(string)] with no radix argument (ECMA-262, 19.2.5) *)

(** White space and line terminators among one-byte code units. *)
Definition is_white_space (c : ascii) : bool :=
  let n := N_of_ascii c in
  ((9 <=? n) && (n <=? 13) || (n =? 32) || (n =? 160))%N.

Fixpoint trim_start (s : string) : string :=
  match s with
  | String c s' => if is_white_space c then trim_start s' else s
  | EmptyString => EmptyString
  end.

(** Value of a code unit as a digit: [0-9], then [a-z] or [A-Z] from 10. *)
Definition digit_value (c : ascii) : option N :=
  let n := N_of_ascii c in
  (if (48 <=? n) && (n <=? 57) then Some (n - 48)
   else if (97 <=? n) && (n <=? 122) then Some (n - 87)
   else if (65 <=? n) && (n <=? 90) then Some (n - 55)
   else None)%N.

Definition radix_digit (radix : N) (c : ascii) : option N :=
  match digit_value c with
  | Some d => if (d <? radix)%N then Some d else None
  | None => None
  end.

(** The longest prefix of radix-[radix] digits, read as an integer;
    [None] when that prefix is empty. *)
Fixpoint parse_digits (radix : N) (acc : option N) (s : string) : option N :=
  match s with
  | String c s' =>
      match radix_digit radix c with
      | Some d => parse_digits radix (Some (default 0%N acc * radix + d)%N) s'
      | None => acc
      end
  | EmptyString => acc
  end.

(** The result is [None] for [NaN] and otherwise the mathematical
    integer of the digits read, which is the Number [parseInt] returns
    whenever its magnitude is at most [2^53]; signed zero is [0]. *)
Definition parseInt_string (input : string) : option Z :=
  let s := trim_start input in
  let '(negative, s) :=
    match s with
    | String "-" s' => (true, s')
    | String "+" s' => (false, s')
    | _ => (false, s)
    end in
  let '(radix, s) :=
    match s with
    | String "0" (String "x" s') => (16%N, s')
    | String "0" (String "X" s') => (16%N, s')
    | _ => (10%N, s)
    end in
  match parse_digits radix None s with
  | None => None
  | Some n => Some (if negative then - Z.of_N n else Z.of_N n)
  end.

(** [ToString] of a possibly [undefined] string. *)
Definition to_string (v : option string) : string := default "undefined" v.

Definition parseInt (v : option string) : option Z := parseInt_string (to_string v).

(** [x || d] on a Number: [NaN] and zero are falsy. *)
Definition number_or (x : option Z) (d : Z) : Z :=
  match x with
  | Some n => if decide (n = 0) then d else n
  | None => d
  end.

(** [s || d] on a possibly [undefined] string: the empty string is falsy. *)
Definition string_or (s : option string) (d : string) : string :=
  match s with
  | Some EmptyString | None => d
  | Some s => s
  end.

(** [s || undefined] *)
Definition string_or_undefined (s : string) : option string :=
  match s with
  | EmptyString => None
  | _ => Some s
  end.

(** The largest count a Number holds exactly: [2^53 + 1] rounds back to
    [2^53], so [++n] stops there. *)
Definition MAX_EXACT : N := 9007199254740992%N.

Definition incr (n : N) : N := if (n <? MAX_EXACT)%N then (n + 1)%N else n.

(** The text of [s] before the first [c], or all of [s]. *)
Fixpoint before_first (c : ascii) (s : string) : string :=
  match s with
  | String a s' => if decide (c = a) then EmptyString else String a (before_first c s')
  | EmptyString => EmptyString
  end.

(** The text of [s] after the first [c], if [c] occurs in [s]. *)
Fixpoint after_first (c : ascii) (s : string) : option string :=
  match s with
  | String a s' => if decide (c = a) then Some s' else after_first c s'
  | EmptyString => None
  end.

(** [s.trim()] on one-byte code units. *)
Fixpoint trim_end (s : string) : string :=
  match s with
  | String c s' =>
      match trim_end s' with
      | EmptyString => if is_white_space c then EmptyString else String c EmptyString
      | t => String c t
      end
  | EmptyString => EmptyString
  end.

Definition trim (s : string) : string := trim_end (trim_start s).

(** [s.toLowerCase()] on ASCII letters; other code units are kept. *)
Definition lower_char (c : ascii) : ascii :=
  let n := N_of_ascii c in
  if ((65 <=? n) && (n <=? 90))%N then ascii_of_N (n + 32) else c.

Fixpoint toLowerCase (s : string) : string :=
  match s with
  | String c s' => String (lower_char c) (toLowerCase s')
  | EmptyString => EmptyString
  end.

End Js.

(* ===================================================================== *)
(** ** certificate.ts *)
(* ===================================================================== *)

Module Certificate.

(** The file system as [fs] sees it: the directories and the regular
    files with their contents, by path. *)
Record FS := { dirs : gset string; files : gmap string string }.

(** What the module can change: the file system, and the commands it
    handed to [execSync], most recent last. *)
Record World := { disk : FS; execs : list string }.

Inductive Result (A : Type) :=
| Ok (a : A)
| Throw (message : string).
Arguments Ok {A} a.
Arguments Throw {A} message.

(** Synchronous code that may throw. *)
Definition M (A : Type) : Type := World -> Result A * World.

Definition ret {A} (a : A) : M A := fun w => (Ok a, w).
Definition throw {A} (message : string) : M A := fun w => (Throw message, w).
Definition bind {A B} (m : M A) (k : A -> M B) : M B :=
  fun w =>
    match m w with
    | (Ok a, w') => k a w'
    | (Throw e, w') => (Throw e, w')
    end.
(** [try { m } catch { h }] *)
Definition try_catch {A} (m : M A) (h : M A) : M A :=
  fun w =>
    match m w with
    | (Ok a, w') => (Ok a, w')
    | (Throw _, w') => h w'
    end.

Notation "x <- m ;; k" := (bind m (fun x => k))
  (at level 100, m at next level, right associativity).
Notation "m ;;; k" := (bind m (fun _ => k))
  (at level 100, right associativity).

Record CertPaths := { key : string; cert : string; dir : string }.
Record HostCertPaths := { host_key : string; host_cert : string }.

Definition existsSync_in (d : FS) (p : string) : bool :=
  bool_decide (p ∈ dirs d) || bool_decide (is_Some (files d !! p)).

Definition existsSync (p : string) : M bool :=
  fun w => (Ok (existsSync_in (disk w) p), w).

Definition writeFileSync (p content : string) : M unit :=
  fun w =>
    (Ok tt, {| disk := {| dirs := dirs (disk w); files := <[p := content]> (files (disk w)) |};
               execs := execs w |}).

Definition readFileSync (p : string) : M string :=
  fun w =>
    match files (disk w) !! p with
    | Some content => (Ok content, w)
    | None => (Throw "ENOENT", w)
    end.

Definition unlinkSync (p : string) : M unit :=
  fun w =>
    match files (disk w) !! p with
    | Some _ =>
        (Ok tt, {| disk := {| dirs := dirs (disk w); files := delete p (files (disk w)) |};
                   execs := execs w |})
    | None => (Throw "ENOENT", w)
    end.

Definition quote : string := String "034" EmptyString.
Definition newline : string := String "010" EmptyString.
Definition quoted (s : string) : string := quote +:+ s +:+ quote.

Section WithHost.

  (** [os.homedir()] *)
Variable homedir : string.
  (** What a command line does to the file system when the child process
      exits with status 0; [None] when it exits otherwise. *)
Variable run_command : string -> FS -> option FS.

  (** [path.join] on segments that need no normalisation. *)
Definition path_join (a b : string) : string := a +:+ "/" +:+ b.

Definition CERT_DIR : string := path_join (path_join homedir ".devlens") "certs".
Definition CA_KEY : string := path_join CERT_DIR "ca.key".
Definition CA_CERT : string := path_join CERT_DIR "ca.crt".

  (** [fs.mkdirSync(p, { recursive: true })] for [p = CERT_DIR]. *)
Definition mkdirSync_recursive : M unit :=
    fun w =>
      (Ok tt, {| disk := {| dirs := {[ CERT_DIR; path_join homedir ".devlens" ]} ∪ dirs (disk w);
                           files := files (disk w) |};
                 execs := execs w |}).

  (** [execSync(command, { stdio: 'pipe' })]: throws on failure. *)
Definition execSync (command : string) : M unit :=
    fun w =>
      let log := execs w ++ [command] in
      match run_command command (disk w) with
      | Some d => (Ok tt, {| disk := d; execs := log |})
      | None => (Throw "Command failed", {| disk := disk w; execs := log |})
      end.

Definition ensureCertDir : M unit :=
    e <- existsSync CERT_DIR ;;
    if e then ret tt else mkdirSync_recursive.

Definition ca_genrsa_command : string :=
    "openssl genrsa -out " +:+ quoted CA_KEY +:+ " 2048".
Definition ca_req_command : string :=
    "openssl req -x509 -new -nodes -key " +:+ quoted CA_KEY
    +:+ " -sha256 -days 1825 -out " +:+ quoted CA_CERT
    +:+ " -subj " +:+ quoted "/C=US/ST=State/L=City/O=DevLens/CN=DevLens CA".

Definition ca_paths : CertPaths := {| key := CA_KEY; cert := CA_CERT; dir := CERT_DIR |}.

Definition generateCACert : M CertPaths :=
    ensureCertDir ;;;
    k <- existsSync CA_KEY ;;
    c <- existsSync CA_CERT ;;
    if k && c then ret ca_paths
    else
      (* Generate CA private key *)
      execSync ca_genrsa_command ;;;
      (* Generate CA certificate *)
      execSync ca_req_command ;;;
      ret ca_paths.

Definition host_genrsa_command (hostKey : string) : string :=
    "openssl genrsa -out " +:+ quoted hostKey +:+ " 2048".
Definition host_csr_command (hostname hostKey csrPath : string) : string :=
    "openssl req -new -key " +:+ quoted hostKey +:+ " -out " +:+ quoted csrPath
    +:+ " -subj " +:+ quoted ("/C=US/ST=State/L=City/O=DevLens/CN=" +:+ hostname).
Definition host_ext_file (hostname : string) : string :=
    "authorityKeyIdentifier=keyid,issuer" +:+ newline
    +:+ "basicConstraints=CA:FALSE" +:+ newline
    +:+ "keyUsage = digitalSignature, nonRepudiation, keyEncipherment, dataEncipherment" +:+ newline
    +:+ "subjectAltName = @alt_names" +:+ newline
    +:+ newline
    +:+ "[alt_names]" +:+ newline
    +:+ "DNS.1 = " +:+ hostname +:+ newline.
Definition host_sign_command (csrPath hostCert extPath : string) : string :=
    "openssl x509 -req -in " +:+ quoted csrPath +:+ " -CA " +:+ quoted CA_CERT
    +:+ " -CAkey " +:+ quoted CA_KEY +:+ " -CAcreateserial -out " +:+ quoted hostCert
    +:+ " -days 825 -sha256 -extfile " +:+ quoted extPath.

Definition generateHostCert (hostname : string) : M HostCertPaths :=
    ensureCertDir ;;;
    let hostKey := path_join CERT_DIR (hostname +:+ ".key") in
    let hostCert := path_join CERT_DIR (hostname +:+ ".crt") in
    k <- existsSync hostKey ;;
    c <- existsSync hostCert ;;
    if k && c then ret {| host_key := hostKey; host_cert := hostCert |}
    else
      (* Generate host private key *)
      execSync (host_genrsa_command hostKey) ;;;
      (* Generate CSR *)
      let csrPath := path_join CERT_DIR (hostname +:+ ".csr") in
      execSync (host_csr_command hostname hostKey csrPath) ;;;
      (* Create ext file for SAN *)
      let extPath := path_join CERT_DIR (hostname +:+ ".ext") in
      writeFileSync extPath (host_ext_file hostname) ;;;
      (* Sign with CA *)
      execSync (host_sign_command csrPath hostCert extPath) ;;;
      (* Cleanup *)
      unlinkSync csrPath ;;;
      unlinkSync extPath ;;;
      ret {| host_key := hostKey; host_cert := hostCert |}.

Definition getCACertPath : string := CA_CERT.

Definition isCACertGenerated : M bool := existsSync CA_CERT.

End WithHost.

End Certificate.

(* ===================================================================== *)
(** ** server.ts *)
(* ===================================================================== *)

Module Proxy.

(** A header value of [http.IncomingHttpHeaders]. *)
Inductive HeaderValue :=
| One (value : string)
| Many (values : list string).

(** An object used as a record of headers, in property order. *)
Definition Headers := list (string * HeaderValue).

(** [headers[key] = value] *)
Fixpoint set_property (key : string) (value : HeaderValue) (headers : Headers) : Headers :=
  match headers with
  | [] => [(key, value)]
  | (k, v) :: rest =>
      if decide (k = key) then (k, value) :: rest
      else (k, v) :: set_property key value rest
  end.

Record Response := {
  status : Z;
  statusText : string;
  response_headers : Headers;
  response_body : option string;
  duration : Z;
}.

(** [interface NetworkRequest] *)
Record NetworkRequest := {
  id : string;
  method : string;
  url : string;
  headers : Headers;
  body : option string;
  timestamp : Z;
  response : option Response;
}.

(** [request.response = r] *)
Definition set_response (request : NetworkRequest) (r : Response) : NetworkRequest :=
  {| id := id request; method := method request; url := url request;
     headers := headers request; body := body request;
     timestamp := timestamp request; response := Some r |}.

(** What [new URL(url)] exposes to the proxy. *)
Record URL := { hostname : string; port : string; pathname : string; search : string }.

(** [targetUrl.port || 80] is the port text, or the number 80. *)
Inductive PortOption :=
| PortText (text : string)
| PortNumber (n : Z).

Record HttpOptions := {
  http_hostname : string;
  http_port : PortOption;
  http_path : string;
  http_method : option string;
  http_headers : Headers;
}.

Record HttpsOptions := {
  https_hostname : string;
  https_port : Z;
  https_path : option string;
  https_method : string;
  https_headers : Headers;
  rejectUnauthorized : bool;
}.

(** Objects are named by the handle of the exchange whose handler
    created them: [clientRes], [proxyReq], [clientSocket],
    [serverSocket] and [tlsSocket] of exchange [h]. *)
Notation handle := nat (only parsing).

(** The observable calls of the proxy, in program order. *)
Inductive Call :=
| Emit_request (request : NetworkRequest)
| Emit_response (request : NetworkRequest)
| Emit_error (id error : string)
| ClientRes_writeHead (h : handle) (status : Z) (headers : Headers)
| ClientRes_end (h : handle) (data : string)
| ProxyRes_pipe_clientRes (h : handle)
| Http_request (h : handle) (options : HttpOptions)
| Https_request (h : handle) (options : HttpsOptions)
| ProxyReq_write (h : handle) (data : string)
| ProxyReq_end (h : handle)
| Net_connect (h : handle) (port : Z) (host : string)
| ClientSocket_write (h : handle) (data : string)
| ClientSocket_end (h : handle)
| ClientSocket_pipe_serverSocket (h : handle)
| ServerSocket_write (h : handle) (data : string)
| ServerSocket_end (h : handle)
| ServerSocket_pipe_clientSocket (h : handle)
| New_TLSSocket (h : handle) (key cert : string)
| TlsSocket_write (h : handle) (data : string).

(** Where an upstream request of the proxy stands. *)
Inductive UpstreamPhase :=
| Awaiting
| Receiving (statusCode : option Z) (statusMessage : option string)
            (headers : Headers) (responseBody : string)
| Completed
| Errored.

Inductive TunnelPhase :=
| NoSocket
| Dialing
| Established
| Failed.

(** The variables captured by the callbacks of one exchange. *)
Inductive Exchange :=
| HttpReading (id : string) (startTime : Z) (url : string) (method : option string)
              (headers : Headers) (body : string)
| HttpForwarded (request : NetworkRequest) (startTime : Z) (phase : UpstreamPhase)
| HttpRejected (request : NetworkRequest)
| Tunnel (request : NetworkRequest) (head : string) (phase : TunnelPhase)
| Mitm (request : NetworkRequest) (hostname : string) (port : Z)
| MitmChild (request : NetworkRequest) (startTime : Z) (parent : handle)
            (phase : UpstreamPhase).

Definition exchange_id (e : Exchange) : string :=
  match e with
  | HttpReading i _ _ _ _ _ => i
  | HttpForwarded r _ _ | HttpRejected r | Tunnel r _ _ | Mitm r _ _
  | MitmChild r _ _ _ => id r
  end.

(** The exchange object, once the handler has built it. *)
Definition exchange_request (e : Exchange) : option NetworkRequest :=
  match e with
  | HttpReading _ _ _ _ _ _ => None
  | HttpForwarded r _ _ | HttpRejected r | Tunnel r _ _ | Mitm r _ _
  | MitmChild r _ _ _ => Some r
  end.

(** [class ProxyServer], with what its handlers close over
    ([exchanges]), what they did ([calls]), the host they run on
    ([world]) and the exception that left a handler, if any. *)
Record ProxyServer := {
  server : option Z;
  requestId : N;
  caCert : option (string * string);
  exchanges : list Exchange;
  calls : list Call;
  world : Certificate.World;
  uncaught : option string;
}.

Inductive Event :=
(* http.Server *)
| On_request (method url : option string) (headers : Headers)
| On_connect (url : option string) (headers : Headers) (head : string)
(* clientReq *)
| On_clientReq_data (h : handle) (chunk : string)
| On_clientReq_end (h : handle)
(* proxyReq and proxyRes *)
| On_response (h : handle) (statusCode : option Z) (statusMessage : option string)
              (headers : Headers)
| On_proxyRes_data (h : handle) (chunk : string)
| On_proxyRes_end (h : handle)
| On_proxyReq_error (h : handle) (message : string)
(* serverSocket and clientSocket of a tunnel *)
| On_serverSocket_connect (h : handle)
| On_serverSocket_error (h : handle) (message : string)
| On_clientSocket_error (h : handle)
(* tlsSocket *)
| On_tlsSocket_data (h : handle) (data : string)
| On_tlsSocket_error (h : handle)
(* public methods *)
| Call_start (port : Z)
| Call_stop.

(** One turn of the event loop: the event whose handler runs, the value
    [now] of [Date.now()] in it, and the value [later] of a second
    [Date.now()] in the same handler. *)
Record Turn := { now : Z; later : Z; event : Event }.

(** A [ProxyServer] with no exchange yet whose [caCert] field holds [c]. *)
Definition configured (c : option (string * string)) (w : Certificate.World) : ProxyServer :=
  {| server := None; requestId := 0; caCert := c; exchanges := [];
     calls := []; world := w; uncaught := None |}.

(** [new ProxyServer()] on a given host. *)
Definition new_ProxyServer (w : Certificate.World) : ProxyServer := configured None w.

Definition call (c : Call) (st : ProxyServer) : ProxyServer :=
  {| server := server st; requestId := requestId st; caCert := caCert st;
     exchanges := exchanges st; calls := calls st ++ [c]; world := world st;
     uncaught := uncaught st |}.

Definition set_exchange (h : handle) (e : Exchange) (st : ProxyServer) : ProxyServer :=
  {| server := server st; requestId := requestId st; caCert := caCert st;
     exchanges := <[h := e]> (exchanges st); calls := calls st; world := world st;
     uncaught := uncaught st |}.

Definition new_exchange (e : Exchange) (st : ProxyServer) : ProxyServer :=
  {| server := server st; requestId := requestId st; caCert := caCert st;
     exchanges := exchanges st ++ [e]; calls := calls st; world := world st;
     uncaught := uncaught st |}.

Definition set_world (w : Certificate.World) (st : ProxyServer) : ProxyServer :=
  {| server := server st; requestId := requestId st; caCert := caCert st;
     exchanges := exchanges st; calls := calls st; world := w;
     uncaught := uncaught st |}.

(** An exception leaves the running handler. *)
Definition throw_uncaught (message : string) (st : ProxyServer) : ProxyServer :=
  {| server := server st; requestId := requestId st; caCert := caCert st;
     exchanges := exchanges st; calls := calls st; world := world st;
     uncaught := Some message |}.

(** [`req_${++this.requestId}`] *)
Definition next_id (st : ProxyServer) : string * ProxyServer :=
  let n := Js.incr (requestId st) in
  ("req_" +:+ pretty n,
   {| server := server st; requestId := n; caCert := caCert st;
      exchanges := exchanges st; calls := calls st; world := world st;
      uncaught := uncaught st |}).

Definition CONNECTION_ESTABLISHED : string :=
  "HTTP/1.1 200 Connection Established" +:+ Js.CRLF
  +:+ "Proxy-agent: DevLens" +:+ Js.CRLF
  +:+ Js.CRLF.

(** [net.connect] accepts the ports 0 to 65535 and throws on others. *)
Definition valid_port (p : Z) : bool := (0 <=? p) && (p <=? 65535).

(** [const [hostname, port] = (req.url || '').split(':')] and
    [parseInt(port) || 443] *)
Definition connect_target (url : option string) : string * Z :=
  let parts := Js.split ":" (Js.string_or url "") in
  let hostname := default "" (parts !! 0%nat) in
  let port := parts !! 1%nat in
  (hostname, Js.number_or (Js.parseInt port) 443).

Section WithHost.

Variable homedir : string.
Variable run_command : string -> Certificate.FS -> option Certificate.FS.
  (** [new URL(url)]: [None] when the constructor throws. *)
Variable URL_parse : string -> option URL.

  (** [async start(port)] up to the call of [listen]. *)
Definition start (port : Z) (st : ProxyServer) : ProxyServer :=
    (* Skip CA certificate - we'll use tunnel mode for HTTPS *)
    {| server := Some port; requestId := requestId st; caCert := None;
       exchanges := exchanges st; calls := calls st; world := world st;
       uncaught := uncaught st |}.

Definition stop (st : ProxyServer) : ProxyServer :=
    {| server := None; requestId := requestId st; caCert := caCert st;
       exchanges := exchanges st; calls := calls st; world := world st;
       uncaught := uncaught st |}.

Definition getCACertPath (st : ProxyServer) : option string :=
    match caCert st with
    | Some _ => Some (Certificate.getCACertPath homedir)
    | None => None
    end.

  (** *** Plain HTTP *)

Definition handleRequest (now : Z) (method url : option string) (headers : Headers)
      (st : ProxyServer) : ProxyServer :=
    let '(id, st) := next_id st in
    let startTime := now in
    let url := Js.string_or url "" in
    new_exchange (HttpReading id startTime url method headers "") st.

  (** [clientReq.on('data', ...)] *)
Definition clientReq_data (h : handle) (chunk : string) (st : ProxyServer) : ProxyServer :=
    match exchanges st !! h with
    | Some (HttpReading id startTime url method headers body) =>
        set_exchange h (HttpReading id startTime url method headers (body +:+ chunk)) st
    | _ => st
    end.

  (** [clientReq.on('end', ...)] *)
Definition clientReq_end (h : handle) (st : ProxyServer) : ProxyServer :=
    match exchanges st !! h with
    | Some (HttpReading id startTime url method headers body) =>
        let request :=
          {| id := id; method := Js.string_or method "GET"; url := url;
             headers := headers; body := Js.string_or_undefined body;
             timestamp := startTime; response := None |} in
        let st := call (Emit_request request) st in
        (* Parse target URL *)
        match URL_parse url with
        | None =>
            let st := call (ClientRes_writeHead h 400 []) st in
            let st := call (ClientRes_end h "Invalid URL") st in
            set_exchange h (HttpRejected request) st
        | Some targetUrl =>
            let options :=
              {| http_hostname := hostname targetUrl;
                 http_port := match port targetUrl with
                              | EmptyString => PortNumber 80
                              | p => PortText p
                              end;
                 http_path := pathname targetUrl +:+ search targetUrl;
                 http_method := method;
                 http_headers := headers |} in
            let st := call (Http_request h options) st in
            let st := match body with
                      | EmptyString => st
                      | _ => call (ProxyReq_write h body) st
                      end in
            let st := call (ProxyReq_end h) st in
            set_exchange h (HttpForwarded request startTime Awaiting) st
        end
    | _ => st
    end.

  (** The callback of [http.request] and of [https.request]. *)
Definition proxyReq_response (h : handle) (statusCode : option Z)
      (statusMessage : option string) (headers : Headers) (st : ProxyServer) : ProxyServer :=
    match exchanges st !! h with
    | Some (HttpForwarded request startTime Awaiting) =>
        let st := call (ClientRes_writeHead h (Js.number_or statusCode 500) headers) st in
        let st := call (ProxyRes_pipe_clientRes h) st in
        set_exchange h (HttpForwarded request startTime
                          (Receiving statusCode statusMessage headers "")) st
    | Some (MitmChild request startTime parent Awaiting) =>
        set_exchange h (MitmChild request startTime parent
                          (Receiving statusCode statusMessage headers "")) st
    | _ => st
    end.

  (** [proxyRes.on('data', ...)] *)
Definition proxyRes_data (h : handle) (chunk : string) (st : ProxyServer) : ProxyServer :=
    match exchanges st !! h with
    | Some (HttpForwarded request startTime (Receiving sc sm hs responseBody)) =>
        set_exchange h (HttpForwarded request startTime
                          (Receiving sc sm hs (responseBody +:+ chunk))) st
    | Some (MitmChild request startTime parent (Receiving sc sm hs responseBody)) =>
        set_exchange h (MitmChild request startTime parent
                          (Receiving sc sm hs (responseBody +:+ chunk))) st
    | _ => st
    end.

Definition header_line (entry : string * HeaderValue) : string :=
    let '(key, value) := entry in
    match value with
    | One EmptyString => ""
    | One v => key +:+ ": " +:+ v +:+ Js.CRLF
    | Many vs => key +:+ ": " +:+ Js.join ", " vs +:+ Js.CRLF
    end.

  (** The raw response written back over the client-facing TLS session. *)
Definition raw_response (statusCode : option Z) (statusMessage : option string)
      (headers : Headers) (responseBody : string) : string :=
    "HTTP/1.1 " +:+ from_option pretty "undefined" statusCode +:+ " "
    +:+ Js.to_string statusMessage +:+ Js.CRLF
    +:+ foldr (fun entry rest => header_line entry +:+ rest) "" headers
    +:+ Js.CRLF
    +:+ responseBody.

  (** [proxyRes.on('end', ...)] *)
Definition proxyRes_end (now : Z) (h : handle) (st : ProxyServer) : ProxyServer :=
    match exchanges st !! h with
    | Some (HttpForwarded request startTime (Receiving sc sm hs responseBody)) =>
        let request :=
          set_response request
            {| status := Js.number_or sc 0; statusText := Js.string_or sm "";
               response_headers := hs; response_body := Some responseBody;
               duration := now - startTime |} in
        let st := call (Emit_response request) st in
        set_exchange h (HttpForwarded request startTime Completed) st
    | Some (MitmChild request startTime parent (Receiving sc sm hs responseBody)) =>
        let request :=
          set_response request
            {| status := Js.number_or sc 0; statusText := Js.string_or sm "";
               response_headers := hs; response_body := Some responseBody;
               duration := now - startTime |} in
        let st := call (Emit_response request) st in
        (* Send response back to client *)
        let st := call (TlsSocket_write parent (raw_response sc sm hs responseBody)) st in
        set_exchange h (MitmChild request startTime parent Completed) st
    | _ => st
    end.

  (** [proxyReq.on('error', ...)]. In the plain HTTP handler
      [clientRes.writeHead] throws when the head of the upstream
      response was written to [clientRes] before. *)
Definition proxyReq_error (h : handle) (message : string) (st : ProxyServer) : ProxyServer :=
    match exchanges st !! h with
    | Some (HttpForwarded request startTime Awaiting) =>
        let st := call (Emit_error (id request) message) st in
        let st := call (ClientRes_writeHead h 502 []) st in
        let st := call (ClientRes_end h "Proxy Error") st in
        set_exchange h (HttpForwarded request startTime Errored) st
    | Some (HttpForwarded request startTime (Receiving _ _ _ _)) =>
        let st := call (Emit_error (id request) message) st in
        throw_uncaught "ERR_HTTP_HEADERS_SENT"
          (set_exchange h (HttpForwarded request startTime Errored) st)
    | Some (MitmChild request startTime parent (Awaiting | Receiving _ _ _ _)) =>
        let st := call (Emit_error (id request) message) st in
        set_exchange h (MitmChild request startTime parent Errored) st
    | _ => st
    end.

  (** *** CONNECT *)

Definition handleHttpsTunnel (hostname : string) (targetPort : Z) (h : handle)
      (head : string) (request : NetworkRequest) (st : ProxyServer) : ProxyServer :=
    if valid_port targetPort then
      let st := call (Net_connect h targetPort hostname) st in
      new_exchange (Tunnel request head Dialing) st
    else
      throw_uncaught "ERR_SOCKET_BAD_PORT" (new_exchange (Tunnel request head NoSocket) st).

  (** The callback of [net.connect]. *)
Definition serverSocket_connect (now : Z) (h : handle) (st : ProxyServer) : ProxyServer :=
    match exchanges st !! h with
    | Some (Tunnel request head Dialing) =>
        let st := call (ClientSocket_write h CONNECTION_ESTABLISHED) st in
        let st := call (ServerSocket_write h head) st in
        let st := call (ServerSocket_pipe_clientSocket h) st in
        let st := call (ClientSocket_pipe_serverSocket h) st in
        let request :=
          set_response request
            {| status := 200; statusText := "Connection Established (Tunnel)";
               response_headers := []; response_body := None;
               duration := now - timestamp request |} in
        let st := call (Emit_response request) st in
        set_exchange h (Tunnel request head Established) st
    | _ => st
    end.

  (** [serverSocket.on('error', ...)] *)
Definition serverSocket_error (h : handle) (message : string) (st : ProxyServer)
      : ProxyServer :=
    match exchanges st !! h with
    | Some (Tunnel request head (Dialing | Established)) =>
        let st := call (Emit_error (id request) message) st in
        let st := call (ClientSocket_end h) st in
        set_exchange h (Tunnel request head Failed) st
    | _ => st
    end.

  (** [clientSocket.on('error', ...)] *)
Definition clientSocket_error (h : handle) (st : ProxyServer) : ProxyServer :=
    match exchanges st !! h with
    | Some (Tunnel request head (Dialing | Established | Failed)) =>
        call (ServerSocket_end h) st
    | _ => st
    end.

Definition handleHttpsWithMitm (later : Z) (hostname : string) (targetPort : Z) (h : handle)
      (head : string) (request : NetworkRequest) (st : ProxyServer) : ProxyServer :=
    match Certificate.generateHostCert homedir run_command hostname (world st) with
    | (Certificate.Ok hostCert, w) =>
        let st := set_world w st in
        (* Tell client connection is established *)
        let st := call (ClientSocket_write h CONNECTION_ESTABLISHED) st in
        (* Create TLS server for client *)
        match Certificate.readFileSync (Certificate.host_key hostCert) w with
        | (Certificate.Ok key, _) =>
            match Certificate.readFileSync (Certificate.host_cert hostCert) w with
            | (Certificate.Ok cert, _) =>
                let st := call (New_TLSSocket h key cert) st in
                let request :=
                  set_response request
                    {| status := 200; statusText := "Connection Established (MITM)";
                       response_headers := []; response_body := None;
                       duration := later - timestamp request |} in
                let st := call (Emit_response request) st in
                new_exchange (Mitm request hostname targetPort) st
            | (Certificate.Throw _, _) =>
                (* Fallback to tunnel *)
                handleHttpsTunnel hostname targetPort h head request st
            end
        | (Certificate.Throw _, _) =>
            (* Fallback to tunnel *)
            handleHttpsTunnel hostname targetPort h head request st
        end
    | (Certificate.Throw _, w) =>
        (* Fallback to tunnel *)
        handleHttpsTunnel hostname targetPort h head request (set_world w st)
    end.

Definition handleConnect (now later : Z) (url : option string) (headers : Headers)
      (head : string) (st : ProxyServer) : ProxyServer :=
    let h := length (exchanges st) in
    let '(id, st) := next_id st in
    let '(hostname, targetPort) := connect_target url in
    let request :=
      {| id := id; method := "CONNECT"; url := "https://" +:+ Js.to_string url;
         headers := headers; body := None; timestamp := now; response := None |} in
    let st := call (Emit_request request) st in
    (* If we have CA cert, do MITM *)
    match caCert st with
    | Some _ => handleHttpsWithMitm later hostname targetPort h head request st
    | None =>
        (* Simple tunnel without MITM *)
        handleHttpsTunnel hostname targetPort h head request st
    end.

  (** *** Decrypted frames of a MITM session *)

  (** The header loop of [handleHttpsRequest] from line [i] on: the
      headers read and [bodyStart]. *)
Fixpoint read_headers (i : nat) (lines : list string) (headers : Headers)
      : Headers * nat :=
    match lines with
    | [] => (headers, 0%nat)
    | EmptyString :: _ => (headers, S i)
    | line :: rest =>
        let parts := Js.split ":" line in
        let key := default "" (parts !! 0%nat) in
        let valueParts := drop 1 parts in
        read_headers (S i) rest
          match key with
          | EmptyString => headers
          | _ => set_property (Js.toLowerCase key)
                   (One (Js.trim (Js.join ":" valueParts))) headers
          end
    end.

Definition handleHttpsRequest (now : Z) (hostname : string) (port : Z) (data : string)
      (parent : handle) (st : ProxyServer) : ProxyServer :=
    let h := length (exchanges st) in
    let '(id, st) := next_id st in
    let startTime := now in
    (* Parse HTTP request from data *)
    let lines := Js.split Js.CRLF data in
    let first := Js.split " " (default "" (lines !! 0%nat)) in
    let method := default "" (first !! 0%nat) in
    let path := first !! 1%nat in
    let '(headers, bodyStart) := read_headers 1 (drop 1 lines) [] in
    let body := Js.join Js.CRLF (drop bodyStart lines) in
    let request :=
      {| id := id; method := Js.string_or (Some method) "GET";
         url := "https://" +:+ hostname +:+ Js.to_string path;
         headers := headers; body := Js.string_or_undefined body;
         timestamp := startTime; response := None |} in
    let st := call (Emit_request request) st in
    (* Make request to actual server *)
    let options :=
      {| https_hostname := hostname; https_port := port; https_path := path;
         https_method := method; https_headers := headers;
         rejectUnauthorized := false |} in
    let st := call (Https_request h options) st in
    let st := match body with
              | EmptyString => st
              | _ => call (ProxyReq_write h body) st
              end in
    let st := call (ProxyReq_end h) st in
    new_exchange (MitmChild request startTime parent Awaiting) st.

  (** [tlsSocket.on('data', ...)] *)
Definition tlsSocket_data (now : Z) (h : handle) (data : string) (st : ProxyServer)
      : ProxyServer :=
    match exchanges st !! h with
    | Some (Mitm request hostname targetPort) =>
        handleHttpsRequest now hostname targetPort data h st
    | _ => st
    end.

  (** [tlsSocket.on('error', ...)] *)
Definition tlsSocket_error (h : handle) (st : ProxyServer) : ProxyServer :=
    match exchanges st !! h with
    | Some (Mitm _ _ _) => call (ClientSocket_end h) st
    | _ => st
    end.

  (** One turn of the event loop: the handler registered for the event
      runs to completion. Nothing runs once an exception has left a
      handler. *)
Definition step (st : ProxyServer) (turn : Turn) : ProxyServer :=
    match uncaught st with
    | Some _ => st
    | None =>
        match event turn with
        | On_request method url headers => handleRequest (now turn) method url headers st
        | On_connect url headers head =>
            handleConnect (now turn) (later turn) url headers head st
        | On_clientReq_data h chunk => clientReq_data h chunk st
        | On_clientReq_end h => clientReq_end h st
        | On_response h sc sm hs => proxyReq_response h sc sm hs st
        | On_proxyRes_data h chunk => proxyRes_data h chunk st
        | On_proxyRes_end h => proxyRes_end (now turn) h st
        | On_proxyReq_error h message => proxyReq_error h message st
        | On_serverSocket_connect h => serverSocket_connect (now turn) h st
        | On_serverSocket_error h message => serverSocket_error h message st
        | On_clientSocket_error h => clientSocket_error h st
        | On_tlsSocket_data h data => tlsSocket_data (now turn) h data st
        | On_tlsSocket_error h => tlsSocket_error h st
        | Call_start port => start port st
        | Call_stop => stop st
        end
    end.

Definition run (st : ProxyServer) (turns : list Turn) : ProxyServer :=
    fold_left step turns st.

  (** The calls made in one turn. *)
Definition turn_calls (st : ProxyServer) (turn : Turn) : list Call :=
    drop (length (calls st)) (calls (step st turn)).

  (** *** Module state: [let proxyInstance: ProxyServer | null = null] *)

  (** The instance the module refers to, the instances it referred to
      before, oldest first, and the host. *)
Record Process := {
    proxyInstance : option ProxyServer;
    replaced : list ProxyServer;
    host : Certificate.World;
  }.

Definition boot (w : Certificate.World) : Process :=
    {| proxyInstance := None; replaced := []; host := w |}.

Definition startProxy (port : Z) (p : Process) : Process :=
    {| proxyInstance := Some (start port (new_ProxyServer (host p)));
       replaced := replaced p ++ option_list (proxyInstance p);
       host := host p |}.

Definition getProxyInstance (p : Process) : option ProxyServer := proxyInstance p.

Definition stopProxy (p : Process) : Process :=
    {| proxyInstance := None;
       replaced := replaced p ++ option_list (stop <$> proxyInstance p);
       host := host p |}.

Definition getProxyCACertPath (p : Process) : option string :=
    match proxyInstance p with
    | Some st =>
        match getCACertPath st with
        | Some EmptyString | None => None
        | Some path => Some path
        end
    | None => None
    end.

  (** A turn of the event loop for the instance the module refers to. *)
Definition deliver (turn : Turn) (p : Process) : Process :=
    match proxyInstance p with
    | Some st =>
        let st := step st turn in
        {| proxyInstance := Some st; replaced := replaced p; host := world st |}
    | None => p
    end.

Inductive Action :=
  | Do_startProxy (port : Z)
  | Do_stopProxy
  | Do_turn (turn : Turn).

Definition act (p : Process) (a : Action) : Process :=
    match a with
    | Do_startProxy port => startProxy port p
    | Do_stopProxy => stopProxy p
    | Do_turn turn => deliver turn p
    end.

  (** The ids given to exchanges, in the order they were given. *)
Definition assigned_ids (st : ProxyServer) : list string :=
    exchange_id <$> exchanges st.

Definition process_ids (p : Process) : list string :=
    (replaced p ++ option_list (proxyInstance p)) ≫= assigned_ids.

End WithHost.

(** *** Notions used to state the properties *)

(** From [st] to [st'] the proxy announced one exchange and dialled
    [host] on [port] for it. *)
Definition dials (st st' : ProxyServer) (host : string) (port : Z) : Prop :=
  exists request,
    calls st' = calls st ++ [Emit_request request;
                             Net_connect (length (exchanges st)) port host].

(** The id the [k]-th exchange of an instance is given, counting from 0. *)
Definition nth_id (k : nat) : string :=
  "req_" +:+ pretty (N.min (N.of_nat (S k)) Js.MAX_EXACT).

(** The counter and the ids agree with the number of exchanges. *)
Definition ids_consistent (st : ProxyServer) : Prop :=
  requestId st = N.min (N.of_nat (length (exchanges st))) Js.MAX_EXACT
  /\ forall k e, exchanges st !! k = Some e -> exchange_id e = nth_id k.

(** The id a [response] or [error] event bears. *)
Definition completion_id (c : Call) : option string :=
  match c with
  | Emit_response request => Some (id request)
  | Emit_error i _ => Some i
  | _ => None
  end.

(** The id a [request] event bears. *)
Definition request_id (c : Call) : option string :=
  match c with
  | Emit_request request => Some (id request)
  | _ => None
  end.

(** The ids for which a [request] event was emitted. *)
Definition requested (l : list Call) : list string := omap request_id l.

(** Every [response] and [error] event comes after a [request] event
    with the same id. *)
Definition request_first (l : list Call) : Prop :=
  forall pre c post i,
    l = pre ++ c :: post -> completion_id c = Some i -> i ∈ requested pre.

(** The [request] event of an exchange is out, unless its body is still
    being read. *)
Definition announced (l : list Call) (e : Exchange) : Prop :=
  match e with
  | HttpReading _ _ _ _ _ _ => True
  | _ => exchange_id e ∈ requested l
  end.

(** What [step] keeps true of the events emitted so far. *)
Definition ordering_invariant (st : ProxyServer) : Prop :=
  request_first (calls st) /\ Forall (announced (calls st)) (exchanges st).

(** What the proxy itself wrote to the client socket of exchange [h]. *)
Definition client_write (h : handle) (c : Call) : option string :=
  match c with
  | ClientSocket_write h' data => if decide (h' = h) then Some data else None
  | _ => None
  end.

Definition client_writes (h : handle) (l : list Call) : list string :=
  omap (client_write h) l.

(** The calls that move bytes between the two sockets of exchange [h]:
    the head bytes sent upstream, and the two pipes. *)
Definition relays (h : handle) (c : Call) : bool :=
  match c with
  | ServerSocket_write h' _ | ServerSocket_pipe_clientSocket h'
  | ClientSocket_pipe_serverSocket h' => bool_decide (h' = h)
  | _ => false
  end.

(** Nothing was relayed for [h] before the reply was written. *)
Definition reply_first (h : handle) (l : list Call) : Prop :=
  forall pre c post,
    l = pre ++ c :: post -> relays h c = true ->
    client_writes h pre = [CONNECTION_ESTABLISHED].

(** Nothing was written to the client of [h] and nothing relayed. *)
Definition quiet (h : handle) (l : list Call) : Prop :=
  client_writes h l = [] /\ Forall (fun c => relays h c = false) l.

(** What [step] keeps true of the sockets of exchange [h] in tunnel mode. *)
Definition tunnel_invariant (h : handle) (st : ProxyServer) : Prop :=
  caCert st = None
  /\ reply_first h (calls st)
  /\ match exchanges st !! h with
     | Some (Tunnel _ _ Established) =>
         client_writes h (calls st) = [CONNECTION_ESTABLISHED]
     | Some (Tunnel _ _ Failed) =>
         client_writes h (calls st) = []
         \/ client_writes h (calls st) = [CONNECTION_ESTABLISHED]
     | _ => quiet h (calls st)
     end.

(** The upstream of [h] failed before it connected. *)
Definition dial_failed (h : handle) (st : ProxyServer) : Prop :=
  (exists request head, exchanges st !! h = Some (Tunnel request head Failed))
  /\ client_writes h (calls st) = [].

(** An exchange none of whose handlers does anything any more. *)
Definition closed (e : Exchange) : bool :=
  match e with
  | HttpRejected _ => true
  | HttpForwarded _ _ (Completed | Errored) => true
  | MitmChild _ _ _ (Completed | Errored) => true
  | _ => false
  end.

(** The id an [error] event bears. *)
Definition error_id (c : Call) : option string :=
  match c with
  | Emit_error i _ => Some i
  | _ => None
  end.

(** The ids of the [error] events, in order. *)
Definition errors (l : list Call) : list string := omap error_id l.

(** The number of [error] events that bear the id [i]. *)
Definition error_count (i : string) (l : list Call) : nat :=
  length (filter (fun j => j = i) (errors l)).

(** The number of [error] events an exchange has caused. *)
Definition errors_of (e : Exchange) : nat :=
  match e with
  | HttpForwarded _ _ Errored | MitmChild _ _ _ Errored | Tunnel _ _ Failed => 1
  | _ => 0
  end.

(** The [error] events are those of the exchanges, one for one, as long
    as the ids are distinct. *)
Definition errors_invariant (st : ProxyServer) : Prop :=
  (N.of_nat (length (exchanges st)) <= Js.MAX_EXACT)%N ->
  (forall i, i ∈ errors (calls st) -> i ∈ exchange_id <$> exchanges st)
  /\ forall h e, exchanges st !! h = Some e ->
                 error_count (exchange_id e) (calls st) = errors_of e.

(** The [response] field is set exactly when the exchange completed. *)
Definition response_sound (e : Exchange) : Prop :=
  match e with
  | HttpReading _ _ _ _ _ _ => True
  | HttpForwarded r _ Completed | MitmChild r _ _ Completed | Mitm r _ _
  | Tunnel r _ Established => is_Some (response r)
  | Tunnel r _ Failed => True
  | HttpForwarded r _ _ | MitmChild r _ _ _ | HttpRejected r | Tunnel r _ _ =>
      response r = None
  end.

(** The calls that send something upstream for the plain HTTP exchange
    or the MITM child exchange [h]. *)
Definition forwards (h : handle) (c : Call) : bool :=
  match c with
  | Http_request h' _ | Https_request h' _ | ProxyReq_write h' _ | ProxyReq_end h' =>
      bool_decide (h' = h)
  | _ => false
  end.

(** Nothing was sent upstream for [h], whose request was rejected or is
    still being read. *)
Definition unforwarded_invariant (h : handle) (st : ProxyServer) : Prop :=
  match exchanges st !! h with
  | Some (HttpReading _ _ _ _ _ _) | Some (HttpRejected _) | None =>
      Forall (fun c => forwards h c = false) (calls st)
  | _ => True
  end.

(** The exchange [h] was rejected and nothing was sent upstream for it. *)
Definition rejected (h : handle) (request : NetworkRequest) (st : ProxyServer) : Prop :=
  exchanges st !! h = Some (HttpRejected request)
  /\ Forall (fun c => forwards h c = false) (calls st).

(** The clock never goes back: from the reading [T] on, the readings of
    the turns are in order. *)
Fixpoint clock_monotone (T : Z) (turns : list Turn) : Prop :=
  match turns with
  | [] => True
  | t :: rest => T <= now t /\ now t <= later t /\ clock_monotone (later t) rest
  end.

(** The exchange started no later than [T], and the start time kept by
    its handlers is the [timestamp] of the exchange. *)
Definition timed (T : Z) (e : Exchange) : Prop :=
  match e with
  | HttpReading _ s _ _ _ _ => s <= T
  | HttpForwarded r s _ | MitmChild r s _ _ => timestamp r = s /\ s <= T
  | Tunnel r _ _ => timestamp r <= T
  | HttpRejected _ | Mitm _ _ _ => True
  end.

(** A [response] event of turn [t] carries a duration that is a clock
    reading of [t] minus the start time of the exchange, and is not
    negative. *)
Definition timely (t : Turn) (c : Call) : Prop :=
  match c with
  | Emit_response r =>
      exists resp,
        response r = Some resp
        /\ 0 <= duration resp
        /\ (duration resp = now t - timestamp r
            \/ duration resp = later t - timestamp r)
  | _ => True
  end.

(** *** Notions for the further properties *)




(** A turn of the event loop at clock reading [T]. *)
Definition instant (T : Z) (e : Event) : Turn := {| now := T; later := T; event := e |}.

(** All the chunks, one after the other. *)
Definition chunks_text (chunks : list string) : string :=
  foldr String.append EmptyString chunks.

(** What [proxyReq.write(body)] guarded by [if (body)] calls. *)
Definition write_if_body (h : handle) (body : string) : list Call :=
  match body with
  | EmptyString => []
  | _ => [ProxyReq_write h body]
  end.

(** The id a [response] event bears. *)
Definition response_id (c : Call) : option string :=
  match c with
  | Emit_response request => Some (id request)
  | _ => None
  end.

(** The ids of the [response] events, in order. *)
Definition responses (l : list Call) : list string := omap response_id l.

(** The number of [response] events that bear the id [i]. *)
Definition response_count (i : string) (l : list Call) : nat :=
  length (filter (fun j => j = i) (responses l)).

(** The least and the greatest number of [response] events an exchange
    in a given state can have caused: a failed tunnel may or may not
    have been established before. *)
Definition responses_least (e : Exchange) : nat :=
  match e with
  | HttpForwarded _ _ Completed | MitmChild _ _ _ Completed | Tunnel _ _ Established
  | Mitm _ _ _ => 1
  | _ => 0
  end.

Definition responses_most (e : Exchange) : nat :=
  match e with
  | HttpForwarded _ _ Completed | MitmChild _ _ _ Completed | Tunnel _ _ Established
  | Tunnel _ _ Failed | Mitm _ _ _ => 1
  | _ => 0
  end.

(** The [response] events are those of the exchanges, as long as the
    ids are distinct. *)
Definition responses_invariant (st : ProxyServer) : Prop :=
  (N.of_nat (length (exchanges st)) <= Js.MAX_EXACT)%N ->
  (forall i, i ∈ responses (calls st) -> i ∈ exchange_id <$> exchanges st)
  /\ forall h e, exchanges st !! h = Some e ->
                 (responses_least e <= response_count (exchange_id e) (calls st)
                  <= responses_most e)%nat.

(** The exchange is a tunnel. *)
Definition is_tunnel (e : Exchange) : bool :=
  match e with
  | Tunnel _ _ _ => true
  | _ => false
  end.


(** The [data] events of the client request of exchange [h], one per
    chunk, each with its clock reading; and those of the upstream
    response. *)
Definition request_chunks (h : handle) (chunks : list (Z * string)) : list Turn :=
  (fun c => instant c.1 (On_clientReq_data h c.2)) <$> chunks.

Definition response_chunks (h : handle) (chunks : list (Z * string)) : list Turn :=
  (fun c => instant c.1 (On_proxyRes_data h c.2)) <$> chunks.

(** [targetUrl.port || 80] *)
Definition port_or_80 (port : string) : PortOption :=
  match port with
  | EmptyString => PortNumber 80
  | String a p => PortText (String a p)
  end.


(** The calls and the exchanges of interception: the TLS session opened
    towards the client, the requests made for its frames, and what is
    written back over it. *)
Definition intercepts (c : Call) : bool :=
  match c with
  | New_TLSSocket _ _ _ | Https_request _ _ | TlsSocket_write _ _ => true
  | _ => false
  end.

Definition intercepted (e : Exchange) : bool :=
  match e with
  | Mitm _ _ _ | MitmChild _ _ _ _ => true
  | _ => false
  end.

(** What [step] keeps true of an instance in tunnel mode on a host [w]. *)
Definition tunnel_mode (w : Certificate.World) (st : ProxyServer) : Prop :=
  caCert st = None /\ world st = w
  /\ Forall (fun c => intercepts c = false) (calls st)
  /\ Forall (fun e => intercepted e = false) (exchanges st).






(** The number of [request] events that bear the id [i]. *)
Definition request_count (i : string) (l : list Call) : nat :=
  length (filter (fun j => j = i) (requested l)).

(** The number of [request] events an exchange has caused: none while
    the body of a plain HTTP request is being read, one from then on. *)
Definition requests_of (e : Exchange) : nat :=
  match e with
  | HttpReading _ _ _ _ _ _ => 0
  | _ => 1
  end.

(** The [request] events are those of the exchanges, one for one, as
    long as the ids are distinct. *)
Definition requests_invariant (st : ProxyServer) : Prop :=
  (N.of_nat (length (exchanges st)) <= Js.MAX_EXACT)%N ->
  (forall i, i ∈ requested (calls st) -> i ∈ exchange_id <$> exchanges st)
  /\ forall h e, exchanges st !! h = Some e ->
                 request_count (exchange_id e) (calls st) = requests_of e.


(** The start time kept by the handlers of an exchange is the
    [timestamp] of the exchange. *)
Definition stamped (e : Exchange) : Prop :=
  match e with
  | HttpForwarded r s _ | MitmChild r s _ _ => timestamp r = s
  | _ => True
  end.

(** A [response] event of turn [t] carries a duration that is a clock
    reading of [t] minus the start time of the exchange. *)
Definition elapsed (t : Turn) (c : Call) : Prop :=
  match c with
  | Emit_response r =>
      exists resp,
        response r = Some resp
        /\ (duration resp = now t - timestamp r
            \/ duration resp = later t - timestamp r)
  | _ => True
  end.

End Proxy.

(* ===================================================================== *)
(** ** Notions used to state the properties *)
(* ===================================================================== *)

(** The value of a string of decimal digits, read after [acc]. *)
Fixpoint decimal_value (acc : N) (s : string) : option N :=
  match s with
  | String a s' =>
      let n := N_of_ascii a in
      if ((48 <=? n) && (n <=? 57))%N then decimal_value (acc * 10 + (n - 48)) s' else None
  | EmptyString => Some acc
  end.

(* ===================================================================== *)
(** ** server/index.ts: what the dashboard server takes from the proxy *)
(* ===================================================================== *)

Module Dashboard.

(** What a route handler answers: [res.download], [res.status(s).json]
    with an error text, and [res.json] with a path or [null]. *)
Inductive Reply :=
| Download (path filename : string)
| Status_error (status : Z) (error : string)
| Json_path (path : option string).

Section WithHost.

Variable homedir : string.

  (** [app.get('/api/ca-cert', ...)] *)
Definition ca_cert (p : Proxy.Process) : Reply :=
    match Proxy.getProxyCACertPath homedir p with
    | Some EmptyString | None => Status_error 404 "CA certificate not available"
    | Some (String a certPath) => Download (String a certPath) "devlens-ca.crt"
    end.

  (** [app.get('/api/ca-cert/path', ...)] *)
Definition ca_cert_path (p : Proxy.Process) : Reply :=
    Json_path (Proxy.getProxyCACertPath homedir p).

End WithHost.

(** What a dashboard socket is sent. *)
Inductive SocketEmit :=
| Network_request (req : Proxy.NetworkRequest)
| Network_response (req : Proxy.NetworkRequest).

(** The two listeners [io.on('connection', ...)] registers on the proxy
    instance, for its [request] and its [response] events. *)
Definition on_proxy_event (c : Proxy.Call) : option SocketEmit :=
  match c with
  | Proxy.Emit_request req => Some (Network_request req)
  | Proxy.Emit_response req => Some (Network_response req)
  | _ => None
  end.

(** What a socket that connected when the instance had made the calls
    [seen] has been sent once the instance has made the calls [all]. *)
Definition socket_feed (seen all : list Proxy.Call) : list SocketEmit :=
  omap on_proxy_event (drop (length seen) all).

End Dashboard.

(** ** A concrete host, for the examples *)

Module Demo.

Definition home : string := "/home/dev".

Definition empty_world : Certificate.World :=
  {| Certificate.disk := {| Certificate.dirs := ∅; Certificate.files := ∅ |};
     Certificate.execs := [] |}.

(** A host on which every [openssl] invocation fails. *)
Definition openssl_fails (command : string) (d : Certificate.FS) : option Certificate.FS :=
  None.

(** A host on which a command succeeds and writes the file named by its
    [-out] argument, when it has one. *)
Definition out_argument (command : string) : option string :=
  match Js.split (" -out " +:+ Certificate.quote) command with
  | _ :: rest :: _ => Some (Js.before_first "034" rest)
  | _ => None
  end.

Definition openssl_works (command : string) (d : Certificate.FS) : option Certificate.FS :=
  match out_argument command with
  | Some p =>
      Some {| Certificate.dirs := Certificate.dirs d;
              Certificate.files := <[p := "PEM of " +:+ command]> (Certificate.files d) |}
  | None => Some d
  end.

(** A host on which [openssl genrsa] exits with status 0 and writes no
    key file. *)
Definition openssl_without_keys (command : string) (d : Certificate.FS)
    : option Certificate.FS :=
  if Js.starts_with "openssl genrsa" command then Some d else openssl_works command d.

(** A host on which [openssl x509] fails, as it does without the key
    and the certificate of the root. *)
Definition openssl_cannot_sign (command : string) (d : Certificate.FS)
    : option Certificate.FS :=
  if Js.starts_with "openssl x509" command then None else openssl_works command d.

(** A stand-in for [new URL]: absolute [http://host/path] URLs only. *)
Definition URL_parse (u : string) : option Proxy.URL :=
  if Js.starts_with "http://" u then
    let rest := String.substring 7 (String.length u - 7) u in
    let host := Js.before_first "/" rest in
    match host with
    | EmptyString => None
    | _ =>
        Some {| Proxy.hostname := Js.before_first ":" host;
                Proxy.port := default "" (Js.after_first ":" host);
                Proxy.pathname := String.substring (String.length host)
                                    (String.length rest - String.length host) rest;
                Proxy.search := "" |}
    end
  else None.

(** The host after a first [generateCACert], and after a first
    [generateHostCert] for [example.com] as well. *)
Definition issued_world : Certificate.World :=
  (Certificate.generateCACert home openssl_works empty_world).2.

Definition cached_world : Certificate.World :=
  (Certificate.generateHostCert home openssl_works "example.com" issued_world).2.

(** A decrypted frame with a body, and one that ends before the blank
    line. *)
Definition frame_with_body : string :=
  "POST /login HTTP/1.1" +:+ Js.CRLF +:+ "Host: example.com:8443" +:+ Js.CRLF
  +:+ "Content-Type: text/plain" +:+ Js.CRLF +:+ Js.CRLF +:+ "user=dev".


Definition turn (t : Z) (e : Proxy.Event) : Proxy.Turn :=
  {| Proxy.now := t; Proxy.later := t; Proxy.event := e |}.

Definition run := Proxy.run home openssl_fails URL_parse.

(** A CONNECT whose upstream connects, then a plain request that is
    answered. *)
Definition two_exchanges : list Proxy.Turn :=
  [turn 100 (Proxy.On_connect (Some "example.com:443") [] "");
   turn 130 (Proxy.On_serverSocket_connect 0%nat);
   turn 200 (Proxy.On_request (Some "GET") (Some "http://example.com/a")
               [("x-test", Proxy.One "1")]);
   turn 201 (Proxy.On_clientReq_end 1%nat);
   turn 250 (Proxy.On_response 1%nat (Some 200) (Some "OK") []);
   turn 251 (Proxy.On_proxyRes_data 1%nat "hello");
   turn 252 (Proxy.On_proxyRes_end 1%nat)].

(** A CONNECT, and the same CONNECT whose upstream refuses the
    connection. *)
Definition connect_only : list Proxy.Turn :=
  [turn 100 (Proxy.On_connect (Some "example.com:443") [] "hello")].

Definition dial_fails : list Proxy.Turn :=
  connect_only ++ [turn 130 (Proxy.On_serverSocket_error 0%nat "ECONNREFUSED")].

(** A plain request that has been forwarded; the same request whose
    upstream refuses the connection; and the same request whose upstream
    answers [200] and then resets the connection. *)
Definition forwarded : list Proxy.Turn :=
  [turn 200 (Proxy.On_request (Some "GET") (Some "http://example.com/a") []);
   turn 201 (Proxy.On_clientReq_end 0%nat)].

Definition upstream_refuses : Proxy.Turn :=
  turn 230 (Proxy.On_proxyReq_error 0%nat "ECONNREFUSED").

Definition transfer_fails : list Proxy.Turn :=
  forwarded
  ++ [turn 250 (Proxy.On_response 0%nat (Some 200) (Some "OK") []);
      turn 260 (Proxy.On_proxyReq_error 0%nat "ECONNRESET")].

(** A plain request whose URL [new URL] rejects, body read. *)
Definition malformed : list Proxy.Turn :=
  [turn 300 (Proxy.On_request (Some "GET") (Some "/relative") [])].

(** One CONNECT, a restart of the proxy, one more CONNECT. *)
Definition restart : list Proxy.Action :=
  [Proxy.Do_startProxy 8080;
   Proxy.Do_turn (turn 100 (Proxy.On_connect (Some "example.com:443") [] ""));
   Proxy.Do_stopProxy;
   Proxy.Do_startProxy 8080;
   Proxy.Do_turn (turn 200 (Proxy.On_connect (Some "example.org:443") [] ""))].

(** A CONNECT in MITM mode, then one decrypted frame of the session. *)
Definition mitm_session : list Proxy.Turn :=
  [turn 100 (Proxy.On_connect (Some "example.com:8443") [] "");
   turn 150 (Proxy.On_tlsSocket_data 0%nat frame_with_body)].

End Demo.

(* ===================================================================== *)
(** * Properties *)
(* ===================================================================== *)

Example split_colon_1 : Js.split ":" "example.com:443" = ["example.com"; "443"].
Proof. reflexivity. Qed.
Example split_colon_2 : Js.split ":" "" = [""].
Proof. reflexivity. Qed.
Example split_colon_3 : Js.split ":" "[::1]:8443" = ["["; ""; "1]"; "8443"].
Proof. reflexivity. Qed.
Example split_crlf :
  Js.split Js.CRLF ("GET / HTTP/1.1" +:+ Js.CRLF +:+ "a: b" +:+ Js.CRLF +:+ Js.CRLF +:+ "xy")
  = ["GET / HTTP/1.1"; "a: b"; ""; "xy"].
Proof. reflexivity. Qed.
Example parseInt_decimal : Js.parseInt (Some "8443") = Some 8443.
Proof. reflexivity. Qed.
Example parseInt_prefix : Js.parseInt (Some " -12px") = Some (-12).
Proof. reflexivity. Qed.
Example parseInt_hex : Js.parseInt (Some "0x1F") = Some 31.
Proof. reflexivity. Qed.
Example parseInt_undefined : Js.parseInt None = None.
Proof. reflexivity. Qed.
Example trim_both : Js.trim "  a b  " = "a b".
Proof. reflexivity. Qed.
Example toLowerCase_header : Js.toLowerCase "Content-Type" = "content-type".
Proof. reflexivity. Qed.

(** ** [split] on a one-character separator *)

Section SplitChar.

Variable c : ascii.

Lemma split_char_cons (a : ascii) (s : string) :
    Js.split (String c EmptyString) (String a s)
    = if decide (c = a) then EmptyString :: Js.split (String c EmptyString) s
      else Js.cons_head a (Js.split (String c EmptyString) s).
  Proof.
    unfold Js.split. cbn [Js.split_go Js.starts_with String.length].
    destruct (decide (c = a)); reflexivity.
  Qed.

Lemma split_char_first (s : string) :
    Js.split (String c EmptyString) s !! 0%nat = Some (Js.before_first c s).
  Proof.
    induction s as [|a s IH]; [reflexivity|].
    rewrite split_char_cons. cbn [Js.before_first].
    destruct (decide (c = a)); [reflexivity|].
    destruct (Js.split (String c EmptyString) s) as [|p ps]; [discriminate|].
    cbn in *. congruence.
  Qed.

Lemma split_char_second (s : string) :
    Js.split (String c EmptyString) s !! 1%nat
    = Js.before_first c <$> Js.after_first c s.
  Proof.
    induction s as [|a s IH]; [reflexivity|].
    rewrite split_char_cons. cbn [Js.after_first].
    destruct (decide (c = a)).
    - cbn. apply split_char_first.
    - pose proof (split_char_first s) as Hfirst.
      destruct (Js.split (String c EmptyString) s) as [|p ps]; [discriminate|].
      exact IH.
  Qed.

End SplitChar.


(** ** [parseInt] on decimal numerals *)

Lemma parse_digits_decimal (s : string) (acc v : N) :
  decimal_value acc s = Some v -> Js.parse_digits 10 (Some acc) s = Some v.
Proof.
  revert acc. induction s as [|a s IH]; intros acc H; cbn in *; [congruence|].
  unfold Js.radix_digit, Js.digit_value.
  destruct ((48 <=? N_of_ascii a)%N && (N_of_ascii a <=? 57)%N) eqn:E; [|discriminate].
  apply andb_true_iff in E as [E1 E2].
  apply N.leb_le in E1, E2.
  replace (N_of_ascii a - 48 <? 10)%N with true by (symmetry; apply N.ltb_lt; lia).
  apply IH, H.
Qed.

Lemma parseInt_decimal_value (s : string) (v : N) :
  s <> EmptyString -> decimal_value 0 s = Some v ->
  Js.parseInt (Some s) = Some (Z.of_N v).
Proof.
  intros Hne H. destruct s as [|a s]; [congruence|].
  cbn in H.
  destruct ((48 <=? N_of_ascii a)%N && (N_of_ascii a <=? 57)%N) eqn:E; [|discriminate].
  apply andb_true_iff in E as [E1 E2]. apply N.leb_le in E1, E2.
  assert (Hws : Js.is_white_space a = false).
  { unfold Js.is_white_space.
    rewrite orb_false_iff, orb_false_iff, andb_false_iff, !N.leb_gt, !N.eqb_neq. lia. }
  assert (Hdigit : Js.radix_digit 10 a = Some (N_of_ascii a - 48)%N).
  { unfold Js.radix_digit, Js.digit_value.
    replace ((48 <=? N_of_ascii a)%N && (N_of_ascii a <=? 57)%N) with true
      by (symmetry; apply andb_true_iff; split; apply N.leb_le; lia).
    replace (N_of_ascii a - 48 <? 10)%N with true by (symmetry; apply N.ltb_lt; lia).
    reflexivity. }
  assert (Hminus : a <> "-"%char) by (intros ->; cbn in *; lia).
  assert (Hplus : a <> "+"%char) by (intros ->; cbn in *; lia).
  assert (Htrim : Js.trim_start (String a s) = String a s).
  { cbn [Js.trim_start]. rewrite Hws. reflexivity. }
  unfold Js.parseInt, Js.to_string, Js.parseInt_string, default, from_option, id.
  rewrite Htrim. clear Htrim Hws.
  assert (Hmain : forall radix_s,
    radix_s = (10%N, String a s) ->
    (let '(radix, s0) := radix_s in
     match Js.parse_digits radix None s0 with
     | Some n => Some (Z.of_N n)
     | None => None
     end) = Some (Z.of_N v)).
  { intros ? ->. cbn [Js.parse_digits]. rewrite Hdigit. cbn [default].
    rewrite (parse_digits_decimal s _ v H). reflexivity. }
  destruct a as [[] [] [] [] [] [] [] []]; try (cbn in E1, E2; lia);
    try congruence; try exact (Hmain _ eq_refl).
  destruct s as [|b s]; [exact (Hmain _ eq_refl)|].
  destruct (decide (b = "x"%char)) as [->|]; [cbn in H; discriminate|].
  destruct (decide (b = "X"%char)) as [->|]; [cbn in H; discriminate|].
  destruct b as [[] [] [] [] [] [] [] []]; try congruence; exact (Hmain _ eq_refl).
Qed.

(** ** The target of a CONNECT request *)

Lemma connect_target_parts (url : option string) :
  Proxy.connect_target url
  = (Js.before_first ":" (Js.string_or url ""),
     Js.number_or
       (Js.parseInt (Js.before_first ":" <$> Js.after_first ":" (Js.string_or url ""))) 443).
Proof.
  unfold Proxy.connect_target.
  rewrite (split_char_first ":" (Js.string_or url "")).
  rewrite (split_char_second ":" (Js.string_or url "")).
  reflexivity.
Qed.

Lemma handleConnect_tunnel_dials homedir run_command (st : Proxy.ProxyServer)
    (now later : Z) (url : option string) (headers : Proxy.Headers) (head : string) :
  Proxy.caCert st = None ->
  Proxy.valid_port (Proxy.connect_target url).2 = true ->
  Proxy.dials st (Proxy.handleConnect homedir run_command now later url headers head st)
    (Proxy.connect_target url).1 (Proxy.connect_target url).2.
Proof.
  intros Hca Hport. unfold Proxy.handleConnect, Proxy.next_id.
  destruct (Proxy.connect_target url) as [hostname targetPort]. cbn [fst snd] in *.
  cbn [Proxy.call Proxy.caCert]. rewrite Hca.
  unfold Proxy.handleHttpsTunnel. rewrite Hport.
  eexists. cbn. rewrite <- app_assoc. reflexivity.
Qed.

(** X22. A CONNECT target is cut at its colons: the upstream host is
    the text before the first one, the port text is the text between
    the first and the second one. In tunnel mode the proxy dials port
    443 when the target has no colon and when [parseInt] of the port
    text is [NaN] or 0; it dials the parsed port when that is an integer
    from 1 to 65535, in particular when the port text is a decimal
    numeral in that range. *)
Theorem connect_target_port homedir run_command (st : Proxy.ProxyServer)
    (now later : Z) (url : option string) (headers : Proxy.Headers) (head : string) :
  Proxy.caCert st = None ->
  let target := Js.string_or url "" in
  let hostname := Js.before_first ":" target in
  let port_text := Js.before_first ":" <$> Js.after_first ":" target in
  let st' := Proxy.handleConnect homedir run_command now later url headers head st in
  (Js.after_first ":" target = None -> Proxy.dials st st' hostname 443)
  /\ (forall digits v,
        port_text = Some digits -> digits <> EmptyString ->
        decimal_value 0 digits = Some v -> (1 <= v <= 65535)%N ->
        Proxy.dials st st' hostname (Z.of_N v))
  /\ match Js.parseInt port_text with
     | None | Some 0 => Proxy.dials st st' hostname 443
     | Some (Z.pos p) => Z.pos p <= 65535 -> Proxy.dials st st' hostname (Z.pos p)
     | Some (Z.neg _) => True
     end.
Proof.
  intros Hca target hostname port_text st'.
  pose proof (handleConnect_tunnel_dials homedir run_command st now later url headers head Hca)
    as Hdial.
  rewrite connect_target_parts in Hdial. cbn [fst snd] in Hdial.
  fold target hostname port_text st' in Hdial.
  split; [|split].
  - intros Hnone. unfold port_text in Hdial. rewrite Hnone in Hdial.
    apply Hdial. reflexivity.
  - intros digits v Htext Hne Hvalue Hrange. rewrite Htext in Hdial.
    rewrite (parseInt_decimal_value digits v Hne Hvalue) in Hdial.
    unfold Js.number_or in Hdial.
    destruct (decide (Z.of_N v = 0)) as [Hz|_]; [lia|].
    apply Hdial. unfold Proxy.valid_port. apply andb_true_iff.
    split; apply Z.leb_le; lia.
  - unfold Js.number_or in Hdial.
    destruct (Js.parseInt port_text) as [[|p|p]|]; try exact I.
    + apply Hdial. reflexivity.
    + intros Hle. destruct (decide (Z.pos p = 0)) as [Hz|_]; [lia|].
      apply Hdial. unfold Proxy.valid_port. apply andb_true_iff.
      split; apply Z.leb_le; lia.
    + apply Hdial. reflexivity.
Qed.

Lemma connect_target_port_witness :
  Proxy.caCert (Proxy.new_ProxyServer Demo.empty_world) = None
  /\ Proxy.dials (Proxy.new_ProxyServer Demo.empty_world)
       (Proxy.handleConnect Demo.home Demo.openssl_fails 10 10 (Some "example.com:8443") [] ""
          (Proxy.new_ProxyServer Demo.empty_world))
       "example.com" 8443.
Proof.
  split; [reflexivity|].
  pose proof (connect_target_port Demo.home Demo.openssl_fails
                (Proxy.new_ProxyServer Demo.empty_world) 10 10
                (Some "example.com:8443") [] "" eq_refl) as (_ & _ & H).
  apply H. vm_compute. discriminate.
Defined.

(** C10. The claim fails on the code for a port text that parses to a
    negative integer or to one above 65535: [parseInt(port) || 443]
    falls back to 443 on [NaN] and on 0 only. For the target
    [example.com:-5] the port the handler computes is -5, not 443; the
    handler emits [request], then [net.connect] throws: nothing is
    dialled and the exception leaves the handler. The same happens for
    [example.com:70000]. *)
Theorem connect_negative_port_throws :
  Js.parseInt (Some "-5") = Some (-5)
  /\ Proxy.connect_target (Some "example.com:-5") = ("example.com", -5)
  /\ (exists request,
        Proxy.calls
          (Proxy.handleConnect Demo.home Demo.openssl_fails 10 10
             (Some "example.com:-5") [] "" (Proxy.new_ProxyServer Demo.empty_world))
        = [Proxy.Emit_request request])
  /\ ~ Proxy.dials (Proxy.new_ProxyServer Demo.empty_world)
         (Proxy.handleConnect Demo.home Demo.openssl_fails 10 10
            (Some "example.com:-5") [] "" (Proxy.new_ProxyServer Demo.empty_world))
         "example.com" 443
  /\ Proxy.uncaught
       (Proxy.handleConnect Demo.home Demo.openssl_fails 10 10
          (Some "example.com:-5") [] "" (Proxy.new_ProxyServer Demo.empty_world))
     = Some "ERR_SOCKET_BAD_PORT"
  /\ Proxy.connect_target (Some "example.com:70000") = ("example.com", 70000)
  /\ Proxy.uncaught
       (Proxy.handleConnect Demo.home Demo.openssl_fails 10 10
          (Some "example.com:70000") [] "" (Proxy.new_ProxyServer Demo.empty_world))
     = Some "ERR_SOCKET_BAD_PORT".
Proof.
  split; [reflexivity|]. split; [reflexivity|].
  split; [eexists; vm_compute; reflexivity|].
  split; [intros [request H]; vm_compute in H; discriminate H|].
  split; [reflexivity|]. split; reflexivity.
Qed.

(** ** certificate.ts: cached material is reused *)

Section Issuance.

Variable homedir : string.
Variable run_command : string -> Certificate.FS -> option Certificate.FS.

Lemma ensureCertDir_files (w : Certificate.World) :
  exists w1,
    Certificate.ensureCertDir homedir w = (Certificate.Ok tt, w1)
    /\ Certificate.execs w1 = Certificate.execs w
    /\ Certificate.files (Certificate.disk w1) = Certificate.files (Certificate.disk w)
    /\ Certificate.dirs (Certificate.disk w) ⊆ Certificate.dirs (Certificate.disk w1)
    /\ Certificate.existsSync_in (Certificate.disk w1) (Certificate.CERT_DIR homedir) = true.
Proof.
  unfold Certificate.ensureCertDir, Certificate.bind, Certificate.existsSync.
  destruct (Certificate.existsSync_in (Certificate.disk w) (Certificate.CERT_DIR homedir)) eqn:E.
  - exists w. repeat split; try reflexivity. exact E.
  - eexists. split; [reflexivity|]. cbn. repeat split.
    + set_solver.
    + unfold Certificate.existsSync_in. cbn.
      apply orb_true_iff. left. apply bool_decide_eq_true. set_solver.
Qed.

Lemma existsSync_in_mono (d d' : Certificate.FS) (p : string) :
  Certificate.files d' = Certificate.files d ->
  Certificate.dirs d ⊆ Certificate.dirs d' ->
  Certificate.existsSync_in d p = true -> Certificate.existsSync_in d' p = true.
Proof.
  unfold Certificate.existsSync_in. intros -> Hsub.
  rewrite !orb_true_iff, !bool_decide_eq_true. set_solver.
Qed.

Lemma ensureCertDir_again (w : Certificate.World) :
  Certificate.existsSync_in (Certificate.disk w) (Certificate.CERT_DIR homedir) = true ->
  Certificate.ensureCertDir homedir w = (Certificate.Ok tt, w).
Proof.
  intros E. unfold Certificate.ensureCertDir, Certificate.bind, Certificate.existsSync.
  rewrite E. reflexivity.
Qed.

Lemma generateCACert_cached (w : Certificate.World) :
  Certificate.existsSync_in (Certificate.disk w) (Certificate.CA_KEY homedir) = true ->
  Certificate.existsSync_in (Certificate.disk w) (Certificate.CA_CERT homedir) = true ->
  exists w1,
    Certificate.generateCACert homedir run_command w
      = (Certificate.Ok (Certificate.ca_paths homedir), w1)
    /\ Certificate.execs w1 = Certificate.execs w
    /\ Certificate.files (Certificate.disk w1) = Certificate.files (Certificate.disk w)
    /\ Certificate.generateCACert homedir run_command w1
      = (Certificate.Ok (Certificate.ca_paths homedir), w1).
Proof.
  intros Hk Hc.
  destruct (ensureCertDir_files w) as (w1 & Hensure & Hexecs & Hfiles & Hdirs & Hdir).
  pose proof (existsSync_in_mono _ _ _ Hfiles Hdirs Hk) as Hk1.
  pose proof (existsSync_in_mono _ _ _ Hfiles Hdirs Hc) as Hc1.
  exists w1. repeat split; try assumption.
  - unfold Certificate.generateCACert, Certificate.bind at 1. rewrite Hensure.
    unfold Certificate.bind, Certificate.existsSync. rewrite Hk1, Hc1. reflexivity.
  - unfold Certificate.generateCACert, Certificate.bind at 1.
    rewrite (ensureCertDir_again w1 Hdir).
    unfold Certificate.bind, Certificate.existsSync. rewrite Hk1, Hc1. reflexivity.
Qed.

Lemma generateHostCert_cached (hostname : string) (w : Certificate.World) :
  let hostKey := Certificate.path_join (Certificate.CERT_DIR homedir) (hostname +:+ ".key") in
  let hostCert := Certificate.path_join (Certificate.CERT_DIR homedir) (hostname +:+ ".crt") in
  Certificate.existsSync_in (Certificate.disk w) hostKey = true ->
  Certificate.existsSync_in (Certificate.disk w) hostCert = true ->
  exists w1,
    Certificate.generateHostCert homedir run_command hostname w
      = (Certificate.Ok {| Certificate.host_key := hostKey;
                           Certificate.host_cert := hostCert |}, w1)
    /\ Certificate.execs w1 = Certificate.execs w
    /\ Certificate.files (Certificate.disk w1) = Certificate.files (Certificate.disk w)
    /\ Certificate.generateHostCert homedir run_command hostname w1
      = (Certificate.Ok {| Certificate.host_key := hostKey;
                           Certificate.host_cert := hostCert |}, w1).
Proof.
  intros hostKey hostCert Hk Hc.
  destruct (ensureCertDir_files w) as (w1 & Hensure & Hexecs & Hfiles & Hdirs & Hdir).
  pose proof (existsSync_in_mono _ _ _ Hfiles Hdirs Hk) as Hk1.
  pose proof (existsSync_in_mono _ _ _ Hfiles Hdirs Hc) as Hc1.
  exists w1. repeat split; try assumption.
  - unfold Certificate.generateHostCert, Certificate.bind at 1. rewrite Hensure.
    unfold Certificate.bind, Certificate.existsSync.
    fold hostKey hostCert. rewrite Hk1, Hc1. reflexivity.
  - unfold Certificate.generateHostCert, Certificate.bind at 1.
    rewrite (ensureCertDir_again w1 Hdir).
    unfold Certificate.bind, Certificate.existsSync.
    fold hostKey hostCert. rewrite Hk1, Hc1. reflexivity.
Qed.

End Issuance.

(** C6. Issuance is idempotent. When the root key and the root
    certificate exist on disk, [generateCACert] returns the paths
    [CA_KEY], [CA_CERT] and [CERT_DIR], hands no command to [execSync]
    and leaves every file as it is, and so does any further call; when
    the key and the certificate of [hostname] exist, the same holds of
    [generateHostCert hostname] and the two paths of that host. *)
Theorem issuance_is_idempotent homedir run_command (hostname : string)
    (w : Certificate.World) :
  (Certificate.existsSync_in (Certificate.disk w) (Certificate.CA_KEY homedir) = true ->
   Certificate.existsSync_in (Certificate.disk w) (Certificate.CA_CERT homedir) = true ->
   exists w1,
     Certificate.generateCACert homedir run_command w
       = (Certificate.Ok (Certificate.ca_paths homedir), w1)
     /\ Certificate.execs w1 = Certificate.execs w
     /\ Certificate.files (Certificate.disk w1) = Certificate.files (Certificate.disk w)
     /\ Certificate.generateCACert homedir run_command w1
       = (Certificate.Ok (Certificate.ca_paths homedir), w1))
  /\ (let hostKey :=
        Certificate.path_join (Certificate.CERT_DIR homedir) (hostname +:+ ".key") in
      let hostCert :=
        Certificate.path_join (Certificate.CERT_DIR homedir) (hostname +:+ ".crt") in
      Certificate.existsSync_in (Certificate.disk w) hostKey = true ->
      Certificate.existsSync_in (Certificate.disk w) hostCert = true ->
      exists w1,
        Certificate.generateHostCert homedir run_command hostname w
          = (Certificate.Ok {| Certificate.host_key := hostKey;
                               Certificate.host_cert := hostCert |}, w1)
        /\ Certificate.execs w1 = Certificate.execs w
        /\ Certificate.files (Certificate.disk w1) = Certificate.files (Certificate.disk w)
        /\ Certificate.generateHostCert homedir run_command hostname w1
          = (Certificate.Ok {| Certificate.host_key := hostKey;
                               Certificate.host_cert := hostCert |}, w1)).
Proof.
  split.
  - apply generateCACert_cached.
  - apply generateHostCert_cached.
Qed.

Example first_issuance_runs_openssl :
  (Certificate.generateHostCert Demo.home Demo.openssl_works "example.com"
     Demo.issued_world).1
  = Certificate.Ok {| Certificate.host_key := "/home/dev/.devlens/certs/example.com.key";
                      Certificate.host_cert := "/home/dev/.devlens/certs/example.com.crt" |}
  /\ length (Certificate.execs Demo.cached_world) = 5%nat
  /\ Certificate.files (Certificate.disk Demo.cached_world)
       !! "/home/dev/.devlens/certs/example.com.csr" = None.
Proof. vm_compute. repeat split; reflexivity. Qed.

Lemma issuance_is_idempotent_witness :
  Certificate.existsSync_in (Certificate.disk Demo.cached_world)
    (Certificate.CA_KEY Demo.home) = true
  /\ Certificate.existsSync_in (Certificate.disk Demo.cached_world)
       (Certificate.CA_CERT Demo.home) = true
  /\ exists w1 w2,
       Certificate.generateCACert Demo.home Demo.openssl_fails Demo.cached_world
         = (Certificate.Ok (Certificate.ca_paths Demo.home), w1)
       /\ Certificate.execs w1 = Certificate.execs Demo.cached_world
       /\ Certificate.generateHostCert Demo.home Demo.openssl_fails "example.com"
            Demo.cached_world
         = (Certificate.Ok
              {| Certificate.host_key := "/home/dev/.devlens/certs/example.com.key";
                 Certificate.host_cert := "/home/dev/.devlens/certs/example.com.crt" |}, w2)
       /\ Certificate.execs w2 = Certificate.execs Demo.cached_world.
Proof.
  split; [vm_compute; reflexivity|]. split; [vm_compute; reflexivity|].
  destruct (issuance_is_idempotent Demo.home Demo.openssl_fails "example.com"
              Demo.cached_world) as [Hca Hhost].
  destruct Hca as (w1 & H1 & E1 & _); [vm_compute; reflexivity ..|].
  destruct Hhost as (w2 & H2 & E2 & _); [vm_compute; reflexivity ..|].
  exists w1, w2. repeat split; assumption.
Defined.

Lemma string_app_assoc (a b c : string) : (a +:+ b) +:+ c = a +:+ b +:+ c.
Proof.
  induction a as [|x a IH]; [reflexivity|].
  change (String x ((a +:+ b) +:+ c) = String x (a +:+ b +:+ c)).
  f_equal. exact IH.
Qed.

(** ** Case analysis on one turn of the event loop *)

Ltac unfold_handlers :=
  unfold Proxy.step, Proxy.handleRequest, Proxy.handleConnect, Proxy.clientReq_data,
    Proxy.clientReq_end, Proxy.proxyReq_response, Proxy.proxyRes_data, Proxy.proxyRes_end,
    Proxy.proxyReq_error, Proxy.serverSocket_connect, Proxy.serverSocket_error,
    Proxy.clientSocket_error, Proxy.tlsSocket_data, Proxy.tlsSocket_error,
    Proxy.handleHttpsRequest, Proxy.handleHttpsWithMitm, Proxy.handleHttpsTunnel,
    Proxy.start, Proxy.stop, Proxy.next_id in *.

Ltac step_cases :=
  unfold_handlers; repeat case_match; simplify_eq; cbn in *.

Section Run.

Variable homedir : string.
Variable run_command : string -> Certificate.FS -> option Certificate.FS.
Variable URL_parse : string -> option Proxy.URL.

Notation step := (Proxy.step homedir run_command URL_parse).
Notation run := (Proxy.run homedir run_command URL_parse).

Lemma run_app (st : Proxy.ProxyServer) (turns turns' : list Proxy.Turn) :
  run st (turns ++ turns') = run (run st turns) turns'.
Proof. apply fold_left_app. Qed.

Lemma run_snoc (st : Proxy.ProxyServer) (turns : list Proxy.Turn) (t : Proxy.Turn) :
  run st (turns ++ [t]) = step (run st turns) t.
Proof. rewrite run_app. reflexivity. Qed.

(** An invariant of [step] that holds of a state holds along every run. *)
Lemma run_invariant (P : Proxy.ProxyServer -> Prop) :
  (forall st t, P st -> P (step st t)) ->
  forall turns st, P st -> P (run st turns).
Proof.
  intros Hstep turns. induction turns as [|t turns IH]; intros st H; [exact H|].
  cbn. apply IH, Hstep, H.
Qed.

Lemma step_caCert (st : Proxy.ProxyServer) (t : Proxy.Turn) :
  Proxy.caCert st = None -> Proxy.caCert (step st t) = None.
Proof. intros H. destruct t as [now later []]; step_cases; congruence. Qed.

Lemma run_caCert (st : Proxy.ProxyServer) (turns : list Proxy.Turn) :
  Proxy.caCert st = None -> Proxy.caCert (run st turns) = None.
Proof. apply (run_invariant (fun st => Proxy.caCert st = None)), step_caCert. Qed.

Notation act := (Proxy.act homedir run_command URL_parse).

Lemma process_caCert (actions : list Proxy.Action) (p : Proxy.Process) :
  (forall st, Proxy.proxyInstance p = Some st -> Proxy.caCert st = None) ->
  forall st, Proxy.proxyInstance (fold_left act actions p) = Some st ->
             Proxy.caCert st = None.
Proof.
  revert p. induction actions as [|a actions IH]; intros p Hp; [exact Hp|].
  cbn [fold_left]. apply IH. intros st.
  destruct a as [port| |turn]; cbn.
  - intros [= <-]. reflexivity.
  - discriminate.
  - unfold Proxy.deliver. destruct (Proxy.proxyInstance p) as [st0|] eqn:E; cbn.
    + intros [= <-]. apply step_caCert, Hp. reflexivity.
    + rewrite E. discriminate.
Qed.

(** C8 (amended). [start] clears [caCert], and no handler sets it: after
    the proxy has started, [ProxyServer.getCACertPath] returns [null]
    whatever happened since, and so does [getProxyCACertPath] in every
    state of the module. The path of the root certificate is what
    [getCACertPath] of [certificate.ts] returns,
    [<home>/.devlens/certs/ca.crt]. *)
Theorem root_certificate_path_after_start (w : Certificate.World) (port : Z)
    (turns : list Proxy.Turn) (actions : list Proxy.Action) :
  Proxy.getCACertPath homedir (run (Proxy.start port (Proxy.new_ProxyServer w)) turns) = None
  /\ Proxy.getProxyCACertPath homedir (fold_left act actions (Proxy.boot w)) = None
  /\ Certificate.getCACertPath homedir = homedir +:+ "/.devlens/certs/ca.crt".
Proof.
  split; [|split].
  - unfold Proxy.getCACertPath. rewrite run_caCert; reflexivity.
  - unfold Proxy.getProxyCACertPath, Proxy.getCACertPath.
    destruct (Proxy.proxyInstance (fold_left act actions (Proxy.boot w))) as [st|] eqn:E;
      [|reflexivity].
    rewrite (process_caCert actions (Proxy.boot w)) with (st := st); [reflexivity| |exact E].
    intros st0. discriminate.
  - unfold Certificate.getCACertPath, Certificate.CA_CERT, Certificate.CERT_DIR,
      Certificate.path_join.
    rewrite !string_app_assoc. reflexivity.
Qed.

End Run.

(** C8, as stated, fails: once the proxy has started, both operations
    return [null], not a path. *)
Lemma no_certificate_path_counterexample :
  Proxy.getCACertPath Demo.home
    (Proxy.start 8080 (Proxy.new_ProxyServer Demo.empty_world)) = None
  /\ Proxy.getProxyCACertPath Demo.home
       (Proxy.startProxy 8080 (Proxy.boot Demo.empty_world)) = None.
Proof. split; reflexivity. Qed.

(** ** Exchange ids *)

Section Ids.

Variable homedir : string.
Variable run_command : string -> Certificate.FS -> option Certificate.FS.
Variable URL_parse : string -> option Proxy.URL.

Notation step := (Proxy.step homedir run_command URL_parse).
Notation run := (Proxy.run homedir run_command URL_parse).

Lemma incr_min (n : nat) :
  Js.incr (N.min (N.of_nat n) Js.MAX_EXACT) = N.min (N.of_nat (S n)) Js.MAX_EXACT.
Proof.
  unfold Js.incr. destruct (N.ltb_spec (N.min (N.of_nat n) Js.MAX_EXACT) Js.MAX_EXACT); lia.
Qed.

Lemma ids_consistent_snoc (n : N) (exs : list Proxy.Exchange) (e : Proxy.Exchange) :
  n = N.min (N.of_nat (length exs)) Js.MAX_EXACT ->
  (forall k x, exs !! k = Some x -> Proxy.exchange_id x = Proxy.nth_id k) ->
  Proxy.exchange_id e = "req_" +:+ pretty (Js.incr n) ->
  Js.incr n = N.min (N.of_nat (length (exs ++ [e]))) Js.MAX_EXACT
  /\ forall k x, (exs ++ [e]) !! k = Some x -> Proxy.exchange_id x = Proxy.nth_id k.
Proof.
  intros -> Hids He. rewrite incr_min in *. split.
  - rewrite length_app. cbn. f_equal. lia.
  - intros k x Hk. apply lookup_app_Some in Hk as [Hk|[Hlen Hk]]; [eauto|].
    apply list_lookup_singleton_Some in Hk as [Hk ->].
    rewrite He. unfold Proxy.nth_id. do 3 f_equal. lia.
Qed.

Lemma ids_consistent_insert (exs : list Proxy.Exchange) (h : nat) (e e' : Proxy.Exchange) :
  (forall k x, exs !! k = Some x -> Proxy.exchange_id x = Proxy.nth_id k) ->
  exs !! h = Some e -> Proxy.exchange_id e' = Proxy.exchange_id e ->
  forall k x, <[h := e']> exs !! k = Some x -> Proxy.exchange_id x = Proxy.nth_id k.
Proof.
  intros Hids Hh He k x Hk.
  apply list_lookup_insert_Some in Hk as [(-> & -> & _)|[_ Hk]]; [|eauto].
  rewrite He. eauto.
Qed.

Lemma step_ids_consistent (st : Proxy.ProxyServer) (t : Proxy.Turn) :
  Proxy.ids_consistent st -> Proxy.ids_consistent (step st t).
Proof.
  intros [Hn Hids]. unfold Proxy.ids_consistent.
  destruct t as [now later []]; step_cases;
    rewrite ?length_insert;
    try (split; [assumption|]);
    try assumption;
    try (eapply ids_consistent_insert; [eassumption..|reflexivity]; fail);
    try (apply ids_consistent_snoc; [assumption..|reflexivity]; fail).
Qed.

Lemma run_ids_consistent (c : option (string * string)) (w : Certificate.World)
    (turns : list Proxy.Turn) :
  Proxy.ids_consistent (run (Proxy.configured c w) turns).
Proof.
  apply (run_invariant homedir run_command URL_parse Proxy.ids_consistent).
  - intros st t. apply step_ids_consistent.
  - split; [reflexivity|]. intros k e Hk. discriminate Hk.
Qed.

(** C1 (amended). Within one [ProxyServer] instance, and as long as the
    instance has created at most [2^53] exchanges (plain HTTP, CONNECT
    or MITM child), the [k]-th exchange created, counting from 1, has
    the id [req_k]: the ids are pairwise distinct, and of two ids the
    one assigned first carries the smaller number. *)
Theorem ids_unique_and_increasing (c : option (string * string)) (w : Certificate.World)
    (turns : list Proxy.Turn) :
  (N.of_nat (length (Proxy.exchanges (run (Proxy.configured c w) turns))) <= Js.MAX_EXACT)%N ->
  let ids := Proxy.assigned_ids (run (Proxy.configured c w) turns) in
  (forall k a, ids !! k = Some a -> a = "req_" +:+ pretty (N.of_nat (S k)))
  /\ NoDup ids
  /\ (forall i j a b,
        (i < j)%nat -> ids !! i = Some a -> ids !! j = Some b ->
        exists m n : N,
          a = "req_" +:+ pretty m /\ b = "req_" +:+ pretty n /\ (m < n)%N).
Proof.
  intros Hbound ids.
  pose proof (run_ids_consistent c w turns) as [_ Hids].
  assert (Hnth : forall k a, ids !! k = Some a -> a = "req_" +:+ pretty (N.of_nat (S k))).
  { intros k a Hk. unfold ids, Proxy.assigned_ids in Hk.
    apply list_lookup_fmap_Some in Hk as (e & -> & He).
    rewrite (Hids k e He). unfold Proxy.nth_id. do 2 f_equal.
    apply lookup_lt_Some in He. lia. }
  split; [exact Hnth|]. split.
  - apply NoDup_alt. intros i j a Hi Hj.
    apply Hnth in Hi, Hj. rewrite Hi in Hj.
    apply (inj (String.app "req_")) in Hj. apply (inj pretty) in Hj. lia.
  - intros i j a b Hlt Hi Hj. exists (N.of_nat (S i)), (N.of_nat (S j)).
    split; [auto|]. split; [auto|]. lia.
Qed.

End Ids.

Lemma ids_unique_and_increasing_witness :
  (N.of_nat (length (Proxy.exchanges
     (Demo.run (Proxy.new_ProxyServer Demo.empty_world) Demo.two_exchanges)))
   <= Js.MAX_EXACT)%N
  /\ Proxy.assigned_ids
       (Demo.run (Proxy.new_ProxyServer Demo.empty_world) Demo.two_exchanges)
     = ["req_1"; "req_2"]
  /\ NoDup (Proxy.assigned_ids
              (Demo.run (Proxy.new_ProxyServer Demo.empty_world) Demo.two_exchanges)).
Proof.
  split; [vm_compute; discriminate|]. split; [vm_compute; reflexivity|].
  apply (ids_unique_and_increasing Demo.home Demo.openssl_fails Demo.URL_parse
           None Demo.empty_world Demo.two_exchanges).
  vm_compute. discriminate.
Defined.

(** C1, as stated, fails on two counts. The counter belongs to the
    instance and [startProxy] makes a new instance: in one process two
    exchanges, one before and one after a restart, both get [req_1].
    And the ids are not in lexicographic order: [req_10] sorts before
    [req_9]. *)
Lemma ids_repeat_after_restart_counterexample :
  Proxy.process_ids
    (fold_left (Proxy.act Demo.home Demo.openssl_fails Demo.URL_parse)
       Demo.restart (Proxy.boot Demo.empty_world))
  = ["req_1"; "req_1"]
  /\ ~ NoDup (Proxy.process_ids
               (fold_left (Proxy.act Demo.home Demo.openssl_fails Demo.URL_parse)
                  Demo.restart (Proxy.boot Demo.empty_world)))
  /\ String.compare (Proxy.nth_id 8) (Proxy.nth_id 9) = Gt.
Proof.
  assert (H : Proxy.process_ids
    (fold_left (Proxy.act Demo.home Demo.openssl_fails Demo.URL_parse)
       Demo.restart (Proxy.boot Demo.empty_world))
    = ["req_1"; "req_1"]) by (vm_compute; reflexivity).
  split; [exact H|]. split; [|vm_compute; reflexivity].
  rewrite H. intros Hnd. apply NoDup_cons in Hnd as [Hin _].
  apply Hin. left.
Qed.

(** ** A [request] event comes first *)

Lemma requested_snoc (l : list Proxy.Call) (c : Proxy.Call) :
  Proxy.requested (l ++ [c]) = Proxy.requested l ++ option_list (Proxy.request_id c).
Proof.
  unfold Proxy.requested. rewrite omap_app. cbn.
  destruct (Proxy.request_id c); reflexivity.
Qed.

Lemma requested_app (l l' : list Proxy.Call) :
  Proxy.requested (l ++ l') = Proxy.requested l ++ Proxy.requested l'.
Proof. apply omap_app. Qed.

Lemma request_first_snoc (l : list Proxy.Call) (c : Proxy.Call) :
  Proxy.request_first l ->
  (forall i, Proxy.completion_id c = Some i -> i ∈ Proxy.requested l) ->
  Proxy.request_first (l ++ [c]).
Proof.
  intros Hl Hc pre x post i Heq Hx.
  destruct post as [|y post _] using rev_ind.
  - apply app_inj_tail in Heq as [-> ->]. auto.
  - rewrite app_comm_cons, app_assoc in Heq.
    apply app_inj_tail in Heq as [-> _]. eapply Hl; [reflexivity|exact Hx].
Qed.

Lemma announced_snoc (l : list Proxy.Call) (c : Proxy.Call) (e : Proxy.Exchange) :
  Proxy.announced l e -> Proxy.announced (l ++ [c]) e.
Proof.
  unfold Proxy.announced. destruct e; cbn; try tauto; rewrite requested_snoc; set_solver.
Qed.

Lemma Forall_announced_snoc (l : list Proxy.Call) (c : Proxy.Call)
    (exs : list Proxy.Exchange) :
  Forall (Proxy.announced l) exs -> Forall (Proxy.announced (l ++ [c])) exs.
Proof.
  intros H. eapply Forall_impl; [exact H|]. intros e. apply announced_snoc.
Qed.

Section Ordering.

Variable homedir : string.
Variable run_command : string -> Certificate.FS -> option Certificate.FS.
Variable URL_parse : string -> option Proxy.URL.

Notation step := (Proxy.step homedir run_command URL_parse).
Notation run := (Proxy.run homedir run_command URL_parse).

Ltac ordering_step :=
  repeat match goal with
  | |- Proxy.request_first (_ ++ [_]) => apply request_first_snoc
  | |- Forall _ (<[_ := _]> _) => apply Forall_insert
  | |- Forall _ (_ ++ [_]) => apply Forall_app_2; [|apply Forall_singleton]
  | |- Forall (Proxy.announced (_ ++ [_])) _ => apply Forall_announced_snoc
  | |- forall i, _ = Some i -> _ => intros ? [= <-] || (intros ? ?; discriminate)
  end;
  try assumption.

Lemma step_ordering (st : Proxy.ProxyServer) (t : Proxy.Turn) :
  Proxy.ordering_invariant st -> Proxy.ordering_invariant (step st t).
Proof.
  intros [Hfirst Hann]. unfold Proxy.ordering_invariant.
  destruct t as [now later []]; step_cases; (split; [|]); ordering_step.
  all: try match goal with
    | H : Proxy.exchanges _ !! _ = Some _ |- _ =>
        eapply Forall_lookup_1 in H; [|exact Hann]; cbn in H
    end.
  all: unfold Proxy.announced; cbn; rewrite ?requested_snoc; cbn; try set_solver.
Qed.

Lemma run_ordering (c : option (string * string)) (w : Certificate.World)
    (turns : list Proxy.Turn) :
  Proxy.ordering_invariant (run (Proxy.configured c w) turns).
Proof.
  apply (run_invariant homedir run_command URL_parse Proxy.ordering_invariant).
  - intros st t. apply step_ordering.
  - split; [|constructor]. intros [|? ?] ? ? ? Heq; discriminate Heq.
Qed.

(** C2. In every run of a proxy, with or without a CA certificate, each
    [response] event and each [error] event comes after a [request]
    event that bears the same id: this holds of the plain HTTP handler,
    of the CONNECT handlers and of the exchanges of a MITM session. *)
Theorem request_precedes_completion (c : option (string * string))
    (w : Certificate.World) (turns : list Proxy.Turn)
    (pre post : list Proxy.Call) (x : Proxy.Call) (i : string) :
  Proxy.calls (run (Proxy.configured c w) turns) = pre ++ x :: post ->
  Proxy.completion_id x = Some i ->
  exists request, In (Proxy.Emit_request request) pre /\ Proxy.id request = i.
Proof.
  intros Hcalls Hx.
  destruct (run_ordering c w turns) as [Hfirst _].
  specialize (Hfirst pre x post i Hcalls Hx).
  unfold Proxy.requested in Hfirst.
  apply list_elem_of_omap in Hfirst as (call & Hin & Hid).
  destruct call; try discriminate Hid. injection Hid as <-.
  exists request. split; [|reflexivity].
  apply list_elem_of_In, Hin.
Qed.

End Ordering.

Lemma request_precedes_completion_witness :
  exists request,
    In (Proxy.Emit_request request)
       (take 6 (Proxy.calls (Demo.run (Proxy.new_ProxyServer Demo.empty_world)
                               Demo.two_exchanges)))
    /\ Proxy.id request = "req_1".
Proof.
  apply (request_precedes_completion Demo.home Demo.openssl_fails Demo.URL_parse
           None Demo.empty_world Demo.two_exchanges _
           (drop 7 (Proxy.calls (Demo.run (Proxy.new_ProxyServer Demo.empty_world)
                                   Demo.two_exchanges)))
           (Proxy.Emit_response
              {| Proxy.id := "req_1"; Proxy.method := "CONNECT";
                 Proxy.url := "https://example.com:443"; Proxy.headers := [];
                 Proxy.body := None; Proxy.timestamp := 100;
                 Proxy.response :=
                   Some {| Proxy.status := 200;
                           Proxy.statusText := "Connection Established (Tunnel)";
                           Proxy.response_headers := []; Proxy.response_body := None;
                           Proxy.duration := 30 |} |})).
  - vm_compute. reflexivity.
  - reflexivity.
Defined.

(** ** The reply to CONNECT *)

Lemma client_writes_snoc (h : Proxy.handle) (l : list Proxy.Call) (c : Proxy.Call) :
  Proxy.client_writes h (l ++ [c])
  = Proxy.client_writes h l ++ option_list (Proxy.client_write h c).
Proof.
  unfold Proxy.client_writes. rewrite omap_app. cbn.
  destruct (Proxy.client_write h c); reflexivity.
Qed.

Lemma reply_first_snoc (h : Proxy.handle) (l : list Proxy.Call) (c : Proxy.Call) :
  Proxy.reply_first h l ->
  (Proxy.relays h c = true ->
   Proxy.client_writes h l = [Proxy.CONNECTION_ESTABLISHED]) ->
  Proxy.reply_first h (l ++ [c]).
Proof.
  intros Hl Hc pre x post Heq Hx.
  destruct post as [|y post _] using rev_ind.
  - apply app_inj_tail in Heq as [-> ->]. auto.
  - rewrite app_comm_cons, app_assoc in Heq.
    apply app_inj_tail in Heq as [-> _]. eapply Hl; [reflexivity|exact Hx].
Qed.

Lemma quiet_snoc (h : Proxy.handle) (l : list Proxy.Call) (c : Proxy.Call) :
  Proxy.quiet h l -> Proxy.client_write h c = None -> Proxy.relays h c = false ->
  Proxy.quiet h (l ++ [c]).
Proof.
  intros [Hw Hr] Hc Hrc. split.
  - rewrite client_writes_snoc, Hw, Hc. reflexivity.
  - apply Forall_app_2; [exact Hr|]. apply Forall_singleton, Hrc.
Qed.

Lemma quiet_reply_first (h : Proxy.handle) (l : list Proxy.Call) :
  Proxy.quiet h l -> Proxy.reply_first h l.
Proof.
  intros [_ Hr] pre c post -> Hc.
  apply Forall_app in Hr as [_ Hr]. apply Forall_cons in Hr as [Hr _]. congruence.
Qed.

Ltac lookup_other h h0 :=
  rewrite (list_lookup_insert_ne _ h0 h) in * by congruence.

Ltac tunnel_calls :=
  repeat first
    [ assumption
    | match goal with |- Proxy.quiet _ (_ ++ [_]) => apply quiet_snoc end
    | match goal with |- Proxy.reply_first _ (_ ++ [_]) => apply reply_first_snoc end
    | rewrite client_writes_snoc
    | progress cbn [Proxy.client_write Proxy.relays option_list app]
    | rewrite decide_False by congruence
    | rewrite decide_True by congruence
    | rewrite bool_decide_eq_false_2 by congruence
    | rewrite bool_decide_eq_true_2 by congruence
    | rewrite app_nil_r
    | match goal with Hw : Proxy.client_writes _ _ = _ |- _ => rewrite Hw end
    | reflexivity
    | discriminate
    | let Hr := fresh in intros Hr; first [discriminate Hr | clear Hr] ].

Ltac tunnel_goal :=
  try match goal with H : Proxy.quiet _ _ |- _ => pose proof H as [? ?] end;
  try match goal with H : _ \/ _ |- _ => destruct H end;
  (split;
   [ tunnel_calls
   | first [ solve [tunnel_calls]
           | left; solve [tunnel_calls]
           | right; solve [tunnel_calls] ] ]).

Ltac at_handle h :=
  match goal with
  | He : Proxy.exchanges ?st !! ?h0 = Some _ |- _ =>
      destruct (decide (h0 = h)) as [->|Hne];
      [ rewrite ?He in *;
        rewrite ?list_lookup_insert_eq by (eapply lookup_lt_Some; eassumption)
      | rewrite ?list_lookup_insert_ne by congruence ]
  | _ => idtac
  end.

Ltac at_new_handle h :=
  match goal with
  | |- context [(?exs ++ [?e]) !! h] =>
      destruct (decide (h < length exs)%nat);
      [ rewrite (lookup_app_l exs [e] h) by assumption
      | destruct (decide (h = length exs)) as [Hlast|];
        [ rewrite (list_lookup_middle exs [] e h Hlast);
          rewrite (lookup_ge_None_2 exs h) in * by lia
        | rewrite (lookup_ge_None_2 (exs ++ [e]) h) by (rewrite length_app; cbn; lia);
          rewrite (lookup_ge_None_2 exs h) in * by lia ] ]
  | _ => idtac
  end.

Section Tunnel.

Variable homedir : string.
Variable run_command : string -> Certificate.FS -> option Certificate.FS.
Variable URL_parse : string -> option Proxy.URL.

Notation step := (Proxy.step homedir run_command URL_parse).
Notation run := (Proxy.run homedir run_command URL_parse).

Lemma step_tunnel_invariant (h : Proxy.handle) (st : Proxy.ProxyServer) (t : Proxy.Turn) :
  Proxy.tunnel_invariant h st -> Proxy.tunnel_invariant h (step st t).
Proof.
  intros Hinv.
  destruct t as [now later []]; step_cases.
  all: destruct Hinv as (Hca & Hfirst & Hcell); try congruence.
  all: unfold Proxy.tunnel_invariant; simplify_eq/=.
  all: (split; [reflexivity || assumption|]).
  all: try (split; assumption).
  all: at_handle h; at_new_handle h.
  all: repeat case_match; simplify_eq.
  all: try (tunnel_goal; fail).
Qed.

Lemma step_dial_failed (h : Proxy.handle) (st : Proxy.ProxyServer) (t : Proxy.Turn) :
  Proxy.dial_failed h st -> Proxy.dial_failed h (step st t).
Proof.
  intros Hinv.
  destruct t as [now later []]; step_cases.
  all: destruct Hinv as ((request' & head' & Hcell) & Hquiet); try congruence.
  all: unfold Proxy.dial_failed; simplify_eq/=.
  all: try (split; [eauto|assumption]; fail).
  all: at_handle h; simplify_eq.
  all: split;
    [ rewrite ?list_lookup_insert_ne by congruence;
      try (rewrite lookup_app_l by (eapply lookup_lt_Some; eassumption)); eauto
    | tunnel_calls ].
  all: apply lookup_lt_Some in Hcell; rewrite decide_False by lia; reflexivity.
Qed.

Lemma run_tunnel_invariant (h : Proxy.handle) (w : Certificate.World)
    (turns : list Proxy.Turn) :
  Proxy.tunnel_invariant h (run (Proxy.new_ProxyServer w) turns).
Proof.
  apply (run_invariant homedir run_command URL_parse (Proxy.tunnel_invariant h)).
  - intros st t. apply step_tunnel_invariant.
  - split; [reflexivity|]. split.
    + intros [|? ?] ? ? Heq; discriminate Heq.
    + split; [reflexivity|constructor].
Qed.

Lemma tunnel_invariant_writes (h : Proxy.handle) (st : Proxy.ProxyServer) :
  Proxy.tunnel_invariant h st ->
  Proxy.client_writes h (Proxy.calls st) = []
  \/ Proxy.client_writes h (Proxy.calls st) = [Proxy.CONNECTION_ESTABLISHED].
Proof.
  intros (_ & _ & Hcell).
  destruct (Proxy.exchanges st !! h) as [[| | |? ? []| |]|];
    try (left; apply Hcell); try (right; apply Hcell); exact Hcell.
Qed.

(** C3 (amended). In every run of a started or unstarted proxy (the
    proxy is in tunnel mode): on a CONNECT request whose port is one
    [net.connect] accepts, 0 to 65535, the handler emits [request] and
    dials the upstream, and writes nothing to the client socket. The
    proxy writes to the client socket of a CONNECT exchange at most
    once, and what it writes is the [200 Connection Established] reply;
    the head bytes are written upstream and the two sockets are piped
    only after that reply. While the upstream is being dialled nothing
    has been written or relayed. When the upstream connects, the
    handler writes the reply, then the head bytes, then pipes the
    sockets, then emits [response]. When the dial fails, the handler
    emits [error] and ends the client socket, and the reply is never
    written. *)
Theorem connect_reply_follows_upstream_connect (w : Certificate.World)
    (turns : list Proxy.Turn) (h : Proxy.handle) :
  let st := run (Proxy.new_ProxyServer w) turns in
  (forall t url headers head,
     Proxy.event t = Proxy.On_connect url headers head ->
     Proxy.uncaught st = None ->
     Proxy.valid_port (Proxy.connect_target url).2 = true ->
     exists request,
       Proxy.calls (step st t)
       = Proxy.calls st
         ++ [Proxy.Emit_request request;
             Proxy.Net_connect (length (Proxy.exchanges st))
               (Proxy.connect_target url).2 (Proxy.connect_target url).1]
       /\ Proxy.exchanges (step st t)
          = Proxy.exchanges st ++ [Proxy.Tunnel request head Proxy.Dialing]
       /\ Proxy.uncaught (step st t) = None)
  /\ (Proxy.client_writes h (Proxy.calls st) = []
      \/ Proxy.client_writes h (Proxy.calls st) = [Proxy.CONNECTION_ESTABLISHED])
  /\ Proxy.reply_first h (Proxy.calls st)
  /\ forall request head,
       Proxy.exchanges st !! h = Some (Proxy.Tunnel request head Proxy.Dialing) ->
       Proxy.uncaught st = None ->
       Proxy.quiet h (Proxy.calls st)
       /\ (forall t,
             Proxy.event t = Proxy.On_serverSocket_connect h ->
             exists completed,
               Proxy.calls (step st t)
               = Proxy.calls st
                 ++ [Proxy.ClientSocket_write h Proxy.CONNECTION_ESTABLISHED;
                     Proxy.ServerSocket_write h head;
                     Proxy.ServerSocket_pipe_clientSocket h;
                     Proxy.ClientSocket_pipe_serverSocket h;
                     Proxy.Emit_response completed])
       /\ (forall t message turns',
             Proxy.event t = Proxy.On_serverSocket_error h message ->
             Proxy.calls (step st t)
             = Proxy.calls st
               ++ [Proxy.Emit_error (Proxy.id request) message; Proxy.ClientSocket_end h]
             /\ Proxy.client_writes h (Proxy.calls (run (step st t) turns')) = []).
Proof.
  intros st.
  pose proof (run_tunnel_invariant h w turns) as Hinv.
  fold st in Hinv.
  split.
  { destruct Hinv as (Hca & _).
    intros [now later ev] url headers head Hev Hun Hport. cbn in Hev. subst ev.
    unfold Proxy.step. rewrite Hun. cbn [Proxy.event Proxy.now Proxy.later].
    unfold Proxy.handleConnect, Proxy.next_id.
    destruct (Proxy.connect_target url) as [hostname targetPort]. cbn [fst snd] in *.
    cbn [Proxy.call Proxy.caCert]. rewrite Hca.
    unfold Proxy.handleHttpsTunnel. rewrite Hport.
    eexists. cbn. rewrite <- app_assoc. split; [reflexivity|].
    split; [reflexivity|exact Hun]. }
  split; [apply tunnel_invariant_writes, Hinv|].
  destruct Hinv as (_ & Hfirst & Hcell). split; [exact Hfirst|].
  intros request head Hh Hun. rewrite Hh in Hcell. split; [exact Hcell|]. split.
  - intros [now later ev] Hev. cbn in Hev. subst ev.
    unfold Proxy.step, Proxy.serverSocket_connect. rewrite Hun. cbn. rewrite Hh. cbn.
    eexists. rewrite <- !app_assoc. reflexivity.
  - intros [now later ev] message turns' Hev. cbn in Hev. subst ev.
    assert (Hstep : Proxy.calls (step st (Proxy.Build_Turn now later
                                            (Proxy.On_serverSocket_error h message)))
                    = Proxy.calls st
                      ++ [Proxy.Emit_error (Proxy.id request) message;
                          Proxy.ClientSocket_end h]
                    /\ Proxy.dial_failed h
                         (step st (Proxy.Build_Turn now later
                                     (Proxy.On_serverSocket_error h message)))).
    { unfold Proxy.dial_failed, Proxy.step, Proxy.serverSocket_error. rewrite Hun.
      cbn [Proxy.event]. rewrite Hh.
      cbn [Proxy.calls Proxy.call Proxy.set_exchange Proxy.exchanges].
      split; [rewrite <- !app_assoc; reflexivity|].
      split.
      - exists request, head. apply list_lookup_insert_eq.
        eapply lookup_lt_Some, Hh.
      - destruct Hcell as [Hw _]. rewrite !client_writes_snoc, Hw. cbn.
        reflexivity. }
    destruct Hstep as [Hcalls Hfailed]. split; [exact Hcalls|].
    apply (run_invariant homedir run_command URL_parse (Proxy.dial_failed h)
             (fun st0 t0 => step_dial_failed h st0 t0) turns')
      in Hfailed.
    apply Hfailed.
Qed.

End Tunnel.

Lemma connect_reply_follows_upstream_connect_witness :
  Proxy.valid_port (Proxy.connect_target (Some "example.com:443")).2 = true
  /\ (exists request,
        Proxy.calls
          (Proxy.step Demo.home Demo.openssl_fails Demo.URL_parse
             (Proxy.run Demo.home Demo.openssl_fails Demo.URL_parse
                (Proxy.new_ProxyServer Demo.empty_world) [])
             (Demo.turn 100 (Proxy.On_connect (Some "example.com:443") [] "hello")))
        = Proxy.calls (Proxy.run Demo.home Demo.openssl_fails Demo.URL_parse
                         (Proxy.new_ProxyServer Demo.empty_world) [])
          ++ [Proxy.Emit_request request; Proxy.Net_connect 0 443 "example.com"])
  /\ Proxy.exchanges (Demo.run (Proxy.new_ProxyServer Demo.empty_world) Demo.connect_only)
       !! 0%nat
     = Some (Proxy.Tunnel
               {| Proxy.id := "req_1"; Proxy.method := "CONNECT";
                  Proxy.url := "https://example.com:443"; Proxy.headers := [];
                  Proxy.body := None; Proxy.timestamp := 100; Proxy.response := None |}
               "hello" Proxy.Dialing)
  /\ exists completed,
       Proxy.calls
         (Proxy.step Demo.home Demo.openssl_fails Demo.URL_parse
            (Demo.run (Proxy.new_ProxyServer Demo.empty_world) Demo.connect_only)
            (Demo.turn 130 (Proxy.On_serverSocket_connect 0%nat)))
       = Proxy.calls (Demo.run (Proxy.new_ProxyServer Demo.empty_world) Demo.connect_only)
         ++ [Proxy.ClientSocket_write 0%nat Proxy.CONNECTION_ESTABLISHED;
             Proxy.ServerSocket_write 0%nat "hello";
             Proxy.ServerSocket_pipe_clientSocket 0%nat;
             Proxy.ClientSocket_pipe_serverSocket 0%nat;
             Proxy.Emit_response completed].
Proof.
  assert (Hport : Proxy.valid_port (Proxy.connect_target (Some "example.com:443")).2 = true)
    by (vm_compute; reflexivity).
  split; [exact Hport|]. split.
  - pose proof (connect_reply_follows_upstream_connect Demo.home Demo.openssl_fails
                  Demo.URL_parse Demo.empty_world [] 0%nat) as (Hdial & _).
    destruct (Hdial (Demo.turn 100 (Proxy.On_connect (Some "example.com:443") [] "hello"))
                (Some "example.com:443") [] "hello" eq_refl eq_refl Hport)
      as (request & Hcalls & _).
    exists request. exact Hcalls.
  - split; [vm_compute; reflexivity|].
    pose proof (connect_reply_follows_upstream_connect Demo.home Demo.openssl_fails
                  Demo.URL_parse Demo.empty_world Demo.connect_only 0%nat)
      as (_ & _ & _ & H).
    destruct (H _ "hello" ltac:(vm_compute; reflexivity) eq_refl) as (_ & Hconnect & _).
    apply Hconnect. reflexivity.
Defined.

(** C3, as stated, fails: on receipt of CONNECT the proxy writes
    nothing to the client socket, and when the upstream refuses the
    connection it ends the client socket without ever writing the
    [200 Connection Established] reply. *)
Lemma connect_without_reply_counterexample :
  Proxy.client_writes 0
    (Proxy.calls (Demo.run (Proxy.new_ProxyServer Demo.empty_world) Demo.connect_only))
  = []
  /\ Proxy.client_writes 0
       (Proxy.calls (Demo.run (Proxy.new_ProxyServer Demo.empty_world) Demo.dial_fails))
     = []
  /\ In (Proxy.ClientSocket_end 0)
       (Proxy.calls (Demo.run (Proxy.new_ProxyServer Demo.empty_world) Demo.dial_fails)).
Proof.
  split; [vm_compute; reflexivity|]. split; [vm_compute; reflexivity|].
  vm_compute. auto 10.
Qed.

(** ** Finished exchanges, and the [response] field *)

Section Exchanges.

Variable homedir : string.
Variable run_command : string -> Certificate.FS -> option Certificate.FS.
Variable URL_parse : string -> option Proxy.URL.

Notation step := (Proxy.step homedir run_command URL_parse).
Notation run := (Proxy.run homedir run_command URL_parse).

(** A closed exchange stays as it is. *)
Lemma step_closed (h : Proxy.handle) (e : Proxy.Exchange) (st : Proxy.ProxyServer)
    (t : Proxy.Turn) :
  Proxy.exchanges st !! h = Some e -> Proxy.closed e = true ->
  Proxy.exchanges (step st t) !! h = Some e.
Proof.
  intros He Hclosed.
  destruct t as [now later []]; step_cases; try assumption.
  all: try (rewrite lookup_app_l by (eapply lookup_lt_Some; eassumption); assumption).
  all: match goal with
       | H : Proxy.exchanges _ !! ?h0 = Some _, _ : Proxy.uncaught _ = None |- _ =>
           destruct (decide (h0 = h)) as [->|Hne];
           [ rewrite H in He; simplify_eq; discriminate Hclosed
           | rewrite list_lookup_insert_ne by congruence; assumption ]
       end.
Qed.

Lemma run_closed (h : Proxy.handle) (e : Proxy.Exchange) (st : Proxy.ProxyServer)
    (turns : list Proxy.Turn) :
  Proxy.exchanges st !! h = Some e -> Proxy.closed e = true ->
  Proxy.exchanges (run st turns) !! h = Some e.
Proof.
  intros He Hclosed.
  apply (run_invariant homedir run_command URL_parse
           (fun st => Proxy.exchanges st !! h = Some e)); [|exact He].
  intros st0 t H0. apply step_closed; assumption.
Qed.

Lemma step_response_sound (st : Proxy.ProxyServer) (t : Proxy.Turn) :
  Forall Proxy.response_sound (Proxy.exchanges st) ->
  Forall Proxy.response_sound (Proxy.exchanges (step st t)).
Proof.
  intros Hall.
  destruct t as [now later []]; step_cases; try assumption.
  all: repeat match goal with
       | |- Forall _ (<[_ := _]> _) => apply Forall_insert
       | |- Forall _ (_ ++ [_]) => apply Forall_app_2; [|apply Forall_singleton]
       end; try assumption.
  all: try match goal with
       | H : Proxy.exchanges _ !! _ = Some _ |- _ =>
           eapply Forall_lookup_1 in H; [|exact Hall]; cbn in H
       end.
  all: cbn; eauto.
Qed.

Lemma run_response_sound (c : option (string * string)) (w : Certificate.World)
    (turns : list Proxy.Turn) :
  Forall Proxy.response_sound (Proxy.exchanges (run (Proxy.configured c w) turns)).
Proof.
  apply (run_invariant homedir run_command URL_parse
           (fun st => Forall Proxy.response_sound (Proxy.exchanges st))).
  - intros st t. apply step_response_sound.
  - constructor.
Qed.

End Exchanges.

(** ** The [error] events of an exchange *)

Lemma errors_snoc (l : list Proxy.Call) (c : Proxy.Call) :
  Proxy.errors (l ++ [c]) = Proxy.errors l ++ option_list (Proxy.error_id c).
Proof.
  unfold Proxy.errors. rewrite omap_app. cbn.
  destruct (Proxy.error_id c); reflexivity.
Qed.

Lemma error_count_snoc (i j : string) (l : list string) :
  length (filter (fun k => k = i) (l ++ [j]))
  = (length (filter (fun k => k = i) l) + if decide (j = i) then 1 else 0)%nat.
Proof.
  rewrite filter_app, length_app. f_equal.
  rewrite filter_cons, filter_nil. destruct (decide (j = i)); reflexivity.
Qed.

Section Errors.

Variable homedir : string.
Variable run_command : string -> Certificate.FS -> option Certificate.FS.
Variable URL_parse : string -> option Proxy.URL.

Notation step := (Proxy.step homedir run_command URL_parse).
Notation run := (Proxy.run homedir run_command URL_parse).

Ltac errors_eq :=
  unfold Proxy.errors; rewrite ?omap_app; cbn; rewrite ?app_nil_r; reflexivity.

(** How one turn changes the exchanges and the [error] events: either
    no [error] event is emitted, and the exchanges are as before, or one
    of them is updated, or a new one is added; or one [error] event is
    emitted, for an exchange that had caused none. *)
Lemma step_errors_shape (st : Proxy.ProxyServer) (t : Proxy.Turn) :
  (Proxy.errors (Proxy.calls (step st t)) = Proxy.errors (Proxy.calls st)
   /\ (Proxy.exchanges (step st t) = Proxy.exchanges st
       \/ (exists h e e',
             Proxy.exchanges st !! h = Some e
             /\ Proxy.exchanges (step st t) = <[h := e']> (Proxy.exchanges st)
             /\ Proxy.exchange_id e' = Proxy.exchange_id e
             /\ Proxy.errors_of e' = Proxy.errors_of e)
       \/ (exists e,
             Proxy.exchanges (step st t) = Proxy.exchanges st ++ [e]
             /\ Proxy.errors_of e = 0%nat)))
  \/ (exists h e e',
        Proxy.exchanges st !! h = Some e
        /\ Proxy.exchanges (step st t) = <[h := e']> (Proxy.exchanges st)
        /\ Proxy.exchange_id e' = Proxy.exchange_id e
        /\ Proxy.errors_of e = 0%nat /\ Proxy.errors_of e' = 1%nat
        /\ Proxy.errors (Proxy.calls (step st t))
           = Proxy.errors (Proxy.calls st) ++ [Proxy.exchange_id e]).
Proof.
  destruct t as [now later []]; step_cases.
  all: first
    [ left; split; [errors_eq|];
      first
        [ left; reflexivity
        | right; left; eexists _, _, _; split_and!; [eassumption|reflexivity..]
        | right; right; eexists; split_and!; reflexivity ]
    | right; eexists _, _, _; split_and!; [eassumption|reflexivity..|errors_eq] ].
Qed.

Lemma ids_injective (st : Proxy.ProxyServer) (h h' : Proxy.handle)
    (e e' : Proxy.Exchange) :
  Proxy.ids_consistent st ->
  (N.of_nat (length (Proxy.exchanges st)) <= Js.MAX_EXACT)%N ->
  Proxy.exchanges st !! h = Some e -> Proxy.exchanges st !! h' = Some e' ->
  Proxy.exchange_id e = Proxy.exchange_id e' -> h = h'.
Proof.
  intros [_ Hids] Hbound He He' Heq.
  rewrite (Hids h e He), (Hids h' e' He') in Heq. unfold Proxy.nth_id in Heq.
  apply (inj (String.app "req_")) in Heq. apply (inj pretty) in Heq.
  apply lookup_lt_Some in He, He'. lia.
Qed.

Lemma filter_absent (i : string) (l : list string) :
  i ∉ l -> length (filter (fun k => k = i) l) = 0%nat.
Proof.
  induction l as [|j l IH]; intros Hnot; [reflexivity|].
  rewrite filter_cons. destruct (decide (j = i)) as [->|]; [set_solver|].
  apply IH. set_solver.
Qed.

Lemma step_errors_invariant (st : Proxy.ProxyServer) (t : Proxy.Turn) :
  Proxy.ids_consistent st -> Proxy.ids_consistent (step st t) ->
  Proxy.errors_invariant st -> Proxy.errors_invariant (step st t).
Proof.
  intros Hids Hids' Hinv Hbound'.
  unfold Proxy.errors_invariant, Proxy.error_count in *.
  destruct (step_errors_shape st t)
    as [[Herr [Hexs|[(h & e & e' & He & Hexs & Hid & Hof)|(e & Hexs & Hof)]]]
       |(h & e & e' & He & Hexs & Hid & Hof & Hof' & Herr)].
  - rewrite Herr, Hexs in *. apply Hinv, Hbound'.
  - rewrite Hexs, length_insert in Hbound'. destruct (Hinv Hbound') as [Hmem Hcnt].
    rewrite Herr, Hexs. split.
    + intros i Hi. rewrite list_fmap_insert, Hid.
      rewrite list_insert_id; [apply Hmem, Hi|].
      rewrite list_lookup_fmap, He. reflexivity.
    + intros h0 e0 H0.
      apply list_lookup_insert_Some in H0 as [(-> & -> & _)|[_ H0]]; [|eauto].
      rewrite Hid, Hof. eauto.
  - pose proof Hbound' as Hbound. rewrite Hexs, length_app in Hbound. cbn in Hbound.
    destruct Hinv as [Hmem Hcnt]; [lia|]. rewrite Herr, Hexs. split.
    + intros i Hi. rewrite fmap_app. apply elem_of_app. left. apply Hmem, Hi.
    + intros h0 e0 H0. apply lookup_app_Some in H0 as [H0|[Hlen H0]]; [eauto|].
      apply list_lookup_singleton_Some in H0 as [Hh0 <-]. rewrite Hof.
      apply filter_absent. intros Hin. apply Hmem in Hin.
      apply list_elem_of_fmap in Hin as (e1 & Heq & Hin).
      apply list_elem_of_lookup in Hin as [k Hk].
      assert (k = length (Proxy.exchanges st)) as ->.
      { apply (ids_injective (step st t) _ _ e1 e Hids' Hbound').
        - rewrite Hexs. apply lookup_app_l_Some, Hk.
        - rewrite Hexs. apply list_lookup_middle. reflexivity.
        - congruence. }
      apply lookup_lt_Some in Hk. lia.
  - rewrite Hexs, length_insert in Hbound'. destruct (Hinv Hbound') as [Hmem Hcnt].
    rewrite Herr, Hexs. split.
    + intros i Hi. rewrite list_fmap_insert, Hid.
      rewrite list_insert_id by (rewrite list_lookup_fmap, He; reflexivity).
      apply elem_of_app in Hi as [Hi|Hi]; [apply Hmem, Hi|].
      apply list_elem_of_singleton in Hi as ->.
      apply list_elem_of_fmap. exists e. split; [reflexivity|].
      eapply list_elem_of_lookup_2, He.
    + intros h0 e0 H0. rewrite error_count_snoc.
      apply list_lookup_insert_Some in H0 as [(<- & <- & _)|[Hne H0]].
      * rewrite Hid, Hof'. rewrite decide_True by reflexivity.
        rewrite (Hcnt h e He), Hof. reflexivity.
      * rewrite decide_False.
        -- pose proof (Hcnt h0 e0 H0) as Hc. lia.
        -- intros Heq. apply Hne.
           apply (ids_injective st h h0 e e0 Hids Hbound' He H0 Heq).
Qed.

Lemma run_errors_invariant (c : option (string * string)) (w : Certificate.World)
    (turns : list Proxy.Turn) :
  Proxy.errors_invariant (run (Proxy.configured c w) turns).
Proof.
  cut (Proxy.ids_consistent (run (Proxy.configured c w) turns)
       /\ Proxy.errors_invariant (run (Proxy.configured c w) turns)); [tauto|].
  apply (run_invariant homedir run_command URL_parse
           (fun st => Proxy.ids_consistent st /\ Proxy.errors_invariant st)).
  - intros st t [Hids Hinv].
    pose proof (step_ids_consistent homedir run_command URL_parse st t Hids) as Hids'.
    split; [exact Hids'|]. apply step_errors_invariant; assumption.
  - split.
    + split; [reflexivity|]. intros k e Hk. discriminate Hk.
    + intros _. split.
      * intros i Hi. cbn in Hi. set_solver.
      * intros h e He. discriminate He.
Qed.

End Errors.

(** ** What is sent upstream *)

Section Forwarding.

Variable homedir : string.
Variable run_command : string -> Certificate.FS -> option Certificate.FS.
Variable URL_parse : string -> option Proxy.URL.

Notation step := (Proxy.step homedir run_command URL_parse).
Notation run := (Proxy.run homedir run_command URL_parse).

Ltac not_forwarded :=
  repeat match goal with
  | |- Forall _ (_ ++ [_]) => apply Forall_app_2; [|apply Forall_singleton]
  end;
  try assumption;
  cbn [Proxy.forwards];
  try reflexivity;
  try (apply bool_decide_eq_false_2; first [congruence | lia]).

Lemma step_rejected (h : Proxy.handle) (request : Proxy.NetworkRequest)
    (st : Proxy.ProxyServer) (t : Proxy.Turn) :
  Proxy.rejected h request st -> Proxy.rejected h request (step st t).
Proof.
  intros [Hcell Hcalls]. split; [apply step_closed; [exact Hcell|reflexivity]|].
  pose proof (lookup_lt_Some _ _ _ Hcell) as Hlt.
  destruct t as [now later []]; step_cases; try assumption.
  all: try match goal with
       | H : Proxy.exchanges _ !! ?h0 = Some _, _ : Proxy.uncaught _ = None |- _ =>
           assert (h0 <> h) by (intros ->; rewrite H in Hcell; discriminate Hcell)
       end.
  all: not_forwarded.
Qed.

Lemma step_unforwarded (h : Proxy.handle) (st : Proxy.ProxyServer) (t : Proxy.Turn) :
  Proxy.unforwarded_invariant h st -> Proxy.unforwarded_invariant h (step st t).
Proof.
  intros Hinv.
  destruct t as [now later []]; step_cases.
  all: unfold Proxy.unforwarded_invariant in *; simplify_eq/=.
  all: try assumption.
  all: at_handle h; at_new_handle h.
  all: repeat case_match; simplify_eq.
  all: try exact I.
  all: not_forwarded.
Qed.

Lemma run_unforwarded (h : Proxy.handle) (c : option (string * string))
    (w : Certificate.World) (turns : list Proxy.Turn) :
  Proxy.unforwarded_invariant h (run (Proxy.configured c w) turns).
Proof.
  apply (run_invariant homedir run_command URL_parse (Proxy.unforwarded_invariant h)).
  - intros st t. apply step_unforwarded.
  - constructor.
Qed.

End Forwarding.

(** ** Plain HTTP: upstream failure and malformed URL *)

Section PlainHttp.

Variable homedir : string.
Variable run_command : string -> Certificate.FS -> option Certificate.FS.
Variable URL_parse : string -> option Proxy.URL.

Notation step := (Proxy.step homedir run_command URL_parse).
Notation run := (Proxy.run homedir run_command URL_parse).

(** X23. When the upstream request of a plain HTTP exchange fails
    before the head of the upstream response has arrived, the handler
    emits one [error] event with the id of the exchange and the failure
    message, replies 502 with the body [Proxy Error], and no exception
    leaves it. The [response] field of the exchange is unset and stays
    unset, and as long as the instance has created at most [2^53]
    exchanges that [error] event is the only one with this id. *)
Theorem upstream_failure_before_response (c : option (string * string))
    (w : Certificate.World) (turns turns' : list Proxy.Turn) (t : Proxy.Turn)
    (h : Proxy.handle) (request : Proxy.NetworkRequest) (startTime : Z)
    (message : string) :
  Proxy.exchanges (run (Proxy.configured c w) turns) !! h
    = Some (Proxy.HttpForwarded request startTime Proxy.Awaiting) ->
  Proxy.uncaught (run (Proxy.configured c w) turns) = None ->
  Proxy.event t = Proxy.On_proxyReq_error h message ->
  let st := run (Proxy.configured c w) turns in
  let st' := run (step st t) turns' in
  Proxy.calls (step st t)
  = Proxy.calls st
    ++ [Proxy.Emit_error (Proxy.id request) message;
        Proxy.ClientRes_writeHead h 502 [];
        Proxy.ClientRes_end h "Proxy Error"]
  /\ Proxy.uncaught (step st t) = None
  /\ Proxy.response request = None
  /\ Proxy.exchanges st' !! h = Some (Proxy.HttpForwarded request startTime Proxy.Errored)
  /\ ((N.of_nat (length (Proxy.exchanges st')) <= Js.MAX_EXACT)%N ->
      Proxy.error_count (Proxy.id request) (Proxy.calls st') = 1%nat).
Proof.
  intros Hh Hun Hev st st'. destruct t as [now later ev]. cbn in Hev. subst ev.
  assert (Hstep : step st (Proxy.Build_Turn now later (Proxy.On_proxyReq_error h message))
                  = Proxy.set_exchange h (Proxy.HttpForwarded request startTime Proxy.Errored)
                      (Proxy.call (Proxy.ClientRes_end h "Proxy Error")
                         (Proxy.call (Proxy.ClientRes_writeHead h 502 [])
                            (Proxy.call (Proxy.Emit_error (Proxy.id request) message) st)))).
  { unfold Proxy.step, Proxy.proxyReq_error, st. rewrite Hun.
    cbn [Proxy.event]. rewrite Hh. reflexivity. }
  assert (Hcell : Proxy.exchanges st' !! h
                  = Some (Proxy.HttpForwarded request startTime Proxy.Errored)).
  { apply run_closed; [|reflexivity]. rewrite Hstep. cbn.
    apply list_lookup_insert_eq. eapply lookup_lt_Some, Hh. }
  split; [rewrite Hstep; cbn; rewrite <- !app_assoc; reflexivity|].
  split; [rewrite Hstep; exact Hun|].
  split.
  { pose proof (run_response_sound homedir run_command URL_parse c w turns) as Hsound.
    eapply Forall_lookup_1 in Hsound; [|exact Hh]. exact Hsound. }
  split; [exact Hcell|].
  intros Hbound.
  pose proof (run_errors_invariant homedir run_command URL_parse c w
                (turns ++ Proxy.Build_Turn now later (Proxy.On_proxyReq_error h message)
                   :: turns')) as Hinv.
  unfold Proxy.run in Hinv. rewrite fold_left_app in Hinv. cbn [fold_left] in Hinv.
  destruct (Hinv Hbound) as [_ Hcount].
  apply (Hcount h _ Hcell).
Qed.

(** C7. When the URL of a plain HTTP request cannot be parsed, the
    handler emits the [request] event of the exchange, replies 400 with
    the body [Invalid URL], and does no more. From then on the exchange
    stays as it is, with no [response], and nothing is ever sent
    upstream for it. *)
Theorem malformed_url_rejected (c : option (string * string))
    (w : Certificate.World) (turns turns' : list Proxy.Turn) (t : Proxy.Turn)
    (h : Proxy.handle) (id : string) (startTime : Z) (url : string)
    (method : option string) (headers : Proxy.Headers) (body : string) :
  Proxy.exchanges (run (Proxy.configured c w) turns) !! h
    = Some (Proxy.HttpReading id startTime url method headers body) ->
  Proxy.uncaught (run (Proxy.configured c w) turns) = None ->
  URL_parse url = None ->
  Proxy.event t = Proxy.On_clientReq_end h ->
  let st := run (Proxy.configured c w) turns in
  let request :=
    {| Proxy.id := id; Proxy.method := Js.string_or method "GET"; Proxy.url := url;
       Proxy.headers := headers; Proxy.body := Js.string_or_undefined body;
       Proxy.timestamp := startTime; Proxy.response := None |} in
  Proxy.calls (step st t)
  = Proxy.calls st
    ++ [Proxy.Emit_request request;
        Proxy.ClientRes_writeHead h 400 [];
        Proxy.ClientRes_end h "Invalid URL"]
  /\ Proxy.uncaught (step st t) = None
  /\ Proxy.exchanges (run (step st t) turns') !! h = Some (Proxy.HttpRejected request)
  /\ Forall (fun call => Proxy.forwards h call = false)
       (Proxy.calls (run (step st t) turns')).
Proof.
  intros Hh Hun Hurl Hev st request. destruct t as [now later ev]. cbn in Hev. subst ev.
  assert (Hstep : step st (Proxy.Build_Turn now later (Proxy.On_clientReq_end h))
                  = Proxy.set_exchange h (Proxy.HttpRejected request)
                      (Proxy.call (Proxy.ClientRes_end h "Invalid URL")
                         (Proxy.call (Proxy.ClientRes_writeHead h 400 [])
                            (Proxy.call (Proxy.Emit_request request) st)))).
  { unfold Proxy.step, Proxy.clientReq_end, st. rewrite Hun.
    cbn [Proxy.event]. rewrite Hh, Hurl. reflexivity. }
  split; [rewrite Hstep; cbn; rewrite <- !app_assoc; reflexivity|].
  split; [rewrite Hstep; exact Hun|].
  assert (Hrejected : Proxy.rejected h request
                        (step st (Proxy.Build_Turn now later (Proxy.On_clientReq_end h)))).
  { rewrite Hstep. split.
    - cbn. apply list_lookup_insert_eq. eapply lookup_lt_Some, Hh.
    - pose proof (run_unforwarded homedir run_command URL_parse h c w turns) as Hinv.
      unfold Proxy.unforwarded_invariant in Hinv. rewrite Hh in Hinv.
      cbn. repeat (apply Forall_app_2; [|apply Forall_singleton; reflexivity]).
      exact Hinv. }
  apply (run_invariant homedir run_command URL_parse (Proxy.rejected h request)
           (fun st0 t0 => step_rejected homedir run_command URL_parse h request st0 t0)
           turns') in Hrejected.
  exact Hrejected.
Qed.

End PlainHttp.

Lemma upstream_failure_before_response_witness :
  Proxy.exchanges (Demo.run (Proxy.new_ProxyServer Demo.empty_world) Demo.forwarded) !! 0%nat
  = Some (Proxy.HttpForwarded
            {| Proxy.id := "req_1"; Proxy.method := "GET";
               Proxy.url := "http://example.com/a"; Proxy.headers := [];
               Proxy.body := None; Proxy.timestamp := 200; Proxy.response := None |}
            200 Proxy.Awaiting)
  /\ Proxy.calls
       (Proxy.step Demo.home Demo.openssl_fails Demo.URL_parse
          (Demo.run (Proxy.new_ProxyServer Demo.empty_world) Demo.forwarded)
          Demo.upstream_refuses)
     = Proxy.calls (Demo.run (Proxy.new_ProxyServer Demo.empty_world) Demo.forwarded)
       ++ [Proxy.Emit_error "req_1" "ECONNREFUSED";
           Proxy.ClientRes_writeHead 0 502 [];
           Proxy.ClientRes_end 0 "Proxy Error"].
Proof.
  split; [vm_compute; reflexivity|].
  apply (upstream_failure_before_response Demo.home Demo.openssl_fails Demo.URL_parse
           None Demo.empty_world Demo.forwarded [] Demo.upstream_refuses 0%nat
           {| Proxy.id := "req_1"; Proxy.method := "GET";
              Proxy.url := "http://example.com/a"; Proxy.headers := [];
              Proxy.body := None; Proxy.timestamp := 200; Proxy.response := None |}
           200 "ECONNREFUSED").
  - vm_compute. reflexivity.
  - vm_compute. reflexivity.
  - reflexivity.
Defined.

(** C4. The claim fails on the code for a transfer that fails: the
    upstream answered 200 and the proxy relayed that head to the client
    before the connection was reset. The handler of the failure emits
    the [error] event with the id of the exchange and the message, and
    leaves the [response] field unset; then it calls [writeHead(502)]
    on a response whose head is written, which throws: the client is
    not sent 502 and the exception leaves the handler. *)
Theorem transfer_failure_throws :
  exists request options,
    Proxy.calls (Demo.run (Proxy.new_ProxyServer Demo.empty_world) Demo.transfer_fails)
    = [Proxy.Emit_request request; Proxy.Http_request 0 options; Proxy.ProxyReq_end 0;
       Proxy.ClientRes_writeHead 0 200 []; Proxy.ProxyRes_pipe_clientRes 0;
       Proxy.Emit_error "req_1" "ECONNRESET"]
    /\ Proxy.id request = "req_1"
    /\ Proxy.exchanges
         (Demo.run (Proxy.new_ProxyServer Demo.empty_world) Demo.transfer_fails) !! 0%nat
       = Some (Proxy.HttpForwarded request 200 Proxy.Errored)
    /\ Proxy.response request = None
    /\ ~ In (Proxy.ClientRes_writeHead 0 502 [])
           (Proxy.calls (Demo.run (Proxy.new_ProxyServer Demo.empty_world)
                           Demo.transfer_fails))
    /\ Proxy.uncaught
         (Demo.run (Proxy.new_ProxyServer Demo.empty_world) Demo.transfer_fails)
       = Some "ERR_HTTP_HEADERS_SENT".
Proof.
  eexists _, _. split; [vm_compute; reflexivity|].
  split; [reflexivity|]. split; [vm_compute; reflexivity|]. split; [reflexivity|].
  split; [|vm_compute; reflexivity].
  intros Hin. vm_compute in Hin. intuition discriminate.
Qed.

Lemma malformed_url_rejected_witness :
  Proxy.exchanges (Demo.run (Proxy.new_ProxyServer Demo.empty_world) Demo.malformed) !! 0%nat
  = Some (Proxy.HttpReading "req_1" 300 "/relative" (Some "GET") [] "")
  /\ Demo.URL_parse "/relative" = None
  /\ Proxy.calls
       (Proxy.step Demo.home Demo.openssl_fails Demo.URL_parse
          (Demo.run (Proxy.new_ProxyServer Demo.empty_world) Demo.malformed)
          (Demo.turn 301 (Proxy.On_clientReq_end 0%nat)))
     = Proxy.calls (Demo.run (Proxy.new_ProxyServer Demo.empty_world) Demo.malformed)
       ++ [Proxy.Emit_request
             {| Proxy.id := "req_1"; Proxy.method := "GET"; Proxy.url := "/relative";
                Proxy.headers := []; Proxy.body := None; Proxy.timestamp := 300;
                Proxy.response := None |};
           Proxy.ClientRes_writeHead 0 400 [];
           Proxy.ClientRes_end 0 "Invalid URL"].
Proof.
  split; [vm_compute; reflexivity|]. split; [vm_compute; reflexivity|].
  apply (malformed_url_rejected Demo.home Demo.openssl_fails Demo.URL_parse
           None Demo.empty_world Demo.malformed []
           (Demo.turn 301 (Proxy.On_clientReq_end 0%nat)) 0%nat
           "req_1" 300 "/relative" (Some "GET") [] "").
  - vm_compute. reflexivity.
  - vm_compute. reflexivity.
  - vm_compute. reflexivity.
  - reflexivity.
Defined.

(** ** MITM mode: issuance failure *)

Section Fallback.

Variable homedir : string.
Variable run_command : string -> Certificate.FS -> option Certificate.FS.
Variable URL_parse : string -> option Proxy.URL.

Notation step := (Proxy.step homedir run_command URL_parse).

(** C5. In MITM mode, when [generateHostCert] throws for the host of a
    CONNECT request, the handler does what it does in tunnel mode: it
    emits [request], dials the upstream, and keeps the exchange as a
    tunnel that is being dialled; it writes nothing to the client
    socket, does not end it, and no exception leaves it. When the
    upstream then connects, the proxy writes the
    [200 Connection Established] reply, forwards the head bytes and
    pipes the two sockets into each other. *)
Theorem mitm_issuance_failure_falls_back (st : Proxy.ProxyServer) (now later : Z)
    (url : option string) (headers : Proxy.Headers) (head : string)
    (cert : string * string) (message : string) (w' : Certificate.World) :
  Proxy.caCert st = Some cert ->
  Certificate.generateHostCert homedir run_command (Proxy.connect_target url).1
    (Proxy.world st) = (Certificate.Throw message, w') ->
  Proxy.valid_port (Proxy.connect_target url).2 = true ->
  Proxy.uncaught st = None ->
  let h := length (Proxy.exchanges st) in
  let st' := Proxy.handleConnect homedir run_command now later url headers head st in
  exists request,
    Proxy.calls st'
    = Proxy.calls st
      ++ [Proxy.Emit_request request;
          Proxy.Net_connect h (Proxy.connect_target url).2 (Proxy.connect_target url).1]
    /\ Proxy.exchanges st'
       = Proxy.exchanges st ++ [Proxy.Tunnel request head Proxy.Dialing]
    /\ Proxy.uncaught st' = None
    /\ forall t,
         Proxy.event t = Proxy.On_serverSocket_connect h ->
         exists completed,
           Proxy.calls (step st' t)
           = Proxy.calls st'
             ++ [Proxy.ClientSocket_write h Proxy.CONNECTION_ESTABLISHED;
                 Proxy.ServerSocket_write h head;
                 Proxy.ServerSocket_pipe_clientSocket h;
                 Proxy.ClientSocket_pipe_serverSocket h;
                 Proxy.Emit_response completed].
Proof.
  intros Hca Hthrow Hport Hun h st'. unfold st', Proxy.handleConnect.
  destruct (Proxy.connect_target url) as [hostname targetPort]. cbn [fst snd] in *.
  cbn [Proxy.next_id Proxy.call Proxy.caCert]. rewrite Hca.
  unfold Proxy.handleHttpsWithMitm. cbn [Proxy.world Proxy.call]. rewrite Hthrow.
  unfold Proxy.handleHttpsTunnel. rewrite Hport.
  eexists. cbn. split; [rewrite <- app_assoc; reflexivity|].
  split; [reflexivity|]. split; [exact Hun|].
  intros [now' later' ev] Hev. cbn in Hev. subst ev.
  unfold Proxy.step, Proxy.serverSocket_connect. cbn. rewrite Hun.
  fold h. rewrite (list_lookup_middle (Proxy.exchanges st) [] _ h eq_refl). cbn.
  eexists. rewrite <- !app_assoc. reflexivity.
Qed.

End Fallback.

Lemma mitm_issuance_failure_falls_back_witness :
  Proxy.caCert (Proxy.configured (Some ("ca.key", "ca.crt")) Demo.empty_world)
  = Some ("ca.key", "ca.crt")
  /\ (Certificate.generateHostCert Demo.home Demo.openssl_fails "example.com"
        Demo.empty_world).1 = Certificate.Throw "Command failed"
  /\ exists request,
       Proxy.exchanges
         (Proxy.handleConnect Demo.home Demo.openssl_fails 100 100
            (Some "example.com:443") [] "hello"
            (Proxy.configured (Some ("ca.key", "ca.crt")) Demo.empty_world))
       = [Proxy.Tunnel request "hello" Proxy.Dialing].
Proof.
  split; [reflexivity|]. split; [vm_compute; reflexivity|].
  destruct (mitm_issuance_failure_falls_back Demo.home Demo.openssl_fails Demo.URL_parse
              (Proxy.configured (Some ("ca.key", "ca.crt")) Demo.empty_world) 100 100
              (Some "example.com:443") [] "hello" ("ca.key", "ca.crt") "Command failed"
              (Certificate.generateHostCert Demo.home Demo.openssl_fails "example.com"
                 Demo.empty_world).2)
    as (request & _ & Hexs & _).
  - reflexivity.
  - vm_compute. reflexivity.
  - vm_compute. reflexivity.
  - reflexivity.
  - exists request. exact Hexs.
Defined.

Example mitm_session_when_issuance_succeeds :
  exists key cert completed,
    drop 1 (Proxy.calls
              (Proxy.handleConnect Demo.home Demo.openssl_works 100 180
                 (Some "example.com:443") [] "hello"
                 (Proxy.configured (Some ("ca.key", "ca.crt")) Demo.issued_world)))
    = [Proxy.ClientSocket_write 0 Proxy.CONNECTION_ESTABLISHED;
       Proxy.New_TLSSocket 0 key cert;
       Proxy.Emit_response completed]
    /\ Proxy.duration <$> Proxy.response completed = Some 80.
Proof. eexists _, _, _. vm_compute. split; reflexivity. Qed.

(** ** Durations *)

Lemma timed_mono (T T' : Z) (e : Proxy.Exchange) :
  T <= T' -> Proxy.timed T e -> Proxy.timed T' e.
Proof. intros Hle. destruct e; cbn; intros; try lia; exact I. Qed.

Section Durations.

Variable homedir : string.
Variable run_command : string -> Certificate.FS -> option Certificate.FS.
Variable URL_parse : string -> option Proxy.URL.

Notation step := (Proxy.step homedir run_command URL_parse).
Notation run := (Proxy.run homedir run_command URL_parse).
Notation turn_calls := (Proxy.turn_calls homedir run_command URL_parse).

Lemma step_timed (T : Z) (st : Proxy.ProxyServer) (t : Proxy.Turn) :
  Forall (Proxy.timed T) (Proxy.exchanges st) ->
  T <= Proxy.now t -> Proxy.now t <= Proxy.later t ->
  Forall (Proxy.timely t) (turn_calls st t)
  /\ Forall (Proxy.timed (Proxy.later t)) (Proxy.exchanges (step st t)).
Proof.
  intros Hall Hnow Hlater.
  assert (Hold : Forall (Proxy.timed (Proxy.later t)) (Proxy.exchanges st)).
  { eapply Forall_impl; [exact Hall|]. intros e. apply timed_mono. lia. }
  unfold Proxy.turn_calls.
  destruct t as [now later []]; step_cases.
  all: rewrite <- ?app_assoc, ?drop_app_length, ?drop_all.
  all: try match goal with
       | H : Proxy.exchanges _ !! _ = Some _ |- _ =>
           eapply Forall_lookup_1 in H; [|exact Hall]; cbn in H
       end.
  all: split;
    [ repeat (apply Forall_cons; split); try apply Forall_nil; cbn; try exact I
    | repeat match goal with
        | |- Forall _ (<[_ := _]> _) => apply Forall_insert
        | |- Forall _ (_ ++ [_]) => apply Forall_app_2; [|apply Forall_singleton]
        end; try assumption; cbn; try lia; try exact I ].
  all: try (eexists; split; [reflexivity|]; cbn; lia).
Qed.

Lemma calls_step (st : Proxy.ProxyServer) (t : Proxy.Turn) :
  Proxy.calls (step st t) = Proxy.calls st ++ turn_calls st t.
Proof.
  unfold Proxy.turn_calls.
  destruct t as [now later []]; step_cases.
  all: rewrite <- ?app_assoc, ?drop_app_length, ?drop_all, ?app_nil_r; reflexivity.
Qed.

Lemma run_timed (pre rest : list Proxy.Turn) (T : Z) (st : Proxy.ProxyServer) :
  Forall (Proxy.timed T) (Proxy.exchanges st) ->
  Proxy.clock_monotone T (pre ++ rest) ->
  exists T',
    Forall (Proxy.timed T') (Proxy.exchanges (run st pre))
    /\ Proxy.clock_monotone T' rest.
Proof.
  revert T st. induction pre as [|t pre IH]; intros T st Hall Hclock.
  - exists T. split; assumption.
  - cbn in Hclock. destruct Hclock as (Hnow & Hlater & Hclock).
    destruct (step_timed T st t Hall Hnow Hlater) as [_ Hall'].
    apply (IH (Proxy.later t) (step st t) Hall' Hclock).
Qed.

Lemma step_stamped (st : Proxy.ProxyServer) (t : Proxy.Turn) :
  Forall Proxy.stamped (Proxy.exchanges st) ->
  Forall (Proxy.elapsed t) (turn_calls st t)
  /\ Forall Proxy.stamped (Proxy.exchanges (step st t)).
Proof.
  intros Hall. unfold Proxy.turn_calls.
  destruct t as [now later []]; step_cases.
  all: rewrite <- ?app_assoc, ?drop_app_length, ?drop_all.
  all: try match goal with
       | H : Proxy.exchanges _ !! _ = Some _ |- _ =>
           eapply Forall_lookup_1 in H; [|exact Hall]; cbn in H
       end.
  all: split;
    [ repeat (apply Forall_cons; split); try apply Forall_nil; cbn; try exact I
    | repeat match goal with
        | |- Forall _ (<[_ := _]> _) => apply Forall_insert
        | |- Forall _ (_ ++ [_]) => apply Forall_app_2; [|apply Forall_singleton]
        end; try assumption; cbn; try lia; try exact I ].
  all: try (eexists; split; [reflexivity|]; cbn; lia).
Qed.

Lemma run_stamped (c : option (string * string)) (w : Certificate.World)
    (turns : list Proxy.Turn) :
  Forall Proxy.stamped (Proxy.exchanges (run (Proxy.configured c w) turns)).
Proof.
  apply (run_invariant homedir run_command URL_parse
           (fun st => Forall Proxy.stamped (Proxy.exchanges st))).
  - intros st t Hall. apply (step_stamped st t Hall).
  - constructor.
Qed.

(** C9 (amended). Every [response] event, of a plain HTTP exchange, of
    a tunnel, of a MITM session or of one of its child exchanges,
    carries a duration that equals a reading of the clock in the turn
    that completed the exchange minus the start time of the exchange;
    the calls of that turn are what the turn adds to the trace. The
    duration is not negative if the clock never goes back: the readings
    are wall-clock time and their difference is not clamped. *)
Theorem duration_is_elapsed_time (c : option (string * string)) (w : Certificate.World)
    (turns pre post : list Proxy.Turn) (t : Proxy.Turn)
    (r : Proxy.NetworkRequest) :
  turns = pre ++ t :: post ->
  In (Proxy.Emit_response r) (turn_calls (run (Proxy.configured c w) pre) t) ->
  Proxy.calls (run (Proxy.configured c w) (pre ++ [t]))
  = Proxy.calls (run (Proxy.configured c w) pre)
    ++ turn_calls (run (Proxy.configured c w) pre) t
  /\ exists resp,
       Proxy.response r = Some resp
       /\ (Proxy.duration resp = Proxy.now t - Proxy.timestamp r
           \/ Proxy.duration resp = Proxy.later t - Proxy.timestamp r)
       /\ forall T0, Proxy.clock_monotone T0 turns -> 0 <= Proxy.duration resp.
Proof.
  intros -> Hin. split.
  - rewrite (run_snoc homedir run_command URL_parse).
    apply calls_step.
  - destruct (step_stamped (run (Proxy.configured c w) pre) t (run_stamped c w pre))
      as [Helapsed _].
    rewrite Forall_forall in Helapsed.
    destruct (Helapsed (Proxy.Emit_response r)) as (resp & Hresp & Heq);
      [apply list_elem_of_In, Hin|].
    exists resp. split; [exact Hresp|]. split; [exact Heq|].
    intros T0 Hclock.
    destruct (run_timed pre (t :: post) T0
                (Proxy.configured c w))
      as (T & Hall & Hrest); [constructor|exact Hclock|].
    cbn in Hrest. destruct Hrest as (Hnow & Hlater & _).
    destruct (step_timed T _ t Hall Hnow Hlater)
      as [Htimely _].
    rewrite Forall_forall in Htimely.
    destruct (Htimely (Proxy.Emit_response r)) as (resp' & Hresp' & Hpos & _);
      [apply list_elem_of_In, Hin|].
    congruence.
Qed.

End Durations.

Lemma duration_is_elapsed_time_witness :
  Proxy.clock_monotone 0 Demo.two_exchanges
  /\ exists r resp,
       In (Proxy.Emit_response r)
          (Proxy.turn_calls Demo.home Demo.openssl_fails Demo.URL_parse
             (Proxy.run Demo.home Demo.openssl_fails Demo.URL_parse
                (Proxy.configured None Demo.empty_world) (take 6 Demo.two_exchanges))
             (Demo.turn 252 (Proxy.On_proxyRes_end 1%nat)))
       /\ Proxy.response r = Some resp
       /\ Proxy.duration resp = 52
       /\ 0 <= Proxy.duration resp.
Proof.
  assert (Hclock : Proxy.clock_monotone 0 Demo.two_exchanges)
    by (vm_compute; intuition discriminate).
  split; [exact Hclock|].
  pose (r := {| Proxy.id := "req_2"; Proxy.method := "GET";
                Proxy.url := "http://example.com/a";
                Proxy.headers := [("x-test", Proxy.One "1")];
                Proxy.body := None; Proxy.timestamp := 200;
                Proxy.response :=
                  Some {| Proxy.status := 200; Proxy.statusText := "OK";
                          Proxy.response_headers := [];
                          Proxy.response_body := Some "hello";
                          Proxy.duration := 52 |} |}).
  assert (Hin : In (Proxy.Emit_response r)
                  (Proxy.turn_calls Demo.home Demo.openssl_fails Demo.URL_parse
                     (Proxy.run Demo.home Demo.openssl_fails Demo.URL_parse
                        (Proxy.configured None Demo.empty_world)
                        (take 6 Demo.two_exchanges))
                     (Demo.turn 252 (Proxy.On_proxyRes_end 1%nat)))).
  { vm_compute. left. reflexivity. }
  destruct (duration_is_elapsed_time Demo.home Demo.openssl_fails Demo.URL_parse
              None Demo.empty_world Demo.two_exchanges (take 6 Demo.two_exchanges) []
              (Demo.turn 252 (Proxy.On_proxyRes_end 1%nat)) r eq_refl Hin)
    as (_ & resp & Hresp & _ & Hpos).
  exists r, resp. split; [exact Hin|]. split; [exact Hresp|].
  split; [|exact (Hpos 0 Hclock)].
  cbn in Hresp. injection Hresp as <-. reflexivity.
Defined.

(** C9, as stated, fails: the duration is the difference of two
    readings of the wall clock. When the clock is set back 50 ms
    between a CONNECT and the connection of its upstream, the tunnel
    completes with the duration -50. *)
Lemma negative_duration_counterexample :
  exists r resp,
    In (Proxy.Emit_response r)
       (Proxy.calls
          (Proxy.run Demo.home Demo.openssl_fails Demo.URL_parse
             (Proxy.configured None Demo.empty_world)
             [Demo.turn 100 (Proxy.On_connect (Some "example.com:443") [] "");
              Demo.turn 50 (Proxy.On_serverSocket_connect 0%nat)]))
    /\ Proxy.response r = Some resp
    /\ Proxy.duration resp = -50
    /\ ~ 0 <= Proxy.duration resp.
Proof.
  eexists _, _. split; [vm_compute; auto 10|].
  split; [reflexivity|]. split; [reflexivity|]. cbn. lia.
Qed.

(** ** [split] and [join] *)

Lemma string_app_nil_r (s : string) : s +:+ "" = s.
Proof.
  induction s as [|c s IH]; [reflexivity|].
  change (String c (s +:+ "") = String c s). f_equal. exact IH.
Qed.









(** ** Frames of a MITM session *)











(** ** Header lines *)





(** ** The [response] events of an exchange *)

Lemma responses_snoc (l : list Proxy.Call) (c : Proxy.Call) :
  Proxy.responses (l ++ [c]) = Proxy.responses l ++ option_list (Proxy.response_id c).
Proof.
  unfold Proxy.responses. rewrite omap_app. cbn.
  destruct (Proxy.response_id c); reflexivity.
Qed.

Lemma responses_least_most (e : Proxy.Exchange) :
  (Proxy.responses_least e <= Proxy.responses_most e)%nat.
Proof. destruct e; cbn; repeat case_match; lia. Qed.

Lemma count_absent (i : string) (l : list string) :
  i ∉ l -> length (filter (fun k => k = i) l) = 0%nat.
Proof.
  induction l as [|j l IH]; intros Hnot; [reflexivity|].
  apply not_elem_of_cons in Hnot as [Hne Hnot].
  rewrite filter_cons. rewrite decide_False by congruence. apply IH, Hnot.
Qed.

Section Responses.

Variable homedir : string.
Variable run_command : string -> Certificate.FS -> option Certificate.FS.
Variable URL_parse : string -> option Proxy.URL.

Notation step := (Proxy.step homedir run_command URL_parse).
Notation run := (Proxy.run homedir run_command URL_parse).

Ltac responses_eq :=
  unfold Proxy.responses; rewrite ?omap_app; cbn; rewrite ?app_nil_r; reflexivity.

(** How one turn changes the exchanges and the [response] events:
    either no [response] event is emitted, and the exchanges are as
    before, or one of them is updated, or a new one is added; or one
    [response] event is emitted, for an exchange that had caused none,
    or for the exchange added in this turn. *)
Lemma step_responses_shape (st : Proxy.ProxyServer) (t : Proxy.Turn) :
  (Proxy.responses (Proxy.calls (step st t)) = Proxy.responses (Proxy.calls st)
   /\ (Proxy.exchanges (step st t) = Proxy.exchanges st
       \/ (exists h e e',
             Proxy.exchanges st !! h = Some e
             /\ Proxy.exchanges (step st t) = <[h := e']> (Proxy.exchanges st)
             /\ Proxy.exchange_id e' = Proxy.exchange_id e
             /\ (Proxy.responses_least e' <= Proxy.responses_least e)%nat
             /\ (Proxy.responses_most e <= Proxy.responses_most e')%nat)
       \/ (exists e,
             Proxy.exchanges (step st t) = Proxy.exchanges st ++ [e]
             /\ Proxy.responses_least e = 0%nat)))
  \/ (exists h e e',
        Proxy.exchanges st !! h = Some e
        /\ Proxy.exchanges (step st t) = <[h := e']> (Proxy.exchanges st)
        /\ Proxy.exchange_id e' = Proxy.exchange_id e
        /\ Proxy.responses_most e = 0%nat
        /\ Proxy.responses_least e' = 1%nat /\ Proxy.responses_most e' = 1%nat
        /\ Proxy.responses (Proxy.calls (step st t))
           = Proxy.responses (Proxy.calls st) ++ [Proxy.exchange_id e])
  \/ (exists e,
        Proxy.exchanges (step st t) = Proxy.exchanges st ++ [e]
        /\ Proxy.responses_most e = 1%nat
        /\ Proxy.responses (Proxy.calls (step st t))
           = Proxy.responses (Proxy.calls st) ++ [Proxy.exchange_id e]).
Proof.
  destruct t as [now later []]; step_cases.
  all: first
    [ left; split; [responses_eq|];
      first
        [ left; reflexivity
        | right; left; eexists _, _, _; split_and!;
          [eassumption|first [reflexivity|cbn; lia]..]
        | right; right; eexists; split_and!; reflexivity ]
    | right; left; eexists _, _, _; split_and!; [eassumption|reflexivity..|responses_eq]
    | right; right; eexists; split_and!; [reflexivity|reflexivity|responses_eq] ].
Qed.

Lemma step_responses_invariant (st : Proxy.ProxyServer) (t : Proxy.Turn) :
  Proxy.ids_consistent st -> Proxy.ids_consistent (step st t) ->
  Proxy.responses_invariant st -> Proxy.responses_invariant (step st t).
Proof.
  intros Hids Hids' Hinv Hbound'.
  unfold Proxy.responses_invariant, Proxy.response_count in *.
  destruct (step_responses_shape st t)
    as [[Hres [Hexs|[(h & e & e' & He & Hexs & Hid & Hl & Hm)|(e & Hexs & Hof)]]]
       |[(h & e & e' & He & Hexs & Hid & Hm & Hl' & Hm' & Hres)
        |(e & Hexs & Hm & Hres)]].
  - rewrite Hres, Hexs in *. apply Hinv, Hbound'.
  - rewrite Hexs, length_insert in Hbound'. destruct (Hinv Hbound') as [Hmem Hcnt].
    rewrite Hres, Hexs. split.
    + intros i Hi. rewrite list_fmap_insert, Hid.
      rewrite list_insert_id; [apply Hmem, Hi|].
      rewrite list_lookup_fmap, He. reflexivity.
    + intros h0 e0 H0.
      apply list_lookup_insert_Some in H0 as [(-> & -> & _)|[_ H0]]; [|eauto].
      rewrite Hid. pose proof (Hcnt _ _ He). lia.
  - pose proof Hbound' as Hbound. rewrite Hexs, length_app in Hbound. cbn in Hbound.
    destruct Hinv as [Hmem Hcnt]; [lia|]. rewrite Hres, Hexs. split.
    + intros i Hi. rewrite fmap_app. apply elem_of_app. left. apply Hmem, Hi.
    + intros h0 e0 H0. apply lookup_app_Some in H0 as [H0|[Hlen H0]]; [eauto|].
      apply list_lookup_singleton_Some in H0 as [Hh0 <-]. rewrite Hof.
      assert (Hnot : Proxy.exchange_id e ∉ Proxy.responses (Proxy.calls st)).
      { intros Hin. apply Hmem in Hin.
        apply list_elem_of_fmap in Hin as (e1 & Heq & Hin).
        apply list_elem_of_lookup in Hin as [k Hk].
        assert (k = length (Proxy.exchanges st)) as ->.
        { apply (ids_injective (step st t) _ _ e1 e Hids' Hbound').
          - rewrite Hexs. apply lookup_app_l_Some, Hk.
          - rewrite Hexs. apply list_lookup_middle. reflexivity.
          - congruence. }
        apply lookup_lt_Some in Hk. lia. }
      rewrite (count_absent _ _ Hnot). lia.
  - rewrite Hexs, length_insert in Hbound'. destruct (Hinv Hbound') as [Hmem Hcnt].
    rewrite Hres, Hexs. split.
    + intros i Hi. rewrite list_fmap_insert, Hid.
      rewrite list_insert_id by (rewrite list_lookup_fmap, He; reflexivity).
      apply elem_of_app in Hi as [Hi|Hi]; [apply Hmem, Hi|].
      apply list_elem_of_singleton in Hi as ->.
      apply list_elem_of_fmap. exists e. split; [reflexivity|].
      eapply list_elem_of_lookup_2, He.
    + intros h0 e0 H0. rewrite error_count_snoc.
      apply list_lookup_insert_Some in H0 as [(<- & <- & _)|[Hne H0]].
      * rewrite Hid, Hl', Hm'. rewrite decide_True by reflexivity.
        pose proof (Hcnt h e He). lia.
      * rewrite decide_False.
        -- pose proof (Hcnt h0 e0 H0) as Hc. lia.
        -- intros Heq. apply Hne.
           apply (ids_injective st h h0 e e0 Hids Hbound' He H0 Heq).
  - pose proof Hbound' as Hbound. rewrite Hexs, length_app in Hbound. cbn in Hbound.
    destruct Hinv as [Hmem Hcnt]; [lia|].
    assert (Hfresh : Proxy.exchange_id e ∉ Proxy.exchange_id <$> Proxy.exchanges st).
    { intros Hin. apply list_elem_of_fmap in Hin as (e1 & Heq & Hin).
      apply list_elem_of_lookup in Hin as [k Hk].
      assert (k = length (Proxy.exchanges st)) as ->.
      { apply (ids_injective (step st t) _ _ e1 e Hids' Hbound').
        - rewrite Hexs. apply lookup_app_l_Some, Hk.
        - rewrite Hexs. apply list_lookup_middle. reflexivity.
        - congruence. }
      apply lookup_lt_Some in Hk. lia. }
    rewrite Hres, Hexs. split.
    + intros i Hi. rewrite fmap_app. apply elem_of_app.
      apply elem_of_app in Hi as [Hi|Hi]; [left; apply Hmem, Hi|right].
      exact Hi.
    + intros h0 e0 H0. rewrite error_count_snoc.
      apply lookup_app_Some in H0 as [H0|[Hlen H0]].
      * rewrite decide_False; [pose proof (Hcnt h0 e0 H0); lia|].
        intros Heq. apply Hfresh. rewrite Heq.
        apply list_elem_of_fmap. exists e0. split; [reflexivity|].
        eapply list_elem_of_lookup_2, H0.
      * apply list_lookup_singleton_Some in H0 as [Hh0 <-].
        rewrite decide_True by reflexivity.
        assert (Hnot : Proxy.exchange_id e ∉ Proxy.responses (Proxy.calls st))
          by (intros Hin; apply Hfresh, Hmem, Hin).
        rewrite (count_absent _ _ Hnot).
        pose proof (responses_least_most e). lia.
Qed.

Lemma run_responses_invariant (c : option (string * string)) (w : Certificate.World)
    (turns : list Proxy.Turn) :
  Proxy.responses_invariant (run (Proxy.configured c w) turns).
Proof.
  cut (Proxy.ids_consistent (run (Proxy.configured c w) turns)
       /\ Proxy.responses_invariant (run (Proxy.configured c w) turns)); [tauto|].
  apply (run_invariant homedir run_command URL_parse
           (fun st => Proxy.ids_consistent st /\ Proxy.responses_invariant st)).
  - intros st t [Hids Hinv].
    pose proof (step_ids_consistent homedir run_command URL_parse st t Hids) as Hids'.
    split; [exact Hids'|]. apply step_responses_invariant; assumption.
  - split.
    + split; [reflexivity|]. intros k e Hk. discriminate Hk.
    + intros _. split.
      * intros i Hi. cbn in Hi. set_solver.
      * intros h e He. discriminate He.
Qed.

End Responses.

(** ** How many events an exchange causes *)

Section Events.

Variable homedir : string.
Variable run_command : string -> Certificate.FS -> option Certificate.FS.
Variable URL_parse : string -> option Proxy.URL.

Notation step := (Proxy.step homedir run_command URL_parse).
Notation run := (Proxy.run homedir run_command URL_parse).

(** X4. Along every run of an instance that has handled at most 2^53
    exchanges, no id is borne by more than one [response] event, nor by
    more than one [error] event. *)
Theorem events_of_an_id_at_most_once (c : option (string * string))
    (w : Certificate.World) (turns : list Proxy.Turn) (i : string) :
  let st := run (Proxy.configured c w) turns in
  (N.of_nat (length (Proxy.exchanges st)) <= Js.MAX_EXACT)%N ->
  (Proxy.response_count i (Proxy.calls st) <= 1)%nat
  /\ (Proxy.error_count i (Proxy.calls st) <= 1)%nat.
Proof.
  intros st Hbound.
  destruct (run_responses_invariant homedir run_command URL_parse c w turns Hbound)
    as [Hrmem Hrcnt].
  destruct (run_errors_invariant homedir run_command URL_parse c w turns Hbound)
    as [Hemem Hecnt].
  fold st in Hrmem, Hrcnt, Hemem, Hecnt.
  destruct (decide (i ∈ Proxy.exchange_id <$> Proxy.exchanges st)) as [Hin|Hnot].
  - apply list_elem_of_fmap in Hin as (e & -> & Hin).
    apply list_elem_of_lookup in Hin as [h He].
    pose proof (Hrcnt h e He) as Hr. pose proof (Hecnt h e He) as Hc.
    split.
    + transitivity (Proxy.responses_most e); [lia|].
      destruct e; cbn; repeat case_match; lia.
    + rewrite Hc. destruct e; cbn; repeat case_match; lia.
  - unfold Proxy.response_count, Proxy.error_count.
    rewrite !count_absent; [lia| |]; intros Hin; apply Hnot; auto.
Qed.

(** X5. Along every run of an instance that has handled at most 2^53
    exchanges, every [response] event and every [error] event bears the
    id of an exchange of the instance; and an exchange that is not a
    tunnel to the target never has both: a plain HTTP exchange, a
    decrypted MITM frame or a MITM session has a [response] event or an
    [error] event or neither. *)
Theorem response_or_error_not_both (c : option (string * string))
    (w : Certificate.World) (turns : list Proxy.Turn) :
  let st := run (Proxy.configured c w) turns in
  (N.of_nat (length (Proxy.exchanges st)) <= Js.MAX_EXACT)%N ->
  (forall i, i ∈ Proxy.responses (Proxy.calls st) ++ Proxy.errors (Proxy.calls st) ->
             i ∈ Proxy.assigned_ids st)
  /\ forall h e,
       Proxy.exchanges st !! h = Some e -> Proxy.is_tunnel e = false ->
       (Proxy.response_count (Proxy.exchange_id e) (Proxy.calls st)
        + Proxy.error_count (Proxy.exchange_id e) (Proxy.calls st) <= 1)%nat.
Proof.
  intros st Hbound.
  destruct (run_responses_invariant homedir run_command URL_parse c w turns Hbound)
    as [Hrmem Hrcnt].
  destruct (run_errors_invariant homedir run_command URL_parse c w turns Hbound)
    as [Hemem Hecnt].
  fold st in Hrmem, Hrcnt, Hemem, Hecnt. split.
  - intros i Hi. unfold Proxy.assigned_ids.
    apply elem_of_app in Hi as [Hi|Hi]; auto.
  - intros h e He Htunnel.
    pose proof (Hrcnt h e He) as Hr. rewrite (Hecnt h e He).
    transitivity (Proxy.responses_most e + Proxy.errors_of e)%nat; [lia|].
    destruct e; cbn in *; repeat case_match; try discriminate Htunnel; lia.
Qed.

(** X6. An exchange that completed has caused exactly one [response]
    event and no [error] event, along every run of an instance that has
    handled at most 2^53 exchanges. *)
Theorem completed_exchange_one_response (c : option (string * string))
    (w : Certificate.World) (turns : list Proxy.Turn) (h : Proxy.handle)
    (e : Proxy.Exchange) :
  let st := run (Proxy.configured c w) turns in
  (N.of_nat (length (Proxy.exchanges st)) <= Js.MAX_EXACT)%N ->
  Proxy.exchanges st !! h = Some e ->
  Proxy.responses_least e = 1%nat ->
  Proxy.response_count (Proxy.exchange_id e) (Proxy.calls st) = 1%nat
  /\ Proxy.error_count (Proxy.exchange_id e) (Proxy.calls st) = 0%nat.
Proof.
  intros st Hbound He Hleast.
  destruct (run_responses_invariant homedir run_command URL_parse c w turns Hbound)
    as [_ Hrcnt].
  destruct (run_errors_invariant homedir run_command URL_parse c w turns Hbound)
    as [_ Hecnt].
  fold st in Hrcnt, Hecnt.
  pose proof (Hrcnt h e He) as Hr. rewrite (Hecnt h e He). split.
  - assert (Proxy.responses_most e = 1%nat); [|lia].
    destruct e; cbn in *; repeat case_match; try discriminate Hleast; reflexivity.
  - destruct e; cbn in *; repeat case_match; try discriminate Hleast; reflexivity.
Qed.

(** ** The [response] field, once set *)

Lemma step_response_kept (h : Proxy.handle) (e : Proxy.Exchange)
    (r : Proxy.NetworkRequest) (st : Proxy.ProxyServer) (t : Proxy.Turn) :
  Proxy.exchanges st !! h = Some e -> Proxy.response_sound e ->
  Proxy.exchange_request e = Some r -> is_Some (Proxy.response r) ->
  exists e', Proxy.exchanges (step st t) !! h = Some e'
             /\ Proxy.exchange_request e' = Some r.
Proof.
  intros He Hsound Hr Hresp.
  assert (Hkeep : exists e', Proxy.exchanges st !! h = Some e'
                             /\ Proxy.exchange_request e' = Some r) by eauto.
  destruct t as [now later []]; step_cases; try exact Hkeep.
  all: try (rewrite lookup_app_l by (eapply lookup_lt_Some; eassumption);
            exact Hkeep).
  all: match goal with
       | H : Proxy.exchanges _ !! ?h0 = Some _, _ : Proxy.uncaught _ = None |- _ =>
           destruct (decide (h0 = h)) as [->|Hne];
           [ rewrite H in He; simplify_eq; cbn in *; simplify_eq
           | rewrite list_lookup_insert_ne by congruence; exact Hkeep ]
       end.
  all: try (destruct Hresp as [? Hresp]; cbn in *; congruence).
  all: rewrite list_lookup_insert_eq by (eapply lookup_lt_Some; eassumption).
  all: eexists; split; reflexivity.
Qed.

(** X7. Once the [response] field of an exchange is set, the captured
    exchange never changes again: whatever events follow, the exchange
    object is the same, response included. *)
Theorem response_is_final (c : option (string * string)) (w : Certificate.World)
    (pre post : list Proxy.Turn) (h : Proxy.handle) (e : Proxy.Exchange)
    (r : Proxy.NetworkRequest) :
  Proxy.exchanges (run (Proxy.configured c w) pre) !! h = Some e ->
  Proxy.exchange_request e = Some r -> is_Some (Proxy.response r) ->
  exists e', Proxy.exchanges (run (Proxy.configured c w) (pre ++ post)) !! h = Some e'
             /\ Proxy.exchange_request e' = Some r.
Proof.
  intros He Hr Hresp. rewrite run_app.
  pose proof (run_response_sound homedir run_command URL_parse c w pre) as Hsound.
  cut (Forall Proxy.response_sound
         (Proxy.exchanges (run (run (Proxy.configured c w) pre) post))
       /\ exists e', Proxy.exchanges (run (run (Proxy.configured c w) pre) post) !! h
                     = Some e'
                     /\ Proxy.exchange_request e' = Some r); [tauto|].
  apply (run_invariant homedir run_command URL_parse
           (fun st => Forall Proxy.response_sound (Proxy.exchanges st)
                      /\ exists e', Proxy.exchanges st !! h = Some e'
                                    /\ Proxy.exchange_request e' = Some r)).
  - intros st t [Hall (e' & He' & Hr')]. split.
    + apply step_response_sound, Hall.
    + eapply step_response_kept; eauto.
      eapply Forall_lookup_1; eassumption.
  - split; [exact Hsound|eauto].
Qed.

End Events.

Lemma events_of_an_id_at_most_once_witness :
  (N.of_nat (length (Proxy.exchanges
                       (Proxy.run Demo.home Demo.openssl_fails Demo.URL_parse
                          (Proxy.configured None Demo.empty_world) Demo.two_exchanges)))
   <= Js.MAX_EXACT)%N
  /\ (Proxy.response_count "req_2"
        (Proxy.calls (Proxy.run Demo.home Demo.openssl_fails Demo.URL_parse
                        (Proxy.configured None Demo.empty_world) Demo.two_exchanges))
      <= 1)%nat
  /\ (Proxy.error_count "req_2"
        (Proxy.calls (Proxy.run Demo.home Demo.openssl_fails Demo.URL_parse
                        (Proxy.configured None Demo.empty_world) Demo.two_exchanges))
      <= 1)%nat.
Proof.
  assert (Hbound :
    (N.of_nat (length (Proxy.exchanges
                         (Proxy.run Demo.home Demo.openssl_fails Demo.URL_parse
                            (Proxy.configured None Demo.empty_world) Demo.two_exchanges)))
     <= Js.MAX_EXACT)%N) by (vm_compute; discriminate).
  split; [exact Hbound|].
  exact (events_of_an_id_at_most_once Demo.home Demo.openssl_fails Demo.URL_parse
           None Demo.empty_world Demo.two_exchanges "req_2" Hbound).
Defined.

Lemma response_or_error_not_both_witness :
  (N.of_nat (length (Proxy.exchanges
                       (Proxy.run Demo.home Demo.openssl_fails Demo.URL_parse
                          (Proxy.configured None Demo.empty_world)
                          (Demo.forwarded ++ [Demo.upstream_refuses]))))
   <= Js.MAX_EXACT)%N
  /\ exists e,
       Proxy.exchanges
         (Proxy.run Demo.home Demo.openssl_fails Demo.URL_parse
            (Proxy.configured None Demo.empty_world)
            (Demo.forwarded ++ [Demo.upstream_refuses])) !! 0%nat = Some e
       /\ Proxy.is_tunnel e = false
       /\ (Proxy.response_count (Proxy.exchange_id e)
             (Proxy.calls (Proxy.run Demo.home Demo.openssl_fails Demo.URL_parse
                             (Proxy.configured None Demo.empty_world)
                             (Demo.forwarded ++ [Demo.upstream_refuses])))
           + Proxy.error_count (Proxy.exchange_id e)
               (Proxy.calls (Proxy.run Demo.home Demo.openssl_fails Demo.URL_parse
                               (Proxy.configured None Demo.empty_world)
                               (Demo.forwarded ++ [Demo.upstream_refuses])))
           <= 1)%nat.
Proof.
  assert (Hbound :
    (N.of_nat (length (Proxy.exchanges
                         (Proxy.run Demo.home Demo.openssl_fails Demo.URL_parse
                            (Proxy.configured None Demo.empty_world)
                            (Demo.forwarded ++ [Demo.upstream_refuses]))))
     <= Js.MAX_EXACT)%N) by (vm_compute; discriminate).
  split; [exact Hbound|].
  eexists. split; [vm_compute; reflexivity|]. split; [reflexivity|].
  refine (proj2 (response_or_error_not_both Demo.home Demo.openssl_fails Demo.URL_parse
                   None Demo.empty_world (Demo.forwarded ++ [Demo.upstream_refuses])
                   Hbound) 0%nat _ _ _).
  - vm_compute. reflexivity.
  - reflexivity.
Defined.

Lemma completed_exchange_one_response_witness :
  (N.of_nat (length (Proxy.exchanges
                       (Proxy.run Demo.home Demo.openssl_fails Demo.URL_parse
                          (Proxy.configured None Demo.empty_world) Demo.two_exchanges)))
   <= Js.MAX_EXACT)%N
  /\ exists e,
       Proxy.exchanges
         (Proxy.run Demo.home Demo.openssl_fails Demo.URL_parse
            (Proxy.configured None Demo.empty_world) Demo.two_exchanges) !! 1%nat
       = Some e
       /\ Proxy.responses_least e = 1%nat
       /\ Proxy.response_count (Proxy.exchange_id e)
            (Proxy.calls (Proxy.run Demo.home Demo.openssl_fails Demo.URL_parse
                            (Proxy.configured None Demo.empty_world) Demo.two_exchanges))
          = 1%nat
       /\ Proxy.error_count (Proxy.exchange_id e)
            (Proxy.calls (Proxy.run Demo.home Demo.openssl_fails Demo.URL_parse
                            (Proxy.configured None Demo.empty_world) Demo.two_exchanges))
          = 0%nat.
Proof.
  assert (Hbound :
    (N.of_nat (length (Proxy.exchanges
                         (Proxy.run Demo.home Demo.openssl_fails Demo.URL_parse
                            (Proxy.configured None Demo.empty_world) Demo.two_exchanges)))
     <= Js.MAX_EXACT)%N) by (vm_compute; discriminate).
  split; [exact Hbound|].
  eexists. split; [vm_compute; reflexivity|]. split; [reflexivity|].
  refine (completed_exchange_one_response Demo.home Demo.openssl_fails Demo.URL_parse
            None Demo.empty_world Demo.two_exchanges 1%nat _ Hbound _ _).
  - vm_compute. reflexivity.
  - reflexivity.
Defined.

Lemma response_is_final_witness :
  exists e r,
    Proxy.exchanges
      (Proxy.run Demo.home Demo.openssl_fails Demo.URL_parse
         (Proxy.configured None Demo.empty_world) (take 2 Demo.two_exchanges)) !! 0%nat
    = Some e
    /\ Proxy.exchange_request e = Some r
    /\ is_Some (Proxy.response r)
    /\ exists e',
         Proxy.exchanges
           (Proxy.run Demo.home Demo.openssl_fails Demo.URL_parse
              (Proxy.configured None Demo.empty_world)
              (take 2 Demo.two_exchanges
               ++ [Demo.turn 300 (Proxy.On_serverSocket_error 0%nat "ECONNRESET")]))
           !! 0%nat = Some e'
         /\ Proxy.exchange_request e' = Some r.
Proof.
  eexists _, _. split; [vm_compute; reflexivity|]. split; [reflexivity|].
  split; [eexists; reflexivity|].
  refine (response_is_final Demo.home Demo.openssl_fails Demo.URL_parse
            None Demo.empty_world (take 2 Demo.two_exchanges)
            [Demo.turn 300 (Proxy.On_serverSocket_error 0%nat "ECONNRESET")]
            0%nat _ _ _ _ _).
  - vm_compute. reflexivity.
  - reflexivity.
  - eexists. reflexivity.
Defined.

(** ** A plain HTTP exchange, from the request to the response *)

Lemma set_exchange_twice (h : nat) (e e' : Proxy.Exchange) (st : Proxy.ProxyServer) :
  Proxy.set_exchange h e' (Proxy.set_exchange h e st) = Proxy.set_exchange h e' st.
Proof.
  unfold Proxy.set_exchange. cbn. rewrite list_insert_insert_eq. reflexivity.
Qed.

Lemma set_exchange_same (h : nat) (e : Proxy.Exchange) (st : Proxy.ProxyServer) :
  Proxy.exchanges st !! h = Some e -> Proxy.set_exchange h e st = st.
Proof.
  intros He. destruct st. unfold Proxy.set_exchange. cbn in *.
  rewrite (list_insert_id _ _ _ He). reflexivity.
Qed.

Lemma chunks_text_cons (chunk : string) (chunks : list string) :
  Proxy.chunks_text (chunk :: chunks) = chunk +:+ Proxy.chunks_text chunks.
Proof. reflexivity. Qed.

Section PlainExchange.

Variable homedir : string.
Variable run_command : string -> Certificate.FS -> option Certificate.FS.
Variable URL_parse : string -> option Proxy.URL.

Notation step := (Proxy.step homedir run_command URL_parse).
Notation run := (Proxy.run homedir run_command URL_parse).

Lemma run_cons (st : Proxy.ProxyServer) (t : Proxy.Turn) (turns : list Proxy.Turn) :
  run st (t :: turns) = run (step st t) turns.
Proof. reflexivity. Qed.

(** The chunks of the client request are appended to the body read so
    far. *)
Lemma run_request_chunks (h : nat) (chunks : list (Z * string)) (st : Proxy.ProxyServer)
    (id : string) (startTime : Z) (url : string) (method : option string)
    (headers : Proxy.Headers) (body : string) :
  Proxy.uncaught st = None ->
  Proxy.exchanges st !! h = Some (Proxy.HttpReading id startTime url method headers body) ->
  run st (Proxy.request_chunks h chunks)
  = Proxy.set_exchange h
      (Proxy.HttpReading id startTime url method headers
         (body +:+ Proxy.chunks_text chunks.*2)) st.
Proof.
  revert st body. induction chunks as [|[T chunk] chunks IH]; intros st body Hunc He.
  - cbn. rewrite string_app_nil_r. symmetry. apply set_exchange_same, He.
  - change (Proxy.request_chunks h ((T, chunk) :: chunks))
      with (Proxy.instant T (Proxy.On_clientReq_data h chunk)
            :: Proxy.request_chunks h chunks).
    rewrite run_cons.
    assert (Hstep : step st (Proxy.instant T (Proxy.On_clientReq_data h chunk))
                    = Proxy.set_exchange h
                        (Proxy.HttpReading id startTime url method headers
                           (body +:+ chunk)) st).
    { unfold Proxy.step. rewrite Hunc. cbn. unfold Proxy.clientReq_data.
      rewrite He. reflexivity. }
    rewrite Hstep.
    rewrite (IH _ (body +:+ chunk)).
    + rewrite set_exchange_twice. cbn [fmap list_fmap snd].
      rewrite chunks_text_cons, string_app_assoc. reflexivity.
    + exact Hunc.
    + cbn. apply list_lookup_insert_eq. eapply lookup_lt_Some, He.
Qed.


(** The same for a decrypted frame of a MITM session. *)
Lemma run_response_chunks_mitm (h : nat) (chunks : list (Z * string))
    (st : Proxy.ProxyServer) (request : Proxy.NetworkRequest) (startTime : Z)
    (parent : nat) (sc : option Z) (sm : option string) (hs : Proxy.Headers)
    (body : string) :
  Proxy.uncaught st = None ->
  Proxy.exchanges st !! h
  = Some (Proxy.MitmChild request startTime parent (Proxy.Receiving sc sm hs body)) ->
  run st (Proxy.response_chunks h chunks)
  = Proxy.set_exchange h
      (Proxy.MitmChild request startTime parent
         (Proxy.Receiving sc sm hs (body +:+ Proxy.chunks_text chunks.*2))) st.
Proof.
  revert st body. induction chunks as [|[T chunk] chunks IH]; intros st body Hunc He.
  - cbn. rewrite string_app_nil_r. symmetry. apply set_exchange_same, He.
  - change (Proxy.response_chunks h ((T, chunk) :: chunks))
      with (Proxy.instant T (Proxy.On_proxyRes_data h chunk)
            :: Proxy.response_chunks h chunks).
    rewrite run_cons.
    assert (Hstep : step st (Proxy.instant T (Proxy.On_proxyRes_data h chunk))
                    = Proxy.set_exchange h
                        (Proxy.MitmChild request startTime parent
                           (Proxy.Receiving sc sm hs (body +:+ chunk))) st).
    { unfold Proxy.step. rewrite Hunc. cbn. unfold Proxy.proxyRes_data.
      rewrite He. reflexivity. }
    rewrite Hstep.
    rewrite (IH _ (body +:+ chunk)).
    + rewrite set_exchange_twice. cbn [fmap list_fmap snd].
      rewrite chunks_text_cons, string_app_assoc. reflexivity.
    + exact Hunc.
    + cbn. apply list_lookup_insert_eq. eapply lookup_lt_Some, He.
Qed.

(** What the end of the client request does when the URL parses. *)
Lemma clientReq_end_forwards (h : nat) (st : Proxy.ProxyServer) (id : string)
    (startTime : Z) (url : string) (method : option string) (headers : Proxy.Headers)
    (body : string) (target : Proxy.URL) :
  Proxy.exchanges st !! h = Some (Proxy.HttpReading id startTime url method headers body) ->
  URL_parse url = Some target ->
  let request :=
    {| Proxy.id := id; Proxy.method := Js.string_or method "GET"; Proxy.url := url;
       Proxy.headers := headers; Proxy.body := Js.string_or_undefined body;
       Proxy.timestamp := startTime; Proxy.response := None |} in
  let options :=
    {| Proxy.http_hostname := Proxy.hostname target;
       Proxy.http_port := Proxy.port_or_80 (Proxy.port target);
       Proxy.http_path := Proxy.pathname target +:+ Proxy.search target;
       Proxy.http_method := method; Proxy.http_headers := headers |} in
  Proxy.calls (Proxy.clientReq_end URL_parse h st)
  = Proxy.calls st ++ [Proxy.Emit_request request; Proxy.Http_request h options]
      ++ Proxy.write_if_body h body ++ [Proxy.ProxyReq_end h]
  /\ Proxy.exchanges (Proxy.clientReq_end URL_parse h st)
     = <[h := Proxy.HttpForwarded request startTime Proxy.Awaiting]> (Proxy.exchanges st).
Proof.
  intros He Hurl request options. unfold Proxy.clientReq_end. rewrite He, Hurl.
  destruct body; cbn; rewrite <- ?app_assoc; split; reflexivity.
Qed.

(** X8. A plain HTTP request whose URL parses is forwarded once its
    body has been read: the [request] event carries the method, or GET
    when there is none, the chunks of the body in the order they came,
    and the time of the request, not of its end; the upstream request
    goes to the host of the URL, on its port or on 80, with the method
    and the headers as received; the body is written upstream only when
    it is not empty. *)
Theorem plain_request_forwarded_with_body (st : Proxy.ProxyServer) (T T' : Z)
    (method url : option string) (headers : Proxy.Headers)
    (chunks : list (Z * string)) (target : Proxy.URL) :
  Proxy.uncaught st = None ->
  URL_parse (Js.string_or url "") = Some target ->
  let h := length (Proxy.exchanges st) in
  let body := Proxy.chunks_text chunks.*2 in
  let request :=
    {| Proxy.id := "req_" +:+ pretty (Js.incr (Proxy.requestId st));
       Proxy.method := Js.string_or method "GET"; Proxy.url := Js.string_or url "";
       Proxy.headers := headers; Proxy.body := Js.string_or_undefined body;
       Proxy.timestamp := T; Proxy.response := None |} in
  let options :=
    {| Proxy.http_hostname := Proxy.hostname target;
       Proxy.http_port := Proxy.port_or_80 (Proxy.port target);
       Proxy.http_path := Proxy.pathname target +:+ Proxy.search target;
       Proxy.http_method := method; Proxy.http_headers := headers |} in
  let st' :=
    run st (Proxy.instant T (Proxy.On_request method url headers)
            :: Proxy.request_chunks h chunks
            ++ [Proxy.instant T' (Proxy.On_clientReq_end h)]) in
  Proxy.calls st'
  = Proxy.calls st ++ [Proxy.Emit_request request; Proxy.Http_request h options]
      ++ Proxy.write_if_body h body ++ [Proxy.ProxyReq_end h]
  /\ Proxy.exchanges st'
     = Proxy.exchanges st ++ [Proxy.HttpForwarded request T Proxy.Awaiting].
Proof.
  intros Hunc Hurl h body request options st'. unfold st'.
  rewrite run_cons, run_app.
  set (id := "req_" +:+ pretty (Js.incr (Proxy.requestId st))).
  assert (Hstep : exists st1,
            step st (Proxy.instant T (Proxy.On_request method url headers)) = st1
            /\ Proxy.uncaught st1 = None /\ Proxy.calls st1 = Proxy.calls st
            /\ Proxy.exchanges st1
               = Proxy.exchanges st
                 ++ [Proxy.HttpReading id T (Js.string_or url "") method headers ""]).
  { eexists. split; [reflexivity|]. unfold Proxy.step. rewrite Hunc. cbn.
    split; [exact Hunc|]. split; reflexivity. }
  destruct Hstep as (st1 & -> & Hunc1 & Hcalls1 & Hexs1).
  assert (He1 : Proxy.exchanges st1 !! h
                = Some (Proxy.HttpReading id T (Js.string_or url "") method headers "")).
  { rewrite Hexs1. apply list_lookup_middle. reflexivity. }
  rewrite (run_request_chunks h chunks st1 _ _ _ _ _ _ Hunc1 He1).
  change ("" +:+ Proxy.chunks_text chunks.*2) with body.
  set (st2 := Proxy.set_exchange h
                (Proxy.HttpReading id T (Js.string_or url "") method headers body) st1).
  assert (He2 : Proxy.exchanges st2 !! h
                = Some (Proxy.HttpReading id T (Js.string_or url "") method headers body)).
  { apply list_lookup_insert_eq. eapply lookup_lt_Some, He1. }
  assert (Hstep : run st2 [Proxy.instant T' (Proxy.On_clientReq_end h)]
                  = Proxy.clientReq_end URL_parse h st2).
  { cbn. unfold Proxy.step. cbn. rewrite Hunc1. reflexivity. }
  rewrite Hstep.
  destruct (clientReq_end_forwards h st2 id T _ method headers body target He2 Hurl)
    as [Hcalls Hexs].
  rewrite Hcalls, Hexs. cbn [st2 Proxy.calls Proxy.exchanges Proxy.set_exchange].
  rewrite Hcalls1. split; [reflexivity|].
  rewrite list_insert_insert_eq, Hexs1.
  replace h with (length (Proxy.exchanges st) + 0)%nat by (unfold h; lia).
  rewrite insert_app_r. reflexivity.
Qed.


(** X10. The upstream response of a decrypted frame of a MITM
    session: nothing is written to the client before the response ends;
    then one [response] event carries the status code, or 0 when there
    is none, and the chunks of the body in the order they came, and the
    whole response, head and body, is written in one piece to the TLS
    session of the client. *)
Theorem mitm_response_relayed (st : Proxy.ProxyServer) (h parent : Proxy.handle)
    (request : Proxy.NetworkRequest) (startTime T T' : Z) (sc : option Z)
    (sm : option string) (hs : Proxy.Headers) (chunks : list (Z * string)) :
  Proxy.uncaught st = None ->
  Proxy.exchanges st !! h
  = Some (Proxy.MitmChild request startTime parent Proxy.Awaiting) ->
  let st' :=
    run st (Proxy.instant T (Proxy.On_response h sc sm hs)
            :: Proxy.response_chunks h chunks) in
  let st'' := step st' (Proxy.instant T' (Proxy.On_proxyRes_end h)) in
  let body := Proxy.chunks_text chunks.*2 in
  let captured :=
    Proxy.set_response request
      {| Proxy.status := Js.number_or sc 0; Proxy.statusText := Js.string_or sm "";
         Proxy.response_headers := hs; Proxy.response_body := Some body;
         Proxy.duration := T' - startTime |} in
  Proxy.calls st' = Proxy.calls st
  /\ Proxy.calls st''
     = Proxy.calls st ++ [Proxy.Emit_response captured;
                          Proxy.TlsSocket_write parent (Proxy.raw_response sc sm hs body)]
  /\ Proxy.exchanges st''
     = <[h := Proxy.MitmChild captured startTime parent Proxy.Completed]>
         (Proxy.exchanges st).
Proof.
  intros Hunc He st' st'' body captured. unfold st'', st'. rewrite run_cons.
  pose proof (lookup_lt_Some _ _ _ He) as Hlt.
  set (st1 := step st (Proxy.instant T (Proxy.On_response h sc sm hs))).
  assert (H1 : Proxy.uncaught st1 = None
               /\ Proxy.calls st1 = Proxy.calls st
               /\ Proxy.exchanges st1
                  = <[h := Proxy.MitmChild request startTime parent
                             (Proxy.Receiving sc sm hs "")]> (Proxy.exchanges st)).
  { unfold st1, Proxy.step. rewrite Hunc. cbn. unfold Proxy.proxyReq_response.
    rewrite He. cbn. split_and!; [exact Hunc|reflexivity..]. }
  destruct H1 as (Hunc1 & Hcalls1 & Hexs1).
  assert (He1 : Proxy.exchanges st1 !! h
                = Some (Proxy.MitmChild request startTime parent
                          (Proxy.Receiving sc sm hs ""))).
  { rewrite Hexs1. apply list_lookup_insert_eq, Hlt. }
  rewrite (run_response_chunks_mitm h chunks st1 _ _ _ _ _ _ _ Hunc1 He1).
  change ("" +:+ Proxy.chunks_text chunks.*2) with body.
  split; [exact Hcalls1|].
  match goal with
  | |- context [step ?s _] => set (st2 := s)
  end.
  assert (He2 : Proxy.exchanges st2 !! h
                = Some (Proxy.MitmChild request startTime parent
                          (Proxy.Receiving sc sm hs body))).
  { apply list_lookup_insert_eq. rewrite Hexs1, length_insert. exact Hlt. }
  assert (Hstep : step st2 (Proxy.instant T' (Proxy.On_proxyRes_end h))
                  = Proxy.proxyRes_end T' h st2).
  { unfold Proxy.step. cbn. rewrite Hunc1. reflexivity. }
  rewrite Hstep. unfold Proxy.proxyRes_end. rewrite He2.
  cbn [st2 Proxy.calls Proxy.exchanges Proxy.set_exchange Proxy.call].
  rewrite Hcalls1, Hexs1, !list_insert_insert_eq, <- app_assoc.
  split; reflexivity.
Qed.

End PlainExchange.

Lemma plain_request_forwarded_with_body_witness :
  exists target request options,
    Demo.URL_parse (Js.string_or (Some "http://example.com:8080/submit") "") = Some target
    /\ Proxy.calls
         (Proxy.run Demo.home Demo.openssl_fails Demo.URL_parse
            (Proxy.configured None Demo.empty_world)
            (Proxy.instant 200
               (Proxy.On_request (Some "POST") (Some "http://example.com:8080/submit") [])
             :: Proxy.request_chunks 0 [(201, "a=1"); (202, "&b=2")]
             ++ [Proxy.instant 205 (Proxy.On_clientReq_end 0%nat)]))
       = [] ++ [Proxy.Emit_request request; Proxy.Http_request 0 options]
            ++ [Proxy.ProxyReq_write 0 "a=1&b=2"] ++ [Proxy.ProxyReq_end 0]
    /\ Proxy.body request = Some "a=1&b=2"
    /\ Proxy.timestamp request = 200
    /\ Proxy.http_port options = Proxy.PortText "8080".
Proof.
  eexists _, _, _. split; [vm_compute; reflexivity|]. split.
  - refine (proj1 (plain_request_forwarded_with_body
                     Demo.home Demo.openssl_fails Demo.URL_parse
                     (Proxy.configured None Demo.empty_world) 200 205 (Some "POST")
                     (Some "http://example.com:8080/submit") []
                     [(201, "a=1"); (202, "&b=2")] _ eq_refl _)).
    vm_compute. reflexivity.
  - split_and!; reflexivity.
Defined.


Lemma mitm_response_relayed_witness :
  exists request captured,
    Proxy.exchanges
      (Proxy.run Demo.home Demo.openssl_works Demo.URL_parse
         (Proxy.configured (Some ("ca.key", "ca.crt")) Demo.issued_world)
         Demo.mitm_session) !! 1%nat
    = Some (Proxy.MitmChild request 150 0 Proxy.Awaiting)
    /\ Proxy.calls
         (Proxy.step Demo.home Demo.openssl_works Demo.URL_parse
            (Proxy.run Demo.home Demo.openssl_works Demo.URL_parse
               (Proxy.run Demo.home Demo.openssl_works Demo.URL_parse
                  (Proxy.configured (Some ("ca.key", "ca.crt")) Demo.issued_world)
                  Demo.mitm_session)
               (Proxy.instant 160
                  (Proxy.On_response 1%nat (Some 201) (Some "Created")
                     [("content-length", Proxy.One "2")])
                :: Proxy.response_chunks 1 [(161, "o"); (162, "k")]))
            (Proxy.instant 170 (Proxy.On_proxyRes_end 1%nat)))
       = Proxy.calls
           (Proxy.run Demo.home Demo.openssl_works Demo.URL_parse
              (Proxy.configured (Some ("ca.key", "ca.crt")) Demo.issued_world)
              Demo.mitm_session)
         ++ [Proxy.Emit_response captured;
             Proxy.TlsSocket_write 0
               ("HTTP/1.1 201 Created" +:+ Js.CRLF +:+ "content-length: 2" +:+ Js.CRLF
                +:+ Js.CRLF +:+ "ok")].
Proof.
  eexists _, _. split; [vm_compute; reflexivity|].
  refine (proj1 (proj2 (mitm_response_relayed
                          Demo.home Demo.openssl_works Demo.URL_parse
                          (Proxy.run Demo.home Demo.openssl_works Demo.URL_parse
                             (Proxy.configured (Some ("ca.key", "ca.crt"))
                                Demo.issued_world)
                             Demo.mitm_session)
                          1%nat 0%nat _ 150 160 170 (Some 201) (Some "Created")
                          [("content-length", Proxy.One "2")]
                          [(161, "o"); (162, "k")] _ _))).
  - vm_compute. reflexivity.
  - vm_compute. reflexivity.
Defined.

(** ** Tunnel mode *)


Section TunnelMode.

Variable homedir : string.
Variable run_command : string -> Certificate.FS -> option Certificate.FS.
Variable URL_parse : string -> option Proxy.URL.

Notation step := (Proxy.step homedir run_command URL_parse).
Notation run := (Proxy.run homedir run_command URL_parse).

Lemma step_tunnel_mode (w : Certificate.World) (st : Proxy.ProxyServer) (t : Proxy.Turn) :
  Proxy.tunnel_mode w st -> Proxy.tunnel_mode w (step st t).
Proof.
  intros (Hca & Hw & Hcalls & Hexs).
  destruct t as [now later []]; step_cases.
  all: try congruence.
  all: try match goal with
       | H : Proxy.exchanges _ !! _ = Some (Proxy.Mitm _ _ _) |- _ =>
           eapply Forall_lookup_1 in H; [|exact Hexs]; discriminate H
       | H : Proxy.exchanges _ !! _ = Some (Proxy.MitmChild _ _ _ _) |- _ =>
           eapply Forall_lookup_1 in H; [|exact Hexs]; discriminate H
       end.
  all: split_and!; try assumption; try reflexivity.
  all: unfold Proxy.new_exchange, Proxy.call, Proxy.set_exchange, Proxy.throw_uncaught,
         Proxy.set_world; cbn.
  all: repeat match goal with
       | |- Forall _ (<[_ := _]> _) => apply Forall_insert
       | |- Forall _ (_ ++ [_]) => apply Forall_app_2; [|apply Forall_singleton]
       end; try assumption; try reflexivity.
Qed.

(** X11. A proxy that was started never intercepts: [start] clears
    the root certificate, so every CONNECT is tunnelled; whatever events
    follow, no TLS session is opened towards a client, no request is
    made for a decrypted frame, no certificate command is run and the
    files of the host are left as they are. *)
Theorem started_proxy_never_intercepts (c : option (string * string))
    (w : Certificate.World) (port : Z) (turns : list Proxy.Turn) :
  let st := run (Proxy.start port (Proxy.configured c w)) turns in
  Proxy.world st = w
  /\ Forall (fun c => Proxy.intercepts c = false) (Proxy.calls st)
  /\ Forall (fun e => Proxy.intercepted e = false) (Proxy.exchanges st).
Proof.
  intros st.
  cut (Proxy.tunnel_mode w st); [intros (_ & Hw & Hcalls & Hexs); auto|].
  apply (run_invariant homedir run_command URL_parse (Proxy.tunnel_mode w)).
  - intros st0 t. apply step_tunnel_mode.
  - split_and!; [reflexivity|reflexivity|constructor|constructor].
Qed.


End TunnelMode.


(** ** MITM mode *)

Section Interception.

Variable homedir : string.
Variable run_command : string -> Certificate.FS -> option Certificate.FS.
Variable URL_parse : string -> option Proxy.URL.

Notation step := (Proxy.step homedir run_command URL_parse).


(** X14. In MITM mode, when [generateHostCert] returns and the key or
    the certificate of the host cannot be read, the
    [200 Connection Established] reply has been written before the
    handler falls back to tunnel mode; the tunnel writes the reply again
    once the upstream connects, so the client is sent the reply twice. *)
Theorem mitm_unreadable_leaf_replies_twice (st : Proxy.ProxyServer) (now later : Z)
    (url : option string) (headers : Proxy.Headers) (head : string)
    (cert : string * string) (paths : Certificate.HostCertPaths)
    (w1 : Certificate.World) :
  Proxy.caCert st = Some cert -> Proxy.uncaught st = None ->
  Certificate.generateHostCert homedir run_command (Proxy.connect_target url).1
    (Proxy.world st) = (Certificate.Ok paths, w1) ->
  Certificate.files (Certificate.disk w1) !! Certificate.host_key paths = None
  \/ Certificate.files (Certificate.disk w1) !! Certificate.host_cert paths = None ->
  Proxy.valid_port (Proxy.connect_target url).2 = true ->
  let h := length (Proxy.exchanges st) in
  let st' := Proxy.handleConnect homedir run_command now later url headers head st in
  (exists request,
     Proxy.calls st'
     = Proxy.calls st
       ++ [Proxy.Emit_request request;
           Proxy.ClientSocket_write h Proxy.CONNECTION_ESTABLISHED;
           Proxy.Net_connect h (Proxy.connect_target url).2 (Proxy.connect_target url).1])
  /\ forall t,
       Proxy.event t = Proxy.On_serverSocket_connect h ->
       Proxy.client_writes h (Proxy.calls (step st' t))
       = Proxy.client_writes h (Proxy.calls st)
         ++ [Proxy.CONNECTION_ESTABLISHED; Proxy.CONNECTION_ESTABLISHED].
Proof.
  intros Hca Hunc Hgen Hread Hport h st'.
  set (request :=
         {| Proxy.id := (Proxy.next_id st).1; Proxy.method := "CONNECT";
            Proxy.url := "https://" +:+ Js.to_string url; Proxy.headers := headers;
            Proxy.body := None; Proxy.timestamp := now; Proxy.response := None |}).
  assert (Hst' :
            st' = Proxy.new_exchange (Proxy.Tunnel request head Proxy.Dialing)
                    (Proxy.call
                       (Proxy.Net_connect h (Proxy.connect_target url).2
                          (Proxy.connect_target url).1)
                       (Proxy.call
                          (Proxy.ClientSocket_write h Proxy.CONNECTION_ESTABLISHED)
                          (Proxy.set_world w1
                             (Proxy.call (Proxy.Emit_request request)
                                {| Proxy.server := Proxy.server st;
                                   Proxy.requestId := Js.incr (Proxy.requestId st);
                                   Proxy.caCert := Some cert;
                                   Proxy.exchanges := Proxy.exchanges st;
                                   Proxy.calls := Proxy.calls st;
                                   Proxy.world := Proxy.world st;
                                   Proxy.uncaught := Proxy.uncaught st |}))))).
  { unfold st', Proxy.handleConnect.
    destruct (Proxy.connect_target url) as [host targetPort]. cbn [fst snd] in *.
    cbn [Proxy.next_id Proxy.call Proxy.caCert]. rewrite Hca.
    unfold Proxy.handleHttpsWithMitm. cbn [Proxy.world Proxy.call]. rewrite Hgen.
    unfold Certificate.readFileSync. unfold Proxy.handleHttpsTunnel. rewrite Hport.
    destruct Hread as [Hread|Hread].
    - rewrite Hread. reflexivity.
    - rewrite Hread.
      destruct (Certificate.files (Certificate.disk w1) !! Certificate.host_key paths);
        reflexivity. }
  rewrite Hst'. split.
  - exists request. cbn. rewrite <- !app_assoc. reflexivity.
  - intros [now' later' ev] Hev. cbn in Hev. subst ev.
    unfold Proxy.step, Proxy.serverSocket_connect. cbn. rewrite Hunc.
    fold h. rewrite (list_lookup_middle (Proxy.exchanges st) [] _ h eq_refl). cbn.
    unfold Proxy.client_writes. rewrite <- !app_assoc. rewrite omap_app. cbn.
    rewrite !decide_True by reflexivity. reflexivity.
Qed.

End Interception.


Lemma mitm_unreadable_leaf_replies_twice_witness :
  Certificate.generateHostCert Demo.home Demo.openssl_without_keys
    (Proxy.connect_target (Some "example.com:443")).1
    (Proxy.world (Proxy.configured (Some ("ca.key", "ca.crt")) Demo.issued_world))
  = (Certificate.Ok
       {| Certificate.host_key := "/home/dev/.devlens/certs/example.com.key";
          Certificate.host_cert := "/home/dev/.devlens/certs/example.com.crt" |},
     (Certificate.generateHostCert Demo.home Demo.openssl_without_keys "example.com"
        Demo.issued_world).2)
  /\ Certificate.files
       (Certificate.disk
          (Certificate.generateHostCert Demo.home Demo.openssl_without_keys "example.com"
             Demo.issued_world).2)
       !! "/home/dev/.devlens/certs/example.com.key" = None
  /\ Proxy.client_writes 0
       (Proxy.calls
          (Proxy.step Demo.home Demo.openssl_without_keys Demo.URL_parse
             (Proxy.handleConnect Demo.home Demo.openssl_without_keys 100 180
                (Some "example.com:443") [] ""
                (Proxy.configured (Some ("ca.key", "ca.crt")) Demo.issued_world))
             (Demo.turn 200 (Proxy.On_serverSocket_connect 0%nat))))
     = [] ++ [Proxy.CONNECTION_ESTABLISHED; Proxy.CONNECTION_ESTABLISHED].
Proof.
  assert (Hgen :
    Certificate.generateHostCert Demo.home Demo.openssl_without_keys
      (Proxy.connect_target (Some "example.com:443")).1
      (Proxy.world (Proxy.configured (Some ("ca.key", "ca.crt")) Demo.issued_world))
    = (Certificate.Ok
         {| Certificate.host_key := "/home/dev/.devlens/certs/example.com.key";
            Certificate.host_cert := "/home/dev/.devlens/certs/example.com.crt" |},
       (Certificate.generateHostCert Demo.home Demo.openssl_without_keys "example.com"
          Demo.issued_world).2)) by (vm_compute; reflexivity).
  assert (Hread :
    Certificate.files
      (Certificate.disk
         (Certificate.generateHostCert Demo.home Demo.openssl_without_keys "example.com"
            Demo.issued_world).2)
      !! "/home/dev/.devlens/certs/example.com.key" = None) by (vm_compute; reflexivity).
  split; [exact Hgen|]. split; [exact Hread|].
  refine (proj2 (mitm_unreadable_leaf_replies_twice
                   Demo.home Demo.openssl_without_keys Demo.URL_parse
                   (Proxy.configured (Some ("ca.key", "ca.crt")) Demo.issued_world)
                   100 180 (Some "example.com:443") [] "" ("ca.key", "ca.crt") _ _
                   eq_refl eq_refl Hgen (or_introl Hread) _)
            (Demo.turn 200 (Proxy.On_serverSocket_connect 0%nat)) eq_refl).
  vm_compute. reflexivity.
Defined.

(** ** certificate.ts: what issuance runs and leaves behind *)

Section IssuanceRuns.

Variable homedir : string.
Variable run_command : string -> Certificate.FS -> option Certificate.FS.




(** X16. When [generateHostCert] returns, it returns the paths of the
    key and of the certificate of the host below [CERT_DIR]; and either
    it ran no command, or it ran the three commands that generate the
    key, the signing request and the certificate, in that order, and
    neither the signing request nor the extension file is left on
    disk. *)
Theorem host_issuance_success (hostname : string) (w w' : Certificate.World)
    (paths : Certificate.HostCertPaths) :
  Certificate.generateHostCert homedir run_command hostname w = (Certificate.Ok paths, w') ->
  let hostKey := Certificate.path_join (Certificate.CERT_DIR homedir) (hostname +:+ ".key") in
  let hostCert := Certificate.path_join (Certificate.CERT_DIR homedir) (hostname +:+ ".crt") in
  let csrPath := Certificate.path_join (Certificate.CERT_DIR homedir) (hostname +:+ ".csr") in
  let extPath := Certificate.path_join (Certificate.CERT_DIR homedir) (hostname +:+ ".ext") in
  paths = {| Certificate.host_key := hostKey; Certificate.host_cert := hostCert |}
  /\ (Certificate.execs w' = Certificate.execs w
      \/ Certificate.execs w'
         = Certificate.execs w
           ++ [Certificate.host_genrsa_command hostKey;
               Certificate.host_csr_command hostname hostKey csrPath;
               Certificate.host_sign_command homedir csrPath hostCert extPath]
         /\ Certificate.files (Certificate.disk w') !! csrPath = None
         /\ Certificate.files (Certificate.disk w') !! extPath = None).
Proof.
  intros Hgen hostKey hostCert csrPath extPath.
  destruct (ensureCertDir_files homedir run_command w) as (w1 & Hensure & Hexecs & _).
  revert Hgen.
  unfold Certificate.generateHostCert, Certificate.bind at 1. rewrite Hensure.
  unfold Certificate.bind, Certificate.existsSync.
  fold hostKey hostCert csrPath extPath.
  unfold Certificate.execSync, Certificate.writeFileSync, Certificate.unlinkSync,
    Certificate.ret. cbn.
  repeat case_match; simplify_eq; cbn; intros Hgen; simplify_eq; cbn.
  all: split; [reflexivity|].
  all: first [ left; exact Hexecs | right ].
  rewrite Hexecs, <- !app_assoc. split; [reflexivity|].
  split.
  - apply lookup_delete_None. right. apply lookup_delete_None. left. reflexivity.
  - apply lookup_delete_None. left. reflexivity.
Qed.

(** X17. When [generateHostCert] throws because the signing command
    failed, after the commands that generate the key and the signing
    request succeeded, the extension file it wrote for the host is left
    on disk: the cleanup is not reached. *)
Theorem host_signing_failure_leaves_extension_file (hostname : string)
    (w w' : Certificate.World) (genrsa csr sign : string) :
  Certificate.generateHostCert homedir run_command hostname w
  = (Certificate.Throw "Command failed", w') ->
  Certificate.execs w' = Certificate.execs w ++ [genrsa; csr; sign] ->
  let extPath := Certificate.path_join (Certificate.CERT_DIR homedir) (hostname +:+ ".ext") in
  Certificate.files (Certificate.disk w') !! extPath
  = Some (Certificate.host_ext_file hostname).
Proof.
  intros Hgen Hlog extPath.
  destruct (ensureCertDir_files homedir run_command w) as (w1 & Hensure & Hexecs & _).
  revert Hgen.
  unfold Certificate.generateHostCert, Certificate.bind at 1. rewrite Hensure.
  unfold Certificate.bind, Certificate.existsSync.
  fold extPath.
  unfold Certificate.execSync, Certificate.writeFileSync, Certificate.unlinkSync,
    Certificate.ret. cbn.
  repeat case_match; simplify_eq; cbn; intros Hgen; simplify_eq; cbn in *.
  all: try (rewrite Hexecs in Hlog; rewrite <- ?app_assoc in Hlog;
            apply app_inv_head in Hlog; discriminate Hlog).
  apply lookup_insert_eq.
Qed.

End IssuanceRuns.


Lemma host_issuance_success_witness :
  Certificate.generateHostCert Demo.home Demo.openssl_works "example.com" Demo.issued_world
  = (Certificate.Ok
       {| Certificate.host_key := "/home/dev/.devlens/certs/example.com.key";
          Certificate.host_cert := "/home/dev/.devlens/certs/example.com.crt" |},
     Demo.cached_world)
  /\ length (Certificate.execs Demo.cached_world)
     = (length (Certificate.execs Demo.issued_world) + 3)%nat
  /\ Certificate.files (Certificate.disk Demo.cached_world)
       !! Certificate.path_join (Certificate.CERT_DIR Demo.home) ("example.com" +:+ ".csr")
     = None.
Proof.
  assert (Hgen :
    Certificate.generateHostCert Demo.home Demo.openssl_works "example.com"
      Demo.issued_world
    = (Certificate.Ok
         {| Certificate.host_key := "/home/dev/.devlens/certs/example.com.key";
            Certificate.host_cert := "/home/dev/.devlens/certs/example.com.crt" |},
       Demo.cached_world)) by (vm_compute; reflexivity).
  split; [exact Hgen|].
  destruct (host_issuance_success Demo.home Demo.openssl_works "example.com"
              Demo.issued_world Demo.cached_world _ Hgen)
    as [_ [Hsame|(Hlog & Hcsr & _)]].
  - vm_compute in Hsame. discriminate Hsame.
  - split; [|exact Hcsr]. rewrite Hlog, length_app. reflexivity.
Defined.

Lemma host_signing_failure_leaves_extension_file_witness :
  Certificate.generateHostCert Demo.home Demo.openssl_cannot_sign "example.com"
    Demo.empty_world
  = (Certificate.Throw "Command failed",
     (Certificate.generateHostCert Demo.home Demo.openssl_cannot_sign "example.com"
        Demo.empty_world).2)
  /\ Certificate.files
       (Certificate.disk
          (Certificate.generateHostCert Demo.home Demo.openssl_cannot_sign "example.com"
             Demo.empty_world).2)
       !! Certificate.path_join (Certificate.CERT_DIR Demo.home) ("example.com" +:+ ".ext")
     = Some (Certificate.host_ext_file "example.com").
Proof.
  assert (Hgen :
    Certificate.generateHostCert Demo.home Demo.openssl_cannot_sign "example.com"
      Demo.empty_world
    = (Certificate.Throw "Command failed",
       (Certificate.generateHostCert Demo.home Demo.openssl_cannot_sign "example.com"
          Demo.empty_world).2)) by (vm_compute; reflexivity).
  split; [exact Hgen|].
  refine (host_signing_failure_leaves_extension_file Demo.home Demo.openssl_cannot_sign
            "example.com" Demo.empty_world _ _ _ _ Hgen _).
  vm_compute. reflexivity.
Defined.

(** ** server/index.ts: the routes and the sockets of the dashboard *)

Lemma omap_split {A B : Type} (f : A -> option B) (l : list A) (a c : list B) (b : B) :
  omap f l = a ++ b :: c ->
  exists l1 x l2, l = l1 ++ x :: l2 /\ omap f l1 = a /\ f x = Some b /\ omap f l2 = c.
Proof.
  revert a. induction l as [|y l IH]; intros a Heq.
  - destruct a; discriminate Heq.
  - cbn in Heq. destruct (f y) as [z|] eqn:Hy.
    + destruct a as [|a0 a].
      * injection Heq as -> Heq. exists [], y, l. cbn. auto.
      * injection Heq as -> Heq. destruct (IH a Heq) as (l1 & x & l2 & -> & H1 & Hx & H2).
        exists (y :: l1), x, l2. cbn. rewrite Hy, H1. auto.
    + destruct (IH a Heq) as (l1 & x & l2 & -> & H1 & Hx & H2).
      exists (y :: l1), x, l2. cbn. rewrite Hy. auto.
Qed.

Section DashboardServer.

Variable homedir : string.
Variable run_command : string -> Certificate.FS -> option Certificate.FS.
Variable URL_parse : string -> option Proxy.URL.

Notation step := (Proxy.step homedir run_command URL_parse).
Notation run := (Proxy.run homedir run_command URL_parse).
Notation act := (Proxy.act homedir run_command URL_parse).

Lemma calls_run (st : Proxy.ProxyServer) (turns : list Proxy.Turn) :
  exists new, Proxy.calls (run st turns) = Proxy.calls st ++ new.
Proof.
  revert st. induction turns as [|t turns IH]; intros st.
  - exists []. cbn. rewrite app_nil_r. reflexivity.
  - cbn. destruct (IH (step st t)) as [new Hnew].
    fold (run (step st t) turns). rewrite Hnew.
    rewrite (calls_step homedir run_command URL_parse st t), <- app_assoc. eauto.
Qed.

(** X18. Whatever the proxy has been through since the process
    booted, started or stopped any number of times, the route
    [/api/ca-cert] answers 404 with the text
    [CA certificate not available], never a download, and the route
    [/api/ca-cert/path] answers a [null] path. *)
Theorem ca_routes_answer_no_certificate (w : Certificate.World)
    (actions : list Proxy.Action) :
  let p := fold_left act actions (Proxy.boot w) in
  Dashboard.ca_cert homedir p = Dashboard.Status_error 404 "CA certificate not available"
  /\ Dashboard.ca_cert_path homedir p = Dashboard.Json_path None.
Proof.
  intros p.
  assert (Hnone : Proxy.getProxyCACertPath homedir p = None).
  { unfold Proxy.getProxyCACertPath, Proxy.getCACertPath.
    destruct (Proxy.proxyInstance p) as [st|] eqn:E; [|reflexivity].
    rewrite (process_caCert homedir run_command URL_parse actions (Proxy.boot w))
      with (st := st); [reflexivity| |exact E].
    intros st0. discriminate. }
  unfold Dashboard.ca_cert, Dashboard.ca_cert_path. rewrite Hnone. split; reflexivity.
Qed.

(** X19. A dashboard socket is sent the [request] and the [response]
    events the proxy emits after the socket connected. A [response]
    message it is sent follows a [request] message it was sent about
    the same exchange, unless the [request] event of that exchange was
    emitted before the socket connected. *)
Theorem dashboard_response_follows_request (c : option (string * string))
    (w : Certificate.World) (pre post : list Proxy.Turn)
    (before after : list Dashboard.SocketEmit) (req : Proxy.NetworkRequest) :
  let seen := Proxy.calls (run (Proxy.configured c w) pre) in
  let all := Proxy.calls (run (Proxy.configured c w) (pre ++ post)) in
  Dashboard.socket_feed seen all = before ++ Dashboard.Network_response req :: after ->
  (exists req', Dashboard.Network_request req' ∈ before /\ Proxy.id req' = Proxy.id req)
  \/ Proxy.id req ∈ Proxy.requested seen.
Proof.
  intros seen all Hfeed.
  destruct (calls_run (run (Proxy.configured c w) pre) post) as [new Hnew].
  rewrite <- (run_app homedir run_command URL_parse) in Hnew. fold seen all in Hnew.
  unfold Dashboard.socket_feed in Hfeed. rewrite Hnew, drop_app_length in Hfeed.
  apply omap_split in Hfeed as (l1 & x & l2 & -> & H1 & Hx & H2).
  destruct x; try discriminate Hx. cbn in Hx. injection Hx as ->.
  destruct (run_ordering homedir run_command URL_parse c w (pre ++ post)) as [Hfirst _].
  fold all in Hfirst. rewrite Hnew in Hfirst.
  specialize (Hfirst (seen ++ l1) (Proxy.Emit_response req) l2 (Proxy.id req)).
  rewrite <- app_assoc in Hfirst. specialize (Hfirst eq_refl eq_refl).
  rewrite requested_app in Hfirst. apply elem_of_app in Hfirst as [Hseen|Hnew1].
  - right. exact Hseen.
  - left. unfold Proxy.requested in Hnew1.
    apply list_elem_of_omap in Hnew1 as (call & Hin & Hid).
    destruct call; try discriminate Hid. injection Hid as Hid.
    exists request. split; [|exact Hid]. rewrite <- H1.
    apply list_elem_of_omap. exists (Proxy.Emit_request request). auto.
Qed.

End DashboardServer.

Lemma dashboard_response_follows_request_witness :
  exists req0 req,
    Dashboard.socket_feed
      (Proxy.calls (Proxy.run Demo.home Demo.openssl_fails Demo.URL_parse
                      (Proxy.configured None Demo.empty_world) (take 2 Demo.two_exchanges)))
      (Proxy.calls (Proxy.run Demo.home Demo.openssl_fails Demo.URL_parse
                      (Proxy.configured None Demo.empty_world)
                      (take 2 Demo.two_exchanges ++ drop 2 Demo.two_exchanges)))
    = [Dashboard.Network_request req0] ++ Dashboard.Network_response req :: []
    /\ ((exists req', Dashboard.Network_request req' ∈ [Dashboard.Network_request req0]
                      /\ Proxy.id req' = Proxy.id req)
        \/ Proxy.id req
           ∈ Proxy.requested
               (Proxy.calls (Proxy.run Demo.home Demo.openssl_fails Demo.URL_parse
                               (Proxy.configured None Demo.empty_world)
                               (take 2 Demo.two_exchanges)))).
Proof.
  eexists _, _.
  assert (Hfeed :
    Dashboard.socket_feed
      (Proxy.calls (Proxy.run Demo.home Demo.openssl_fails Demo.URL_parse
                      (Proxy.configured None Demo.empty_world) (take 2 Demo.two_exchanges)))
      (Proxy.calls (Proxy.run Demo.home Demo.openssl_fails Demo.URL_parse
                      (Proxy.configured None Demo.empty_world)
                      (take 2 Demo.two_exchanges ++ drop 2 Demo.two_exchanges)))
    = [Dashboard.Network_request _] ++ Dashboard.Network_response _ :: [])
    by (vm_compute; reflexivity).
  split; [exact Hfeed|].
  exact (dashboard_response_follows_request Demo.home Demo.openssl_fails Demo.URL_parse
           None Demo.empty_world (take 2 Demo.two_exchanges) (drop 2 Demo.two_exchanges)
           _ _ _ Hfeed).
Defined.

(** ** The chunks of a MITM session *)


Lemma requested_write_if_body (h : nat) (body : string) :
  Proxy.requested (Proxy.write_if_body h body) = [].
Proof. destruct body; reflexivity. Qed.


Section Frames.

Variable homedir : string.
Variable run_command : string -> Certificate.FS -> option Certificate.FS.
Variable URL_parse : string -> option Proxy.URL.

Notation step := (Proxy.step homedir run_command URL_parse).
Notation run := (Proxy.run homedir run_command URL_parse).



End Frames.


(** ** The [request] event of an exchange *)

Section Requests.

Variable homedir : string.
Variable run_command : string -> Certificate.FS -> option Certificate.FS.
Variable URL_parse : string -> option Proxy.URL.

Notation step := (Proxy.step homedir run_command URL_parse).
Notation run := (Proxy.run homedir run_command URL_parse).

Ltac requested_eq :=
  unfold Proxy.requested; rewrite ?omap_app; cbn; rewrite ?app_nil_r; reflexivity.

(** How one turn changes the exchanges and the [request] events: either
    no [request] event is emitted, and the exchanges are as before, or
    one of them is updated, or a plain HTTP request whose body is to be
    read is added; or one [request] event is emitted, for a plain HTTP
    request whose body has been read, or for the exchange added in this
    turn. *)
Lemma step_requests_shape (st : Proxy.ProxyServer) (t : Proxy.Turn) :
  (Proxy.requested (Proxy.calls (step st t)) = Proxy.requested (Proxy.calls st)
   /\ (Proxy.exchanges (step st t) = Proxy.exchanges st
       \/ (exists h e e',
             Proxy.exchanges st !! h = Some e
             /\ Proxy.exchanges (step st t) = <[h := e']> (Proxy.exchanges st)
             /\ Proxy.exchange_id e' = Proxy.exchange_id e
             /\ Proxy.requests_of e' = Proxy.requests_of e)
       \/ (exists e,
             Proxy.exchanges (step st t) = Proxy.exchanges st ++ [e]
             /\ Proxy.requests_of e = 0%nat)))
  \/ (exists h e e',
        Proxy.exchanges st !! h = Some e
        /\ Proxy.exchanges (step st t) = <[h := e']> (Proxy.exchanges st)
        /\ Proxy.exchange_id e' = Proxy.exchange_id e
        /\ Proxy.requests_of e = 0%nat /\ Proxy.requests_of e' = 1%nat
        /\ Proxy.requested (Proxy.calls (step st t))
           = Proxy.requested (Proxy.calls st) ++ [Proxy.exchange_id e])
  \/ (exists e,
        Proxy.exchanges (step st t) = Proxy.exchanges st ++ [e]
        /\ Proxy.requests_of e = 1%nat
        /\ Proxy.requested (Proxy.calls (step st t))
           = Proxy.requested (Proxy.calls st) ++ [Proxy.exchange_id e]).
Proof.
  destruct t as [now later []]; step_cases.
  all: first
    [ left; split; [requested_eq|];
      first
        [ left; reflexivity
        | right; left; eexists _, _, _; split_and!; [eassumption|reflexivity..]
        | right; right; eexists; split_and!; reflexivity ]
    | right; left; eexists _, _, _; split_and!; [eassumption|reflexivity..|requested_eq]
    | right; right; eexists; split_and!; [reflexivity|reflexivity|requested_eq] ].
Qed.

Lemma step_requests_invariant (st : Proxy.ProxyServer) (t : Proxy.Turn) :
  Proxy.ids_consistent st -> Proxy.ids_consistent (step st t) ->
  Proxy.requests_invariant st -> Proxy.requests_invariant (step st t).
Proof.
  intros Hids Hids' Hinv Hbound'.
  unfold Proxy.requests_invariant, Proxy.request_count in *.
  assert (Hfresh : forall e,
            Proxy.exchanges (step st t) = Proxy.exchanges st ++ [e] ->
            Proxy.exchange_id e ∉ Proxy.exchange_id <$> Proxy.exchanges st).
  { intros e Hexs Hin. apply list_elem_of_fmap in Hin as (e1 & Heq & Hin).
    apply list_elem_of_lookup in Hin as [k Hk].
    assert (k = length (Proxy.exchanges st)) as ->.
    { apply (ids_injective (step st t) _ _ e1 e Hids' Hbound').
      - rewrite Hexs. apply lookup_app_l_Some, Hk.
      - rewrite Hexs. apply list_lookup_middle. reflexivity.
      - congruence. }
    apply lookup_lt_Some in Hk. lia. }
  destruct (step_requests_shape st t)
    as [[Hres [Hexs|[(h & e & e' & He & Hexs & Hid & Hof)|(e & Hexs & Hof)]]]
       |[(h & e & e' & He & Hexs & Hid & Hof & Hof' & Hres)
        |(e & Hexs & Hof & Hres)]].
  - rewrite Hres, Hexs in *. apply Hinv, Hbound'.
  - rewrite Hexs, length_insert in Hbound'. destruct (Hinv Hbound') as [Hmem Hcnt].
    rewrite Hres, Hexs. split.
    + intros i Hi. rewrite list_fmap_insert, Hid.
      rewrite list_insert_id; [apply Hmem, Hi|].
      rewrite list_lookup_fmap, He. reflexivity.
    + intros h0 e0 H0.
      apply list_lookup_insert_Some in H0 as [(-> & -> & _)|[_ H0]]; [|eauto].
      rewrite Hid, Hof. eauto.
  - pose proof Hbound' as Hbound. rewrite Hexs, length_app in Hbound. cbn in Hbound.
    destruct Hinv as [Hmem Hcnt]; [lia|]. specialize (Hfresh e Hexs).
    rewrite Hres, Hexs. split.
    + intros i Hi. rewrite fmap_app. apply elem_of_app. left. apply Hmem, Hi.
    + intros h0 e0 H0. apply lookup_app_Some in H0 as [H0|[Hlen H0]]; [eauto|].
      apply list_lookup_singleton_Some in H0 as [Hh0 <-]. rewrite Hof.
      apply count_absent. intros Hin. apply Hfresh, Hmem, Hin.
  - rewrite Hexs, length_insert in Hbound'. destruct (Hinv Hbound') as [Hmem Hcnt].
    rewrite Hres, Hexs. split.
    + intros i Hi. rewrite list_fmap_insert, Hid.
      rewrite list_insert_id by (rewrite list_lookup_fmap, He; reflexivity).
      apply elem_of_app in Hi as [Hi|Hi]; [apply Hmem, Hi|].
      apply list_elem_of_singleton in Hi as ->.
      apply list_elem_of_fmap. exists e. split; [reflexivity|].
      eapply list_elem_of_lookup_2, He.
    + intros h0 e0 H0. rewrite error_count_snoc.
      apply list_lookup_insert_Some in H0 as [(<- & <- & _)|[Hne H0]].
      * rewrite Hid, Hof'. rewrite decide_True by reflexivity.
        rewrite (Hcnt h e He), Hof. reflexivity.
      * rewrite decide_False.
        -- pose proof (Hcnt h0 e0 H0) as Hc. lia.
        -- intros Heq. apply Hne.
           apply (ids_injective st h h0 e e0 Hids Hbound' He H0 Heq).
  - pose proof Hbound' as Hbound. rewrite Hexs, length_app in Hbound. cbn in Hbound.
    destruct Hinv as [Hmem Hcnt]; [lia|]. specialize (Hfresh e Hexs).
    rewrite Hres, Hexs. split.
    + intros i Hi. rewrite fmap_app. apply elem_of_app.
      apply elem_of_app in Hi as [Hi|Hi]; [left; apply Hmem, Hi|right].
      exact Hi.
    + intros h0 e0 H0. rewrite error_count_snoc.
      apply lookup_app_Some in H0 as [H0|[Hlen H0]].
      * rewrite decide_False; [pose proof (Hcnt h0 e0 H0); lia|].
        intros Heq. apply Hfresh. rewrite Heq.
        apply list_elem_of_fmap. exists e0. split; [reflexivity|].
        eapply list_elem_of_lookup_2, H0.
      * apply list_lookup_singleton_Some in H0 as [Hh0 <-].
        rewrite decide_True by reflexivity.
        assert (Hnot : Proxy.exchange_id e ∉ Proxy.requested (Proxy.calls st))
          by (intros Hin; apply Hfresh, Hmem, Hin).
        rewrite (count_absent _ _ Hnot), Hof. reflexivity.
Qed.

Lemma run_requests_invariant (c : option (string * string)) (w : Certificate.World)
    (turns : list Proxy.Turn) :
  Proxy.requests_invariant (run (Proxy.configured c w) turns).
Proof.
  cut (Proxy.ids_consistent (run (Proxy.configured c w) turns)
       /\ Proxy.requests_invariant (run (Proxy.configured c w) turns)); [tauto|].
  apply (run_invariant homedir run_command URL_parse
           (fun st => Proxy.ids_consistent st /\ Proxy.requests_invariant st)).
  - intros st t [Hids Hinv].
    pose proof (step_ids_consistent homedir run_command URL_parse st t Hids) as Hids'.
    split; [exact Hids'|]. apply step_requests_invariant; assumption.
  - split.
    + split; [reflexivity|]. intros k e Hk. discriminate Hk.
    + intros _. split.
      * intros i Hi. cbn in Hi. set_solver.
      * intros h e He. discriminate He.
Qed.

(** X21. Along every run of an instance that has handled at most 2^53
    exchanges, every [request] event bears the id of an exchange of the
    instance, and every exchange has exactly one [request] event, but a
    plain HTTP request whose body is still being read, which has
    none. *)
Theorem one_request_event_per_exchange (c : option (string * string))
    (w : Certificate.World) (turns : list Proxy.Turn) :
  let st := run (Proxy.configured c w) turns in
  (N.of_nat (length (Proxy.exchanges st)) <= Js.MAX_EXACT)%N ->
  (forall i, i ∈ Proxy.requested (Proxy.calls st) -> i ∈ Proxy.assigned_ids st)
  /\ forall h e,
       Proxy.exchanges st !! h = Some e ->
       Proxy.request_count (Proxy.exchange_id e) (Proxy.calls st)
       = match Proxy.exchange_request e with
         | Some _ => 1%nat
         | None => 0%nat
         end.
Proof.
  intros st Hbound.
  destruct (run_requests_invariant c w turns Hbound) as [Hmem Hcnt].
  fold st in Hmem, Hcnt. split; [exact Hmem|].
  intros h e He. rewrite (Hcnt h e He). destruct e; reflexivity.
Qed.

End Requests.

Lemma one_request_event_per_exchange_witness :
  (N.of_nat (length (Proxy.exchanges
                       (Proxy.run Demo.home Demo.openssl_fails Demo.URL_parse
                          (Proxy.configured None Demo.empty_world) Demo.two_exchanges)))
   <= Js.MAX_EXACT)%N
  /\ exists e,
       Proxy.exchanges
         (Proxy.run Demo.home Demo.openssl_fails Demo.URL_parse
            (Proxy.configured None Demo.empty_world) Demo.two_exchanges) !! 1%nat
       = Some e
       /\ Proxy.request_count (Proxy.exchange_id e)
            (Proxy.calls (Proxy.run Demo.home Demo.openssl_fails Demo.URL_parse
                            (Proxy.configured None Demo.empty_world) Demo.two_exchanges))
          = 1%nat.
Proof.
  assert (Hbound :
    (N.of_nat (length (Proxy.exchanges
                         (Proxy.run Demo.home Demo.openssl_fails Demo.URL_parse
                            (Proxy.configured None Demo.empty_world) Demo.two_exchanges)))
     <= Js.MAX_EXACT)%N) by (vm_compute; discriminate).
  split; [exact Hbound|].
  eexists. split; [vm_compute; reflexivity|].
  refine (proj2 (one_request_event_per_exchange Demo.home Demo.openssl_fails
                   Demo.URL_parse None Demo.empty_world Demo.two_exchanges Hbound)
            1%nat _ _).
  vm_compute. reflexivity.
Defined.
